(** * Ragas-Eval-Web: checkpointed fetch pipeline, alignment filter and
      evaluation retry loops

    A shallow embedding of the data pipeline of [app.py],
    [convert_to_ragas_formats.py] and [evaluate_dataset.py], and the
    properties of the written specification checked against it.

    Conventions of the embedding:
    - a Python [str] is the list of its Unicode code points ([pystr]);
    - a pandas cell is either the missing value [NaN] or a string;
    - a DataFrame with the four columns the pipeline touches is a list of
      rows, the positional index of a row being its pandas index label;
    - Python sets of indices are [gset nat], the checkpoint directory is a
      [gmap] from file hash to file;
    - an exception is an explicit [Raise] outcome, so that a [try/except]
      of the source is a [match] of the model;
    - the remote services, the scoring library, the random generator and the
      thread pool's completion order are oracles passed as arguments. *)

From Stdlib Require Import QArith Lqa Strings.Ascii Strings.String.
From stdpp Require Import base list gmap sets strings.

Local Open Scope nat_scope.

(* ===================================================================== *)
(** * Python strings *)
(* ===================================================================== *)

Module Py.

(** A [str] value: the sequence of its code points. *)
Definition pystr := list N.

(** An ASCII literal as a [pystr]. *)
Definition lit (s : string) : pystr :=
  map N_of_ascii (String.list_ascii_of_string s).

(** [str.isspace] on one code point: the 29 code points that CPython's
    Unicode database marks as whitespace.  [str.strip] and the regex class
    [\s] (for a [str] pattern) use the same predicate. *)
Definition isspace (c : N) : bool :=
  ((9 <=? c) && (c <=? 13) || (28 <=? c) && (c <=? 32)
   || (c =? 133) || (c =? 160) || (c =? 5760)
   || (8192 <=? c) && (c <=? 8202)
   || (c =? 8232) || (c =? 8233) || (c =? 8239) || (c =? 8287)
   || (c =? 12288))%N.

(** [s.lstrip()], [s.rstrip()], [s.strip()]. *)
Fixpoint lstrip (s : pystr) : pystr :=
  match s with
  | c :: s' => if isspace c then lstrip s' else s
  | [] => []
  end.

Definition rstrip (s : pystr) : pystr := rev (lstrip (rev s)).

Definition strip (s : pystr) : pystr := rstrip (lstrip s).

(** Truth value of a string: non-empty. *)
Definition truthy (s : pystr) : bool :=
  match s with [] => false | _ :: _ => true end.

Definition pystr_eqb (a b : pystr) : bool := bool_decide (a = b).

(** A passage that [p.strip()] leaves non-empty. *)
Definition not_blank (p : pystr) : Prop := truthy (strip p) = true.

(** [s.lower()] on the ASCII letters.  Outside ASCII only U+0130 and
    U+212A lower-case to something that contains an ASCII letter ("i"
    followed by U+0307, and "k"); neither can complete one of the ASCII
    needles the pipeline searches for, so they are left unchanged. *)
Definition lower_char (c : N) : N :=
  if ((65 <=? c) && (c <=? 90))%N then (c + 32)%N else c.

Definition lower (s : pystr) : pystr := map lower_char s.

(** [s.startswith(p)] and the operator [needle in s]. *)
Fixpoint startswith (p s : pystr) : bool :=
  match p, s with
  | [], _ => true
  | a :: p', b :: s' => (a =? b)%N && startswith p' s'
  | _ :: _, [] => false
  end.

Fixpoint contains (needle s : pystr) : bool :=
  startswith needle s ||
  match s with
  | [] => false
  | _ :: s' => contains needle s'
  end.

(** [s.split('\n\n')]: the pieces between the non-overlapping occurrences
    of two consecutive line feeds, found left to right.  [cur] holds the
    current piece in reverse. *)
Fixpoint split_nn_from (cur s : pystr) : list pystr :=
  match s with
  | 10%N :: 10%N :: rest => rev cur :: split_nn_from [] rest
  | c :: s' => split_nn_from (c :: cur) s'
  | [] => [rev cur]
  end.

Definition split_nn (s : pystr) : list pystr := split_nn_from [] s.

End Py.
Export Py.

(* ===================================================================== *)
(** * pandas cells *)
(* ===================================================================== *)

(** A cell holds a string or is missing.  [pd.isna] is true of the missing
    value, and [str] renders it as the three letters "nan". *)
Inductive cell :=
| NaN
| Str (s : pystr).

Definition isna (c : cell) : bool :=
  match c with NaN => true | Str _ => false end.

Definition nan_str : pystr := lit "nan".

Definition str_of (c : cell) : pystr :=
  match c with NaN => nan_str | Str s => s end.

(** Truth value of a cell used as a condition: the float [nan] is true,
    a string is true when non-empty. *)
Definition cell_truthy (c : cell) : bool :=
  match c with NaN => true | Str s => truthy s end.

(* ===================================================================== *)
(** * The fragment of [re] the pipeline uses *)
(* ===================================================================== *)

Module Re.

(** Pattern syntax.  [Star g r] is [r*] when [g] is true and the lazy
    [r*?] otherwise; [r+] is written [Cat r (Star true r)]. *)
Inductive regex :=
| Eps
| Lit (c : N)
| Cls (p : N -> bool)
| Cat (r1 r2 : regex)
| Alt (r1 r2 : regex)
| Star (greedy : bool) (r : regex)
| Grp (n : nat) (r : regex)
| Look (r : regex)
| Bol
| Eol.

Definition Plus (g : bool) (r : regex) : regex := Cat r (Star g r).

(** Matcher state: how many characters were consumed, what is left, and
    the text of the groups captured so far. *)
Record mstate := MState {
  pos : nat;
  rest : pystr;
  caps : list (nat * pystr)
}.

Definition advance (st : mstate) (rest' : pystr) : mstate :=
  MState (S (pos st)) rest' (caps st).

Definition capture (n : nat) (from to : mstate) : mstate :=
  MState (pos to) (rest to)
         ((n, take (pos to - pos from) (rest from)) :: caps to).

Fixpoint group (n : nat) (cs : list (nat * pystr)) : pystr :=
  match cs with
  | [] => []
  | (m, s) :: cs' => if Nat.eqb m n then s else group n cs'
  end.

Definition orelse {A} (a : option A) (b : option A) : option A :=
  match a with Some x => Some x | None => b end.

(** Backtracking matcher in continuation style, the search order being
    that of CPython's engine: alternatives left to right, a greedy star
    tries one more iteration first, a lazy star tries the continuation
    first.  An iteration of a star must consume input, so [fuel] larger
    than the length of the remaining input is never used up. *)
Fixpoint exec (fuel : nat) : regex -> mstate -> (mstate -> option mstate) -> option mstate :=
  fix go (r : regex) (st : mstate) (k : mstate -> option mstate) {struct r} : option mstate :=
    match r with
    | Eps => k st
    | Lit c =>
        match rest st with
        | x :: xs => if (x =? c)%N then k (advance st xs) else None
        | [] => None
        end
    | Cls p =>
        match rest st with
        | x :: xs => if p x then k (advance st xs) else None
        | [] => None
        end
    | Cat r1 r2 => go r1 st (fun st' => go r2 st' k)
    | Alt r1 r2 => orelse (go r1 st k) (go r2 st k)
    | Star g r1 =>
        let more :=
          match fuel with
          | O => None
          | S f =>
              go r1 st (fun st' =>
                if pos st <? pos st' then exec f (Star g r1) st' k else None)
          end in
        if g then orelse more (k st) else orelse (k st) more
    | Grp n r1 => go r1 st (fun st' => k (capture n st st'))
    | Look r1 =>
        match go r1 st Some with
        | Some _ => k st
        | None => None
        end
    | Bol => if Nat.eqb (pos st) 0 then k st else None
    | Eol =>
        match rest st with
        | [] => k st
        | [10%N] => k st
        | _ => None
        end
    end.

(** States of one run over a text of [n] characters: what was consumed and
    what is left add up to [n]. *)
Definition wf (n : nat) (st : mstate) : Prop := pos st + length (rest st) = n.

(** One match attempt anchored at the current position. *)
Definition match_here (r : regex) (p : nat) (s : pystr) : option mstate :=
  exec (S (length s)) r (MState p s []) Some.

(** [re.findall] for a pattern with two groups: the pairs (group 1,
    group 2) of the non-overlapping matches, leftmost first.  (None of the
    patterns below can match the empty string, so the rules for empty
    matches do not come into play.) *)
Fixpoint findall2_from (fuel : nat) (r : regex) (p : nat) (s : pystr)
  : list (pystr * pystr) :=
  match fuel with
  | O => []
  | S f =>
      match match_here r p s with
      | Some m =>
          if p <? pos m
          then (group 1 (caps m), group 2 (caps m)) :: findall2_from f r (pos m) (rest m)
          else (group 1 (caps m), group 2 (caps m)) ::
               match s with
               | [] => []
               | _ :: s' => findall2_from f r (S p) s'
               end
      | None =>
          match s with
          | [] => []
          | _ :: s' => findall2_from f r (S p) s'
          end
      end
  end.

Definition findall2 (r : regex) (s : pystr) : list (pystr * pystr) :=
  findall2_from (S (length s)) r 0 s.

(** [re.sub(r, repl, s)] for a replacement without group references. *)
Fixpoint sub_from (fuel : nat) (r : regex) (repl : pystr) (p : nat) (s : pystr)
  : pystr :=
  match fuel with
  | O => s
  | S f =>
      match match_here r p s with
      | Some m =>
          if p <? pos m
          then repl ++ sub_from f r repl (pos m) (rest m)
          else repl ++
               match s with
               | [] => []
               | c :: s' => c :: sub_from f r repl (S p) s'
               end
      | None =>
          match s with
          | [] => []
          | c :: s' => c :: sub_from f r repl (S p) s'
          end
      end
  end.

Definition sub (r : regex) (repl : pystr) (s : pystr) : pystr :=
  sub_from (S (length s)) r repl 0 s.

(** Character classes. *)
Definition except (c : N) : N -> bool := fun x => negb (x =? c)%N.

End Re.

(* ===================================================================== *)
(** * Passage extraction ([convert_to_ragas_formats.py]) *)
(* ===================================================================== *)

(** The two placeholder passages of the source, as code points:
    "无参考文档" and "参考文档信息不明确". *)
Definition no_reference : pystr :=
  [26080; 21442; 32771; 25991; 26723]%N.

Definition unclear_reference : pystr :=
  [21442; 32771; 25991; 26723; 20449; 24687; 19981; 26126; 30830]%N.

(** [isalnum] restricted to ASCII: the instance used for concrete runs. *)
Definition ascii_isalnum (c : N) : bool :=
  ((48 <=? c) && (c <=? 57) || (65 <=? c) && (c <=? 90)
   || (97 <=? c) && (c <=? 122))%N.

Section Passages.

(** The alphanumeric table of the Unicode database ([str.isalnum] on one
    code point) is not part of the repository; the regex class [\w] is
    this table plus the underscore. *)
Variable isalnum : N -> bool.

Definition word (c : N) : bool := isalnum c || (c =? 95)%N.

Definition cat (rs : list Re.regex) : Re.regex := foldr Re.Cat Re.Eps rs.

(** [[^\]]+\.\w+], the file name between the brackets of a chunk title. *)
Definition title_name : Re.regex :=
  cat [Re.Plus true (Re.Cls (Re.except 93)); Re.Lit 46; Re.Plus true (Re.Cls word)].

(** [r'\[([^\]]+\.\w+)\]:\s*\n([^[]*?)(?=\n\[[^\]]+\.\w+\]:|$)'] *)
Definition chunk_pattern : Re.regex :=
  cat [Re.Lit 91; Re.Grp 1 title_name; Re.Lit 93; Re.Lit 58;
       Re.Star true (Re.Cls isspace); Re.Lit 10;
       Re.Grp 2 (Re.Star false (Re.Cls (Re.except 91)));
       Re.Look (Re.Alt (cat [Re.Lit 10; Re.Lit 91; title_name; Re.Lit 93; Re.Lit 58])
                       Re.Eol)].

(** [r'\s+'] *)
Definition ws_run : Re.regex := Re.Plus true (Re.Cls isspace).

(** [r'^\[.*?\]:\s*'], compiled without flags: the dot stops at a line
    feed and the caret matches at the start of the string only. *)
Definition title_prefix : Re.regex :=
  cat [Re.Bol; Re.Lit 91; Re.Star false (Re.Cls (Re.except 10)); Re.Lit 93;
       Re.Lit 58; Re.Star true (Re.Cls isspace)].

(** Body of the loop over the regex matches. *)
Definition add_match (contexts : list pystr) (m : pystr * pystr) : list pystr :=
  let cleaned_content := Re.sub ws_run [32%N] (strip (snd m)) in
  if truthy cleaned_content then contexts ++ [cleaned_content] else contexts.

(** Body of the fallback loop over the pieces split at blank lines. *)
Definition add_chunk (contexts : list pystr) (chunk : pystr) : list pystr :=
  let chunk := strip chunk in
  if truthy chunk && (10 <? length chunk)
  then contexts ++ [Re.sub title_prefix [] chunk]
  else contexts.

Definition extract_contexts_from_contexts_column (contexts_text : cell) : list pystr :=
  if isna contexts_text || negb (cell_truthy contexts_text)
  then [no_reference]
  else
    let contexts_text := strip (str_of contexts_text) in
    let matches := Re.findall2 chunk_pattern contexts_text in
    let contexts :=
      match matches with
      | _ :: _ => fold_left add_match matches []
      | [] => fold_left add_chunk (split_nn contexts_text) []
      end in
    match contexts with
    | _ :: _ => contexts
    | [] => [unclear_reference]
    end.

(* ===================================================================== *)
(** * Alignment filter ([align_data_for_evaluation], app.py) *)
(* ===================================================================== *)

(** One row of the DataFrame: the columns '问题', 'AI回答', '参考文档' and
    'Contexts'.  A column that the sheet lacks reads as the empty string
    (it is created so on upload, and [row.get(col, '')] defaults so). *)
Record row := Row {
  col_question : cell;
  col_ai_answer : cell;
  col_reference : cell;
  col_contexts : cell
}.

(** One element of the list handed to the scorer. *)
Record sample := Sample {
  question : pystr;
  answer : pystr;
  contexts : list pystr;
  ground_truth : pystr
}.

(** Whether the row's question is missing or blank (first test of the loop
    body, also the first test of task building). *)
Definition question_blank (r : row) : bool :=
  isna (col_question r) || pystr_eqb (strip (str_of (col_question r))) [].

(** [contexts and any(ctx.strip() for ctx in contexts)] *)
Definition has_passage (contexts : list pystr) : bool :=
  match contexts with
  | [] => false
  | _ :: _ => existsb (fun ctx => truthy (strip ctx)) contexts
  end.

(** The loop body: [Some] when the row is appended to [aligned_data],
    [None] when [skipped_count] is incremented.  The passage extractor
    raises nothing on a string, so the [except] branch of the source is not
    taken. *)
Definition align_row (r : row) : option sample :=
  if question_blank r then None
  else
    let question := strip (str_of (col_question r)) in
    let answer := strip (str_of (col_ai_answer r)) in
    let contexts_raw := strip (str_of (col_contexts r)) in
    if truthy answer && truthy contexts_raw
       && negb (pystr_eqb answer nan_str) && negb (pystr_eqb contexts_raw nan_str)
    then
      let contexts := extract_contexts_from_contexts_column (Str contexts_raw) in
      if has_passage contexts
      then Some (Sample question answer contexts answer)
      else None
    else None.

Definition align_step (acc : list sample * nat) (r : row) : list sample * nat :=
  match align_row r with
  | Some s => (fst acc ++ [s], snd acc)
  | None => (fst acc, S (snd acc))
  end.

(** The function returns [aligned_data]; [skipped_count] is what it writes
    to the log next to [len(aligned_data)].  Both are kept. *)
Definition align_data_for_evaluation (df : list row) : list sample * nat :=
  fold_left align_step df ([], 0).

End Passages.

(* ===================================================================== *)
(** * Exceptions *)
(* ===================================================================== *)

(** The result of a call that may raise; [Raise] carries [str(e)]. *)
Inductive outcome (A : Type) :=
| Ok (a : A)
| Raise (msg : pystr).
Arguments Ok {A} a.
Arguments Raise {A} msg.

(* ===================================================================== *)
(** * Checkpoint store ([save_processing_state], [load_processing_state]) *)
(* ===================================================================== *)

(** The dictionary that [save_processing_state] pickles. *)
Record state_data := StateData {
  sd_file_hash : pystr;
  sd_df : list row;
  sd_answer_progress : list nat;
  sd_context_progress : list nat;
  sd_timestamp : pystr
}.

(** Content of a file of the state directory: the pickle of a state
    dictionary, or anything [pickle.load] or the reading of its timestamp
    chokes on (truncated, foreign or unreadable content). *)
Inductive file :=
| Pickled (sd : state_data)
| Unreadable.

(** The state directory: file hash [h] stands for the path
    [rag_eval_states/state_<h>.pkl]. *)
Abbreviation store := (gmap pystr file).

(** Where a save can fail: creating the directory, opening the file for
    writing (nothing written), dumping (the file is left truncated), or
    measuring and logging after the dump (the file is complete). *)
Inductive io_fault :=
| NoFault
| MkdirFails
| OpenFails
| DumpFails
| ReportFails.

Definition pickle_load (f : file) : outcome state_data :=
  match f with
  | Pickled sd => Ok sd
  | Unreadable => Raise (lit "could not load pickle")
  end.

(** The body of the [try] of [load_processing_state]. *)
Definition load_body (fs : store) (file_hash : pystr) : outcome (option state_data) :=
  match fs !! file_hash with
  | None => Ok None
  | Some f =>
      match pickle_load f with
      | Ok sd => Ok (Some sd)
      | Raise e => Raise e
      end
  end.

(** [except Exception: ... return None] around the body. *)
Definition load_processing_state (fs : store) (file_hash : pystr)
  : outcome (option state_data) :=
  match load_body fs file_hash with
  | Ok r => Ok r
  | Raise _ => Ok None
  end.

(** [save_processing_state].  [sweep] is the effect on the directory of
    the two clean-up calls made before writing (they depend on the clock
    and on file sizes and catch their own errors), [now] is
    [datetime.now().isoformat()].  The result is the new directory and the
    boolean the function returns. *)
Definition save_processing_state (sweep : store -> store) (now : pystr)
    (fault : io_fault) (fs : store) (file_hash : pystr) (df : list row)
    (answer_progress context_progress : gset nat) : store * bool :=
  match fault with
  | MkdirFails => (fs, false)
  | _ =>
      let fs1 := sweep fs in
      let state_data :=
        StateData file_hash df (elements answer_progress)
                  (elements context_progress) now in
      match fault with
      | OpenFails => (fs1, false)
      | DumpFails => (<[file_hash := Unreadable]> fs1, false)
      | ReportFails => (<[file_hash := Pickled state_data]> fs1, false)
      | _ => (<[file_hash := Pickled state_data]> fs1, true)
      end
  end.

(* ===================================================================== *)
(** * Task orchestrator ([process_method2_file]) *)
(* ===================================================================== *)

(** What [query_answer] returns. *)
Record answer_result := AnswerResult {
  ai_answer : pystr;
  reference : pystr;
  success : bool
}.

(** The call sites of [save_processing_state] within one run: after the
    n-th completed answer task, after the n-th completed context task, and
    the final save. *)
Inductive save_site :=
| AnswerSave (n : nat)
| ContextSave (n : nat)
| FinalSave.

(** Everything outside the process that a run depends on. *)
Record env := Env {
  (** outcome of [future.result()] for the answer task of a row *)
  answer_call : nat -> pystr -> outcome answer_result;
  (** outcome of [future.result()] for the context task of a row *)
  context_call : nat -> pystr -> outcome (pystr * bool);
  (** order in which [as_completed] yields the submitted tasks *)
  completion : list (nat * pystr) -> list (nat * pystr);
  sweep_at : save_site -> store -> store;
  clock_at : save_site -> pystr;
  fault_at : save_site -> io_fault
}.

Definition set_answer (a ref : cell) (r : row) : row :=
  Row (col_question r) a ref (col_contexts r).

Definition set_contexts (c : cell) (r : row) : row :=
  Row (col_question r) (col_ai_answer r) (col_reference r) c.

(** [pd.notna(v) and str(v).strip()] *)
Definition filled (c : cell) : bool :=
  negb (isna c) && truthy (strip (str_of c)).

(** [pd.isna(v) or str(v).strip() == ''] *)
Definition empty_cell (c : cell) : bool :=
  isna c || pystr_eqb (strip (str_of c)) [].

(** Working state of a run: the DataFrame and the two progress sets. *)
Record work := Work {
  w_df : list row;
  w_answer_progress : gset nat;
  w_context_progress : gset nat
}.

(** Body of the merge loop over the rows of the saved DataFrame.  The
    assignment [df.at[idx, col] = v] is guarded by [idx < len(df)], so
    [alter] is never applied out of range. *)
Definition merge_row (w : work) (ir : nat * row) : work :=
  let idx := fst ir in
  let saved := snd ir in
  if idx <? length (w_df w) then
    let w1 :=
      if filled (col_ai_answer saved)
      then Work (alter (set_answer (col_ai_answer saved) (col_reference saved)) idx (w_df w))
                ({[idx]} ∪ w_answer_progress w)
                (w_context_progress w)
      else w in
    if filled (col_contexts saved)
    then Work (alter (set_contexts (col_contexts saved)) idx (w_df w1))
              (w_answer_progress w1)
              ({[idx]} ∪ w_context_progress w1)
    else w1
  else w.

(** [df.iterrows()]: the rows paired with their index. *)
Definition iterrows (df : list row) : list (nat * row) :=
  zip (seq 0 (length df)) df.

(** The [if previous_state:] block: restore the progress sets, then merge
    the saved rows into the uploaded DataFrame. *)
Definition restore (previous_state : option state_data) (df : list row) : work :=
  match previous_state with
  | Some st =>
      fold_left merge_row (iterrows (sd_df st))
                (Work df (list_to_set (sd_answer_progress st))
                         (list_to_set (sd_context_progress st)))
  | None => Work df ∅ ∅
  end.

(** Body of the task-collecting loop. *)
Definition collect_row (answer_progress context_progress : gset nat)
    (tasks : list (nat * pystr) * list (nat * pystr)) (ir : nat * row)
  : list (nat * pystr) * list (nat * pystr) :=
  let index := fst ir in
  let r := snd ir in
  if question_blank r then tasks
  else
    let question := strip (str_of (col_question r)) in
    let answer_tasks :=
      if negb (bool_decide (index ∈ answer_progress)) && empty_cell (col_ai_answer r)
      then fst tasks ++ [(index, question)] else fst tasks in
    let context_tasks :=
      if negb (bool_decide (index ∈ context_progress)) && empty_cell (col_contexts r)
      then snd tasks ++ [(index, question)] else snd tasks in
    (answer_tasks, context_tasks).

Definition collect_tasks (w : work) : list (nat * pystr) * list (nat * pystr) :=
  fold_left (collect_row (w_answer_progress w) (w_context_progress w))
            (iterrows (w_df w)) ([], []).

(** State of a completion loop: directory, working state, the counter of
    successes and [save_counter]. *)
Record loop_state := LoopState {
  ls_store : store;
  ls_work : work;
  ls_successful : nat;
  ls_save_counter : nat
}.

Definition checkpoint (e : env) (site : save_site) (file_hash : pystr)
    (fs : store) (w : work) : store :=
  fst (save_processing_state (sweep_at e site) (clock_at e site) (fault_at e site)
         fs file_hash (w_df w) (w_answer_progress w) (w_context_progress w)).

(** Every tenth completed task saves the progress. *)
Definition tick (e : env) (site : nat -> save_site) (file_hash : pystr)
    (fs : store) (w : work) (successful save_counter : nat) : loop_state :=
  let save_counter := S save_counter in
  let fs' :=
    if Nat.eqb (save_counter mod 10) 0
    then checkpoint e (site save_counter) file_hash fs w
    else fs in
  LoopState fs' w successful save_counter.

(** Body of the loop over the completed answer futures. *)
Definition answer_done (e : env) (file_hash : pystr) (ls : loop_state)
    (task : nat * pystr) : loop_state :=
  let index := fst task in
  let w := ls_work ls in
  match answer_call e index (snd task) with
  | Ok result =>
      if success result
      then tick e AnswerSave file_hash (ls_store ls)
             (Work (alter (set_answer (Str (ai_answer result)) (Str (reference result)))
                          index (w_df w))
                   ({[index]} ∪ w_answer_progress w)
                   (w_context_progress w))
             (S (ls_successful ls)) (ls_save_counter ls)
      else tick e AnswerSave file_hash (ls_store ls) w
             (ls_successful ls) (ls_save_counter ls)
  | Raise _ =>
      tick e AnswerSave file_hash (ls_store ls) w
        (ls_successful ls) (ls_save_counter ls)
  end.

(** Body of the loop over the completed context futures. *)
Definition context_done (e : env) (file_hash : pystr) (ls : loop_state)
    (task : nat * pystr) : loop_state :=
  let index := fst task in
  let w := ls_work ls in
  match context_call e index (snd task) with
  | Ok (contexts, true) =>
      tick e ContextSave file_hash (ls_store ls)
        (Work (alter (set_contexts (Str contexts)) index (w_df w))
              (w_answer_progress w)
              ({[index]} ∪ w_context_progress w))
        (S (ls_successful ls)) (ls_save_counter ls)
  | _ =>
      tick e ContextSave file_hash (ls_store ls) w
        (ls_successful ls) (ls_save_counter ls)
  end.

(** What a run leaves behind and reports: the state directory, the
    working state after the checkpoint was merged and after the fetches,
    the two task lists, the success counts, and whether the final save
    reported success. *)
Record run := Run {
  run_store : store;
  run_restored : work;
  run_work : work;
  run_answer_tasks : list (nat * pystr);
  run_context_tasks : list (nat * pystr);
  run_successful_answers : nat;
  run_successful_contexts : nat;
  run_saved : bool
}.

(** [process_method2_file], from the loading of the previous state to the
    final save.  [df] is the uploaded sheet after the three optional
    columns were created; the copies written to the temporary sheet are
    not modelled. *)
Definition process_method2_file (e : env) (fs : store) (file_hash : pystr)
    (df : list row) : run :=
  let previous_state :=
    match load_processing_state fs file_hash with
    | Ok r => r
    | Raise _ => None
    end in
  let w0 := restore previous_state df in
  let tasks := collect_tasks w0 in
  let la :=
    fold_left (answer_done e file_hash) (completion e (fst tasks))
              (LoopState fs w0 0 0) in
  let lc :=
    fold_left (context_done e file_hash) (completion e (snd tasks))
              (LoopState (ls_store la) (ls_work la) 0 0) in
  let final :=
    save_processing_state (sweep_at e FinalSave) (clock_at e FinalSave)
      (fault_at e FinalSave) (ls_store lc) file_hash (w_df (ls_work lc))
      (w_answer_progress (ls_work lc)) (w_context_progress (ls_work lc)) in
  Run (fst final) w0 (ls_work lc) (fst tasks) (snd tasks)
      (ls_successful la) (ls_successful lc) (snd final).

(* ===================================================================== *)
(** * Evaluation in the web application ([evaluate_dataset], app.py) *)
(* ===================================================================== *)

Inductive metric :=
| faithfulness
| answer_relevancy
| context_precision
| context_recall
| answer_similarity
| answer_correctness.

(** [metric_map]: the six metric names the application knows. *)
Definition metric_map (name : pystr) : option metric :=
  if pystr_eqb name (lit "faithfulness") then Some faithfulness
  else if pystr_eqb name (lit "answer_relevancy") then Some answer_relevancy
  else if pystr_eqb name (lit "context_precision") then Some context_precision
  else if pystr_eqb name (lit "context_recall") then Some context_recall
  else if pystr_eqb name (lit "answer_similarity") then Some answer_similarity
  else if pystr_eqb name (lit "answer_correctness") then Some answer_correctness
  else None.

(** What the user is shown. *)
Inductive ui_msg :=
| SelectAMetric
| NoDataToEvaluate
| InvalidSamples (invalid valid : nat)
| NoValidSamples
| NoEvaluableData
| EvaluationFailed (msg : pystr).

(** Observable events of an evaluation: messages on the page and calls of
    the scoring library. *)
Inductive event (Result : Type) :=
| UiError (m : ui_msg)
| UiWarning (m : ui_msg)
| Scored (data : list sample) (metrics : list metric) (r : outcome Result).
Arguments UiError {Result} m.
Arguments UiWarning {Result} m.
Arguments Scored {Result} data metrics r.

(** What [evaluate_dataset] of app.py finds around it: the failure, if
    any, of the imports, the API key of the environment, the failure, if
    any, of building the model clients, and the scoring library. *)
Record eval_env (Result : Type) := EvalEnv {
  import_failure : option pystr;
  api_key : option pystr;
  client_failure : option pystr;
  ragas_evaluate : list sample -> list metric -> outcome Result
}.
Arguments import_failure {Result} e.
Arguments api_key {Result} e.
Arguments client_failure {Result} e.
Arguments ragas_evaluate {Result} e data metrics.

(** The two tests of the validation loop of [evaluate_dataset]. *)
Definition sample_valid (item : sample) : bool :=
  if negb (truthy (question item)) || negb (truthy (answer item))
     || match contexts item with [] => true | _ :: _ => false end
  then false
  else negb (forallb (fun ctx => negb (truthy (strip ctx))) (contexts item)).

Section AppEvaluation.

Context {Result : Type}.
Variable e : eval_env Result.

(** The [try] block of [evaluate_dataset]: the events it causes and how it
    ends; a [Raise] is what the [except] clause receives. *)
Definition evaluate_try (evaluation_data : list sample) (selected_metrics : list pystr)
  : list (event Result) * outcome (option Result) :=
  match import_failure e with
  | Some msg => ([], Raise msg)
  | None =>
      match api_key e with
      | Some (_ :: _) =>
          match client_failure e with
          | Some msg => ([], Raise msg)
          | None =>
              let metrics := omap metric_map selected_metrics in
              match metrics with
              | [] => ([UiError SelectAMetric], Ok None)
              | _ :: _ =>
                  let result := ragas_evaluate e evaluation_data metrics in
                  ([Scored evaluation_data metrics result],
                   match result with
                   | Ok r => Ok (Some r)
                   | Raise msg => Raise msg
                   end)
              end
          end
      | _ => ([], Raise (lit "DASHSCOPE_API_KEY is not set"))
      end
  end.

(** [evaluate_dataset(evaluation_data, selected_metrics)] of app.py: the
    value returned and the events in order. *)
Definition evaluate_dataset (evaluation_data : list sample) (selected_metrics : list pystr)
  : option Result * list (event Result) :=
  match evaluation_data with
  | [] => (None, [UiError NoDataToEvaluate])
  | _ :: _ =>
      let valid_samples := filter (fun item => sample_valid item = true) evaluation_data in
      let invalid_count := length evaluation_data - length valid_samples in
      let warned :=
        if 0 <? invalid_count
        then [UiWarning (InvalidSamples invalid_count (length valid_samples))]
        else [] in
      match valid_samples with
      | [] => (None, warned ++ [UiError NoValidSamples])
      | _ :: _ =>
          let attempt := evaluate_try valid_samples selected_metrics in
          match snd attempt with
          | Ok r => (r, warned ++ fst attempt)
          | Raise msg =>
              (None, warned ++ fst attempt ++ [UiError (EvaluationFailed msg)])
          end
      end
  end.

Variable isalnum : N -> bool.

(** [evaluate_partial_data]: [df] is the uploaded sheet as read, [fs] the
    state directory. *)
Definition evaluate_partial_data (fs : store) (file_hash : pystr) (df : list row)
    (selected_metrics : list pystr) : option Result * list (event Result) :=
  match selected_metrics with
  | [] => (None, [UiError SelectAMetric])
  | _ :: _ =>
      let df :=
        match load_processing_state fs file_hash with
        | Ok (Some previous_state) => sd_df previous_state
        | _ => df
        end in
      let evaluation_data := fst (align_data_for_evaluation isalnum df) in
      match evaluation_data with
      | [] => (None, [UiWarning NoEvaluableData])
      | _ :: _ => evaluate_dataset evaluation_data selected_metrics
      end
  end.

End AppEvaluation.

(* ===================================================================== *)
(** * Command-line evaluator ([DatasetEvaluator], evaluate_dataset.py) *)
(* ===================================================================== *)

(** A call of [time.sleep]: the jitter before an attempt of a later batch,
    or the wait after a failed attempt. *)
Inductive pause :=
| Jitter (t : Q)
| Backoff (t : Q).

(** [random.uniform(a, b)] is [a + (b - a) * random()], the draw
    [random()] lying between 0 and 1. *)
Definition uniform (a b u : Q) : Q := (a + (b - a) * u)%Q.

Definition base_delay : Z := 5.

Definition is_connection_error (error_msg : pystr) : bool :=
  contains (lit "Connection error") error_msg
  || contains (lit "timeout") (lower error_msg).

Definition is_rate_limit (error_msg : pystr) : bool :=
  contains (lit "rate") (lower error_msg)
  || contains (lit "limit") (lower error_msg).

(** The wait computed in the [except] clause of [_evaluate_batch]. *)
Definition wait_time (attempt : nat) (error_msg : pystr) (u : Q) : Q :=
  if is_connection_error error_msg
  then (inject_Z (base_delay * 3 ^ Z.of_nat attempt) + uniform 5 15 u)%Q
  else if is_rate_limit error_msg
  then (inject_Z (base_delay * 4 ^ Z.of_nat attempt) + uniform 10 30 u)%Q
  else (inject_Z base_delay + uniform 1 5 u)%Q.

(** [_merge_results]: the first element of the list. *)
Definition _merge_results {Result : Type} (results_list : list Result) : outcome Result :=
  match results_list with
  | merged_result :: _ => Ok merged_result
  | [] => Raise (lit "list index out of range")
  end.

Section Evaluator.

Context {Result : Type}.

(** [scoring b a ds]: what the call of [ragas.evaluate] made in attempt
    [a] (counted from 0) for batch number [b] does on data [ds]; the
    one-shot [run_evaluation] is batch number 0. *)
Variable scoring : nat -> nat -> list sample -> outcome Result.

(** [draw b a j]: the value of [random()] behind the jitter ([j] true) or
    the wait ([j] false) of attempt [a] of batch [b]. *)
Variable draw : nat -> nat -> bool -> Q.

(** The [for attempt in range(max_retries)] loop of [_evaluate_batch],
    entered at [attempt] with [remaining] iterations to go. *)
Fixpoint evaluate_batch_from (remaining attempt : nat) (batch_dataset : list sample)
    (batch_num max_retries : nat) : option Result * list pause :=
  match remaining with
  | O => (None, [])
  | S remaining' =>
      let jitter :=
        if 1 <? batch_num
        then [Jitter (uniform (1 # 2) 2 (draw batch_num attempt true))]
        else [] in
      match scoring batch_num attempt batch_dataset with
      | Ok result => (Some result, jitter)
      | Raise error_msg =>
          let waited :=
            if attempt <? max_retries - 1
            then [Backoff (wait_time attempt error_msg (draw batch_num attempt false))]
            else [] in
          let later :=
            evaluate_batch_from remaining' (S attempt) batch_dataset batch_num max_retries in
          (fst later, jitter ++ waited ++ snd later)
      end
  end.

(** [_evaluate_batch(batch_dataset, batch_num, max_retries=3)] *)
Definition _evaluate_batch (batch_dataset : list sample) (batch_num max_retries : nat)
  : option Result * list pause :=
  evaluate_batch_from max_retries 0 batch_dataset batch_num max_retries.

(** The loop of [run_evaluation]; the quality check after a successful
    call only logs. *)
Fixpoint run_evaluation_from (remaining attempt : nat) (dataset : list sample)
    (max_retries : nat) : outcome (option Result) * list pause :=
  match remaining with
  | O => (Ok None, [])
  | S remaining' =>
      match scoring 0 attempt dataset with
      | Ok result => (Ok (Some result), [])
      | Raise error_msg =>
          if attempt <? max_retries - 1
          then
            let later := run_evaluation_from remaining' (S attempt) dataset max_retries in
            (fst later, Backoff (inject_Z ((Z.of_nat attempt + 1) * 10)) :: snd later)
          else (Raise error_msg, [])
      end
  end.

(** [run_evaluation(dataset, max_retries=3)] *)
Definition run_evaluation (dataset : list sample) (max_retries : nat)
  : outcome (option Result) * list pause :=
  run_evaluation_from max_retries 0 dataset max_retries.

(** [dataset[start_idx:end_idx]] on each column. *)
Definition batch_slice (dataset : list sample) (start_idx end_idx : nat) : list sample :=
  take (end_idx - start_idx) (drop start_idx dataset).

(** Body of the loop over the batches: the list of results so far and the
    pauses so far. *)
Definition batch_step (dataset : list sample) (batch_size : nat)
    (acc : list Result * list pause) (i : nat) : list Result * list pause :=
  let total_samples := length dataset in
  let start_idx := i * batch_size in
  let end_idx := Nat.min ((i + 1) * batch_size) total_samples in
  let batch_dataset := batch_slice dataset start_idx end_idx in
  let r := _evaluate_batch batch_dataset (i + 1) 3 in
  match fst r with
  | Some result => (fst acc ++ [result], snd acc ++ snd r)
  | None => (fst acc, snd acc ++ snd r)
  end.

(** [run_batch_evaluation(dataset, batch_size=10)]; a zero [batch_size]
    makes the division raise. *)
Definition run_batch_evaluation (dataset : list sample) (batch_size : nat)
  : outcome (option Result) * list pause :=
  match batch_size with
  | O => (Raise (lit "integer division or modulo by zero"), [])
  | S _ =>
      let total_samples := length dataset in
      let num_batches := (total_samples + batch_size - 1) / batch_size in
      let done := fold_left (batch_step dataset batch_size) (seq 0 num_batches) ([], []) in
      match fst done with
      | [] => (Ok None, snd done)
      | _ :: _ =>
          match _merge_results (fst done) with
          | Ok r => (Ok (Some r), snd done)
          | Raise msg => (Raise msg, snd done)
          end
      end
  end.

End Evaluator.

(* ===================================================================== *)
(** * The alignment rule as the specification words it *)
(* ===================================================================== *)

(** A field is blank when it is missing or holds only white space; it is
    unset when it reads as the rendering of a missing value. *)
Definition spec_blank (c : cell) : Prop :=
  isna c = true \/ strip (str_of c) = [].

Definition spec_unset (c : cell) : Prop :=
  strip (str_of c) = nan_str.

Definition decodes_to_nothing (isalnum : N -> bool) (c : cell) : Prop :=
  has_passage (extract_contexts_from_contexts_column isalnum (Str (strip (str_of c))))
  = false.

(** "skip if question blank; skip if answer blank, or equals the sentinel
    for unset; skip if context blank or decodes to zero non-blank
    passages" *)
Definition spec_skips (isalnum : N -> bool) (r : row) : Prop :=
  spec_blank (col_question r)
  \/ (spec_blank (col_ai_answer r) \/ spec_unset (col_ai_answer r))
  \/ (spec_blank (col_contexts r) \/ decodes_to_nothing isalnum (col_contexts r)).

(** The rule the loop body implements: the sentinel is tested on the
    context as well. *)
Definition code_skips (isalnum : N -> bool) (r : row) : Prop :=
  spec_blank (col_question r)
  \/ (spec_blank (col_ai_answer r) \/ spec_unset (col_ai_answer r))
  \/ (spec_blank (col_contexts r) \/ spec_unset (col_contexts r)
      \/ decodes_to_nothing isalnum (col_contexts r)).

(** Sample inputs. *)
Definition title_only_blob : pystr := lit "[aaaaaaaaaa]:".

Definition row_of (q a c : cell) : row := Row q a (Str []) c.

Definition three_rows : list row :=
  [ row_of (Str (lit "What is A?")) NaN (Str (lit "A is the first letter of the alphabet."));
    row_of (Str (lit "What is B?")) (Str (lit "B is a letter.")) NaN;
    row_of (Str (lit "What is C?")) (Str (lit "C is a letter."))
           (Str (lit "[abc.txt]:" ++ [10%N] ++ lit "C is the third letter.")) ].

(* ===================================================================== *)
(** * The merge and the task lists, row by row *)
(* ===================================================================== *)

(** What the merge loop does to the uploaded row at the index of a saved
    row. *)
Definition merge_one (saved fresh : row) : row :=
  let r1 :=
    if filled (col_ai_answer saved)
    then set_answer (col_ai_answer saved) (col_reference saved) fresh
    else fresh in
  if filled (col_contexts saved) then set_contexts (col_contexts saved) r1 else r1.

(** The answer task, if any, that the collecting loop builds for a row. *)
Definition answer_task (answer_progress : gset nat) (ir : nat * row) : option (nat * pystr) :=
  if question_blank (snd ir) then None
  else if negb (bool_decide (fst ir ∈ answer_progress)) && empty_cell (col_ai_answer (snd ir))
  then Some (fst ir, strip (str_of (col_question (snd ir))))
  else None.

(** The context task, if any, that the collecting loop builds for a row. *)
Definition context_task (context_progress : gset nat) (ir : nat * row) : option (nat * pystr) :=
  if question_blank (snd ir) then None
  else if negb (bool_decide (fst ir ∈ context_progress)) && empty_cell (col_contexts (snd ir))
  then Some (fst ir, strip (str_of (col_question (snd ir))))
  else None.

(** What the completion of one answer task does to the working state. *)
Definition answer_apply (e : env) (w : work) (task : nat * pystr) : work :=
  match answer_call e (fst task) (snd task) with
  | Ok result =>
      if success result
      then Work (alter (set_answer (Str (ai_answer result)) (Str (reference result)))
                       (fst task) (w_df w))
                ({[fst task]} ∪ w_answer_progress w)
                (w_context_progress w)
      else w
  | Raise _ => w
  end.

(** What the completion of one context task does to the working state. *)
Definition context_apply (e : env) (w : work) (task : nat * pystr) : work :=
  match context_call e (fst task) (snd task) with
  | Ok (contexts, true) =>
      Work (alter (set_contexts (Str contexts)) (fst task) (w_df w))
           (w_answer_progress w)
           ({[fst task]} ∪ w_context_progress w)
  | _ => w
  end.

(** Whether the fetch of an answer task came back with a result to
    record. *)
Definition answer_fetched (e : env) (task : nat * pystr) : option answer_result :=
  match answer_call e (fst task) (snd task) with
  | Ok result => if success result then Some result else None
  | Raise _ => None
  end.

(** Sample checkpoint and upload for the merge. *)
Definition fresh_row : row :=
  Row (Str (lit "What is A?")) (Str (lit "uploaded answer"))
      (Str (lit "uploaded note")) (Str (lit "uploaded context passage")).

Definition saved_row : row :=
  Row (Str (lit "What is A?")) (Str (lit "checkpoint answer"))
      (Str []) (Str (lit "checkpoint context passage")).

Definition saved_state : state_data :=
  StateData (lit "0f") [saved_row] [0] [0] (lit "2025-01-01T00:00:00").

(** Sample run: three uploaded questions, a remote answer service that
    fails for the second row only, tasks completing in reverse order. *)
Definition three_questions : list row :=
  [ Row (Str (lit "What is A?")) (Str []) (Str []) (Str []);
    Row (Str (lit "What is B?")) (Str []) (Str []) (Str []);
    Row (Str (lit "What is C?")) (Str []) (Str []) (Str []) ].

Definition flaky_env : env :=
  Env (fun index _ =>
         if Nat.eqb index 1
         then Ok (AnswerResult [] [] false)
         else Ok (AnswerResult (lit "an answer") (lit "- handbook.doc") true))
      (fun _ _ => Ok (lit "a retrieved passage of text", true))
      (fun tasks => rev tasks)
      (fun _ fs => fs)
      (fun _ => lit "2025-01-01T00:00:00")
      (fun _ => NoFault).

(** A call that ended in an exception. *)
Definition raises {A : Type} (o : outcome A) : Prop :=
  match o with Raise _ => True | Ok _ => False end.

(** An event that is a call of the scoring library. *)
Definition is_scored {Result : Type} (ev : event Result) : bool :=
  match ev with
  | Scored _ _ _ => true
  | _ => false
  end.

(** Sample scorer: the first two attempts of any batch fail with a
    rate-limit message, the third returns result number 7. *)
Definition rate_limit_msg : pystr := lit "Rate limit exceeded".

Definition rate_limited_twice (batch_num attempt : nat) (ds : list sample)
  : outcome nat :=
  if attempt <? 2 then Raise rate_limit_msg else Ok 7.

Definition one_sample : list sample :=
  [Sample (lit "What is C?") (lit "C is a letter.")
          [lit "C is the third letter."] (lit "C is a letter.")].

(** Sample scorer for batches: batch number 2 succeeds at once with its
    own number, every other batch fails every attempt. *)
Definition only_batch_two (batch_num attempt : nat) (ds : list sample)
  : outcome nat :=
  if Nat.eqb batch_num 2 then Ok 2 else Raise (lit "Connection error").

(** The chunk results of a batched run, in batch order. *)
Definition batch_outcomes {Result : Type}
    (scoring : nat -> nat -> list sample -> outcome Result)
    (draw : nat -> nat -> bool -> Q) (dataset : list sample) (batch_size : nat)
  : list (option Result) :=
  map (fun i =>
         fst (_evaluate_batch scoring draw
                (batch_slice dataset (i * batch_size)
                   (Nat.min ((i + 1) * batch_size) (length dataset)))
                (i + 1) 3))
      (seq 0 ((length dataset + batch_size - 1) / batch_size)).

(** A jitter pause belongs to a batch after the first and lasts between
    0.5 and 2.0. *)
Definition jitter_ok (batch_num : nat) (p : pause) : Prop :=
  match p with
  | Jitter t => 1 < batch_num /\ (1 # 2 <= t)%Q /\ (t <= 2)%Q
  | Backoff _ => True
  end.

(** Twenty-five copies of one sample: three batches of size ten. *)
Definition twenty_five : list sample :=
  replicate 25 (Sample (lit "What is C?") (lit "C is a letter.")
                       [lit "C is the third letter."] (lit "C is a letter.")).

(** Sample scorer that fails every attempt of every batch. *)
Definition always_down (batch_num attempt : nat) (ds : list sample) : outcome nat :=
  Raise (lit "Connection error").

(** Whether the fetch of a context task came back with a text to record. *)
Definition context_fetched (e : env) (task : nat * pystr) : option pystr :=
  match context_call e (fst task) (snd task) with
  | Ok (contexts, true) => Some contexts
  | _ => None
  end.

(** The row indices of the tasks whose fetch came back with something to
    record, in task order. *)
Definition succeeded {A : Type} (fetched : nat * pystr -> option A)
    (tasks : list (nat * pystr)) : list nat :=
  omap (fun t => match fetched t with Some _ => Some (fst t) | None => None end) tasks.

(** Membership in a short list of events, case by case. *)
Ltac by_events :=
  repeat match goal with
    | H : _ ∈ [] |- _ => by apply elem_of_nil in H
    | H : _ ∈ _ :: _ |- _ => apply elem_of_cons in H as [H|H]
    | H : _ ∈ _ ++ _ |- _ => apply elem_of_app in H as [H|H]
    end;
  try done; try congruence.

(* ===================================================================== *)
(** * Retention sweep of the state directory ([cleanup_old_state_files]) *)
(* ===================================================================== *)

(** [s.endswith(p)] *)
Definition endswith (p s : pystr) : bool := startswith (rev p) (rev s).

(** One name of the state directory as the sweep meets it: what [os.stat]
    gives for it, the modification time in seconds and the size in bytes,
    or nothing when the call raises.  Times and sizes in megabytes are
    exact rationals. *)
Record dir_entry := DirEntry {
  de_filename : pystr;
  de_stat : option (Q * N)
}.

(** One element of [files_info]. *)
Record file_info := FileInfo {
  fi_filename : pystr;
  fi_mtime : Q;
  fi_size : N;
  fi_age_days : Q
}.

(** [a > b] on numbers. *)
Definition Qgt_bool (a b : Q) : bool := negb (Qle_bool a b).

(** [filename.startswith("state_") and filename.endswith(".pkl")] *)
Definition is_state_file (filename : pystr) : bool :=
  startswith (lit "state_") filename && endswith (lit ".pkl") filename.

(** Body of the loop over [os.listdir(state_dir)]. *)
Definition collect_info (current_time : Q) (files_info : list file_info)
    (en : dir_entry) : list file_info :=
  if is_state_file (de_filename en) then
    match de_stat en with
    | Some (mtime, size) =>
        files_info ++ [FileInfo (de_filename en) mtime size
                                ((current_time - mtime) / (24 * 3600))%Q]
    | None => files_info
    end
  else files_info.

(** [files_info.sort(key=lambda x: x['mtime'])]: the sort is stable, equal
    times keep their order. *)
Fixpoint insert_by_mtime (x : file_info) (l : list file_info) : list file_info :=
  match l with
  | [] => [x]
  | y :: l' =>
      if Qle_bool (fi_mtime x) (fi_mtime y) then x :: l
      else y :: insert_by_mtime x l'
  end.

Definition sort_by_mtime (l : list file_info) : list file_info :=
  foldr insert_by_mtime [] l.

(** The three rules, tried in order; [file_count] is [len(files_info)]. *)
Definition should_delete (file_count : nat) (dir_size_mb : Q) (fi : file_info) : bool :=
  if Qgt_bool (fi_age_days fi) 14 then true
  else if Qgt_bool dir_size_mb 100 && Qgt_bool (fi_age_days fi) 7 then true
  else if (50 <? file_count) && Qgt_bool (fi_age_days fi) 3 then true
  else false.

(** What the sweep has done so far: the names unlinked, [cleaned_count]
    and the running [dir_size_mb]. *)
Record sweep_state := SweepState {
  sw_deleted : list pystr;
  sw_cleaned_count : nat;
  sw_dir_size_mb : Q
}.

(** Body of the loop over the sorted [files_info]; [unlink_ok] tells
    whether [os.unlink] of a name succeeds, a failure being swallowed. *)
Definition sweep_step (unlink_ok : pystr -> bool) (file_count : nat)
    (st : sweep_state) (fi : file_info) : sweep_state :=
  if should_delete file_count (sw_dir_size_mb st) fi then
    if unlink_ok (fi_filename fi)
    then SweepState (sw_deleted st ++ [fi_filename fi])
                    (S (sw_cleaned_count st))
                    (sw_dir_size_mb st
                     - inject_Z (Z.of_N (fi_size fi)) / (1024 * 1024))%Q
    else st
  else st.

(** [cleanup_old_state_files] on an existing directory: [dir_size_mb] is
    what [get_directory_size] returned, [current_time] is [time.time()],
    [listing] is what [os.listdir] yields.  When the directory is absent
    or cannot be listed the function unlinks nothing. *)
Definition cleanup_old_state_files (unlink_ok : pystr -> bool)
    (dir_size_mb current_time : Q) (listing : list dir_entry) : sweep_state :=
  let files_info := sort_by_mtime (fold_left (collect_info current_time) listing []) in
  fold_left (sweep_step unlink_ok (length files_info)) files_info
            (SweepState [] 0 dir_size_mb).

(** The age in days that the sweep computes for a modification time. *)
Definition age_days (current_time mtime : Q) : Q :=
  ((current_time - mtime) / (24 * 3600))%Q.

(** The entries of a listing that the sweep looks at. *)
Definition watched (listing : list dir_entry) : list dir_entry :=
  filter (fun en => is_state_file (de_filename en) = true /\ is_Some (de_stat en)) listing.

(** Sample directory, at time 2 000 000: a checkpoint twenty days old, one
    ten days old, one a day old, a foreign file, and a checkpoint whose
    [stat] fails. *)
Definition sample_listing : list dir_entry :=
  [ DirEntry (lit "state_aa.pkl") (Some (272000%Q, 1000%N));
    DirEntry (lit "state_bb.pkl") (Some (1136000%Q, 1000%N));
    DirEntry (lit "state_cc.pkl") (Some (1913600%Q, 1000%N));
    DirEntry (lit "notes.txt") (Some (0%Q, 1000%N));
    DirEntry (lit "state_dd.pkl") None ].

(** The name of the checkpoint of a file hash in the state directory. *)
Definition state_path (file_hash : pystr) : pystr :=
  lit "state_" ++ file_hash ++ lit ".pkl".

(** The effect of the sweep on the checkpoints: those whose file was
    unlinked are gone. *)
Definition swept_store (deleted : list pystr) (fs : store) : store :=
  filter (fun kv => state_path (fst kv) ∉ deleted) fs.

(** The jitter pause before an attempt of a batch after the first. *)
Definition jitter_before (draw : nat -> nat -> bool -> Q) (batch_num attempt : nat)
  : list pause :=
  if 1 <? batch_num
  then [Jitter (uniform (1 # 2) 2 (draw batch_num attempt true))]
  else [].

(** The pauses of a failed attempt that is not the last: the jitter, then
    the wait chosen from the error text [msg attempt]. *)
Definition failed_attempt (draw : nat -> nat -> bool -> Q) (batch_num : nat)
    (msg : nat -> pystr) (attempt : nat) : list pause :=
  jitter_before draw batch_num attempt
  ++ [Backoff (wait_time attempt (msg attempt) (draw batch_num attempt false))].

Definition is_backoff (p : pause) : bool :=
  match p with Backoff _ => true | Jitter _ => false end.

(** Sample scorer: the first attempt times out, the second succeeds. *)
Definition times_out_once (batch_num attempt : nat) (ds : list sample) : outcome nat :=
  if attempt <? 1 then Raise (lit "Request timeout") else Ok 7.

(** Sample surroundings of an evaluation: imports, key and clients in
    place, and a scorer that returns the number of records it was given. *)
Definition ready_env : eval_env nat :=
  EvalEnv nat None (Some (lit "sk-test")) None (fun data _ => Ok (length data)).

(** Sample sheet of one complete row. *)
Definition one_row_sheet : list row :=
  [ Row (Str (lit "What is C?")) (Str (lit "C is a letter.")) (Str [])
        (Str (lit "[c.txt]:" ++ [10%N] ++ lit "C is the third letter.")) ].

(** The pieces that the fallback of the extractor keeps: the parts between
    blank lines, stripped, when longer than ten characters. *)
Definition long_pieces (s : pystr) : list pystr :=
  filter (fun chunk => 10 < length chunk) (strip <$> split_nn s).

(** Sample text without chunk titles: two paragraphs, the second too
    short to keep. *)
Definition two_paragraphs : pystr :=
  lit "C is the third letter." ++ [10%N; 10%N] ++ lit "See also.".

(* ===================================================================== *)
(** * Reading the reply of a remote service ([get_answer_parallel.py],
      [get_contexts_parallel.py]) *)
(* ===================================================================== *)

(** [s.find(needle)]: the index of the first occurrence; [None] stands
    for -1. *)
Fixpoint find (needle s : pystr) : option nat :=
  if startswith needle s then Some 0
  else match s with
       | [] => None
       | _ :: s' => S <$> find needle s'
       end.

(** [s.find(needle, start)] for a [start] within the string. *)
Definition find_at (needle s : pystr) (start : nat) : option nat :=
  (fun i => start + i) <$> find needle (drop start s).

(** [s.replace(old, new)] for a non-empty [old]: the occurrences are
    found left to right and do not overlap; [skip] counts the characters
    of an occurrence still to pass over. *)
Fixpoint replace_skipping (old new : pystr) (skip : nat) (s : pystr) : pystr :=
  match s with
  | [] => []
  | c :: s' =>
      match skip with
      | S k => replace_skipping old new k s'
      | O =>
          if startswith old s
          then new ++ replace_skipping old new (length old - 1) s'
          else c :: replace_skipping old new 0 s'
      end
  end.

Definition replace (old new s : pystr) : pystr := replace_skipping old new 0 s.

(** [s.split(sep)[0]] *)
Definition before (sep s : pystr) : pystr :=
  match find sep s with
  | Some i => take i s
  | None => s
  end.

(** The marker that opens the text of a reply, the two characters that
    close it, the tag that opens the list of sources, and the text
    returned for a reply that cannot be read ("无法解析回答内容"). *)
Definition content_marker : pystr :=
  [34%N] ++ lit "content" ++ [34%N] ++ lit ":{" ++ [34%N] ++ lit "type" ++ [34%N]
  ++ lit ":" ++ [34%N] ++ lit "text" ++ [34%N] ++ lit "," ++ [34%N] ++ lit "value"
  ++ [34%N] ++ lit ":" ++ [34%N].

Definition content_close : pystr := [34; 125]%N.

Definition reference_div : pystr :=
  lit "<div id=" ++ [34%N] ++ lit "referenceSource" ++ [34%N].

Definition unparsed_answer : pystr :=
  [26080; 27861; 35299; 26512; 22238; 31572; 20869; 23481]%N.

(** The two escapes undone: backslash-quote, then backslash-n. *)
Definition unescape (s : pystr) : pystr :=
  replace [92; 110]%N [10%N] (replace [92; 34]%N [34%N] s).

(** The steps that [clean_ai_response], [query_answer] and
    [query_contexts] share: the text from the end of the first marker to
    the next closing pair, unescaped; [None] when the marker or the
    closing pair is not found. *)
Definition content_value (response_text : pystr) : option pystr :=
  if contains content_marker response_text then
    match find content_marker response_text with
    | Some i =>
        let start := i + length content_marker in
        match find_at content_close response_text start with
        | Some end_ => Some (unescape (take (end_ - start) (drop start response_text)))
        | None => None
        end
    | None => None
    end
  else None.

(** The part of an answer before the list of sources. *)
Definition main_part (answer : pystr) : pystr :=
  if contains reference_div answer
  then strip (before reference_div answer)
  else answer.

(** [clean_ai_response(response_text)] *)
Definition clean_ai_response (response_text : pystr) : pystr :=
  if negb (truthy response_text) then []
  else
    match content_value response_text with
    | Some answer => strip (main_part answer)
    | None => unparsed_answer
    end.

(** The ['ai_answer'] that [query_answer] returns with [success] true,
    from the text of the HTTP reply. *)
Definition query_answer_ai_answer (response_text : pystr) : pystr :=
  match content_value response_text with
  | Some answer => main_part answer
  | None => unparsed_answer
  end.

(** What [query_contexts] returns from the text of the HTTP reply;
    [html_to_text] stands for the conversion by the html2text library. *)
Definition query_contexts_reply (html_to_text : pystr -> pystr) (response_text : pystr)
  : pystr * bool :=
  match content_value response_text with
  | Some contexts => (html_to_text contexts, true)
  | None => ([], false)
  end.

(** Sample reply of the answer service. *)
Definition sample_reply : pystr :=
  lit "{" ++ content_marker ++ lit " C is a letter. " ++ reference_div
  ++ lit ">%5B%5D</div>" ++ content_close ++ lit "}".

(* ===================================================================== *)
(** * The two command-line fetchers ([process_file_parallel]) *)
(* ===================================================================== *)

(** The ['status'] of a processed question. *)
Inductive status :=
| Completed
| Skipped
| ApiFailed
| SaveFailed.

(** The dictionary [results] of the four counters. *)
Record tally := Tally {
  n_completed : nat;
  n_skipped : nat;
  n_api_failed : nat;
  n_save_failed : nat
}.

(** [results[result['status']] += 1] *)
Definition record_status (results : tally) (s : status) : tally :=
  match s with
  | Completed => Tally (S (n_completed results)) (n_skipped results)
                       (n_api_failed results) (n_save_failed results)
  | Skipped => Tally (n_completed results) (S (n_skipped results))
                     (n_api_failed results) (n_save_failed results)
  | ApiFailed => Tally (n_completed results) (n_skipped results)
                       (S (n_api_failed results)) (n_save_failed results)
  | SaveFailed => Tally (n_completed results) (n_skipped results)
                        (n_api_failed results) (S (n_save_failed results))
  end.

(** [sum(results.values())] *)
Definition total (results : tally) : nat :=
  n_completed results + n_skipped results + n_api_failed results + n_save_failed results.

Definition is_skipped (s : status) : bool :=
  match s with Skipped => true | _ => false end.

(** The loop of [safe_update_excel], entered at [attempt] with
    [remaining] iterations to go: whether the sheet was rewritten, and how
    many one-second sleeps were made.  [write_ok a] tells whether reading,
    updating and writing the sheet goes through in attempt [a]. *)
Fixpoint safe_update_from (write_ok : nat -> bool) (remaining attempt : nat)
  : bool * nat :=
  match remaining with
  | O => (false, 0)
  | S remaining' =>
      if write_ok attempt then (true, 0)
      else if attempt <? 3 - 1
      then
        let later := safe_update_from write_ok remaining' (S attempt) in
        (fst later, S (snd later))
      else (false, 0)
  end.

Section Fetcher.

(** The column that the script fills: ['AI回答'] or ['Contexts']. *)
Variable target : row -> cell.

(** [fetch_ok index question]: whether the remote call made for the row
    comes back with its success flag set (the call catches its own
    exceptions). *)
Variable fetch_ok : nat -> pystr -> bool.

(** [write_ok index attempt]: see [safe_update_from]. *)
Variable write_ok : nat -> nat -> bool.

(** What one task does: its status and the remote calls it made. *)
Definition single_question (index : nat) (r : row) : status * list (nat * pystr) :=
  let question := strip (str_of (col_question r)) in
  if negb (isna (target r)) && negb (pystr_eqb (strip (str_of (target r))) [])
  then (Skipped, [])
  else if fetch_ok index question
  then
    if fst (safe_update_from (write_ok index) 3 0)
    then (Completed, [(index, question)])
    else (SaveFailed, [(index, question)])
  else (ApiFailed, [(index, question)]).

(** [completion]: the order in which [as_completed] yields the results.
    The value is the final [results], nothing when the sheet holds no
    question, and the remote calls made, task by task in sheet order. *)
Definition file_parallel (completion : list status -> list status) (df : list row)
  : option tally * list (nat * pystr) :=
  let tasks := filter (fun ir => question_blank (snd ir) = false) (iterrows df) in
  match tasks with
  | [] => (None, [])
  | _ :: _ =>
      let done := map (fun ir => single_question (fst ir) (snd ir)) tasks in
      (Some (fold_left record_status (completion (map fst done)) (Tally 0 0 0 0)),
       concat (map snd done))
  end.

End Fetcher.

(** get_answer_parallel.py *)
Module GetAnswer.

Definition safe_update_excel (write_ok : nat -> bool) : bool * nat :=
  safe_update_from write_ok 3 0.

Definition process_single_question := single_question col_ai_answer.

Definition process_file_parallel := file_parallel col_ai_answer.

End GetAnswer.

(** get_contexts_parallel.py *)
Module GetContexts.

Definition safe_update_excel (write_ok : nat -> bool) : bool * nat :=
  safe_update_from write_ok 3 0.

Definition process_single_question := single_question col_contexts.

Definition process_file_parallel := file_parallel col_contexts.

End GetContexts.

(** Sample sheet for the fetchers: one row answered, one not, one blank. *)
Definition half_done_sheet : list row :=
  [ Row (Str (lit "What is A?")) (Str (lit "A is a letter.")) (Str []) (Str []);
    Row (Str (lit "What is B?")) NaN (Str []) (Str []);
    Row (Str (lit "  ")) (Str []) (Str []) (Str []) ].

(* ===================================================================== *)
(** * Names of the source documents ([parse_reference_names]) *)
(* ===================================================================== *)

(** [re.findall] for a pattern with one group. *)
Definition findall1 (r : Re.regex) (s : pystr) : list pystr :=
  map fst (Re.findall2 r s).

(** A pattern that matches a literal text. *)
Definition lits (s : pystr) : list Re.regex := map Re.Lit s.

(** [[^%22]]: any character but the percent sign and the digit 2. *)
Definition not_percent_2 (c : N) : bool := negb ((c =? 37) || (c =? 50))%N.

(** [r'docFileName%22%3A%22([^%22]+\.doc)%22'] and the same for [.xlsx] *)
Definition encoded_name (extension : pystr) : Re.regex :=
  cat (lits (lit "docFileName%22%3A%22")
       ++ [Re.Grp 1 (cat ([Re.Plus true (Re.Cls not_percent_2); Re.Lit 46]
                          ++ lits extension))]
       ++ lits (lit "%22")).

(** The second pattern: the key [docFileName] between double quotes, a
    colon, and between double quotes the group [[^Q]+\.doc], where Q is
    the double quote. *)
Definition plain_name : Re.regex :=
  cat ([Re.Lit 34] ++ lits (lit "docFileName") ++ [Re.Lit 34; Re.Lit 58; Re.Lit 34]
       ++ [Re.Grp 1 (cat ([Re.Plus true (Re.Cls (Re.except 34)); Re.Lit 46]
                          ++ lits (lit "doc")))]
       ++ [Re.Lit 34]).

(** [if name not in reference_files: reference_files.append(name)] *)
Definition add_unique (reference_files : list pystr) (name : pystr) : list pystr :=
  if bool_decide (name ∈ reference_files) then reference_files
  else reference_files ++ [name].

(** [parse_reference_names(response_text)]; [unquote] stands for
    [urllib.parse.unquote]. *)
Definition parse_reference_names (unquote : pystr -> pystr) (response_text : pystr)
  : list pystr :=
  if negb (truthy response_text) then []
  else
    let reference_files :=
      if contains (lit "docFileName") response_text
      then fold_left (fun acc file_match => add_unique acc (unquote file_match))
                     (findall1 (encoded_name (lit "doc")) response_text) []
      else [] in
    let reference_files :=
      fold_left add_unique (findall1 plain_name response_text) reference_files in
    fold_left (fun acc file_match => add_unique acc (unquote file_match))
              (findall1 (encoded_name (lit "xlsx")) response_text) reference_files.

(** Sample reply naming the same document twice. *)
Definition twice_named : pystr :=
  [34%N] ++ lit "docFileName" ++ [34; 58; 34]%N ++ lit "handbook.doc" ++ [34%N]
  ++ lit "," ++ [34%N] ++ lit "docFileName" ++ [34; 58; 34]%N ++ lit "handbook.doc"
  ++ [34%N].

(** Sample loop of twelve answer tasks on a sheet of twelve questions. *)
Definition twelve_tasks : list (nat * pystr) :=
  map (fun i => (i, lit "What is it?")) (seq 0 12).

Definition twelve_rows : work :=
  Work (replicate 12 (Row (Str (lit "What is it?")) (Str []) (Str []) (Str []))) ∅ ∅.

(** The warning that [evaluate_dataset] shows when some records fail its
    validation. *)
Definition invalid_warning {Result : Type} (evaluation_data : list sample)
  : list (event Result) :=
  let valid_samples := filter (fun item => sample_valid item = true) evaluation_data in
  let invalid_count := length evaluation_data - length valid_samples in
  if 0 <? invalid_count
  then [UiWarning (InvalidSamples invalid_count (length valid_samples))]
  else [].

(** The exception, if any, that the set-up at the head of the [try] block
    of [evaluate_dataset] ends in: imports, API key, clients. *)
Definition setup_failure {Result : Type} (e : eval_env Result) : option pystr :=
  match import_failure e with
  | Some msg => Some msg
  | None =>
      match api_key e with
      | Some (_ :: _) => client_failure e
      | _ => Some (lit "DASHSCOPE_API_KEY is not set")
      end
  end.

(** The messages that reject the input itself. *)
Definition validation_error (m : ui_msg) : Prop :=
  match m with
  | SelectAMetric | NoDataToEvaluate | NoValidSamples | NoEvaluableData => True
  | InvalidSamples _ _ | EvaluationFailed _ => False
  end.

(** Sample surroundings in which the model clients cannot be built. *)
Definition broken_env : eval_env nat :=
  EvalEnv nat None (Some (lit "sk-test")) (Some (lit "Connection error"))
          (fun data _ => Ok (length data)).

(* ===================================================================== *)
(** * Facts about the matcher *)
(* ===================================================================== *)

Section MatcherFacts.

Import Re.

(** The equations of the matcher, fuel and pattern in one view. *)
Lemma exec_unfold f r st k :
  exec f r st k =
    match r with
    | Eps => k st
    | Lit c =>
        match rest st with
        | x :: xs => if (x =? c)%N then k (advance st xs) else None
        | [] => None
        end
    | Cls p =>
        match rest st with
        | x :: xs => if p x then k (advance st xs) else None
        | [] => None
        end
    | Cat r1 r2 => exec f r1 st (fun st' => exec f r2 st' k)
    | Alt r1 r2 => orelse (exec f r1 st k) (exec f r2 st k)
    | Star g r1 =>
        let more :=
          match f with
          | O => None
          | S f' =>
              exec f r1 st (fun st' =>
                if pos st <? pos st' then exec f' (Star g r1) st' k else None)
          end in
        if g then orelse more (k st) else orelse (k st) more
    | Grp n r1 => exec f r1 st (fun st' => k (capture n st st'))
    | Look r1 =>
        match exec f r1 st Some with
        | Some _ => k st
        | None => None
        end
    | Bol => if Nat.eqb (pos st) 0 then k st else None
    | Eol =>
        match rest st with
        | [] => k st
        | [10%N] => k st
        | _ => None
        end
    end.
Proof. destruct f, r; reflexivity. Qed.

(** With more fuel than characters left, the amount of fuel does not
    matter: the matcher never runs out of it. *)
Lemma exec_fuel (n : nat) f1 :
  forall f2 r st k1 k2,
    wf n st -> length (rest st) < f1 -> length (rest st) < f2 ->
    (forall st', wf n st' -> pos st <= pos st' -> k1 st' = k2 st') ->
    exec f1 r st k1 = exec f2 r st k2.
Proof.
  induction f1 as [|f1 IH]; intros f2 r st k1 k2 Hwf H1 H2 Hk; [lia|].
  destruct f2 as [|f2]; [lia|].
  revert st k1 k2 Hwf H1 H2 Hk.
  induction r as [|c|p|r1 IH1 r2 IH2|r1 IH1 r2 IH2|g r1 IH1|m r1 IH1|r1 IH1| |];
    intros st k1 k2 Hwf H1 H2 Hk;
    rewrite (exec_unfold (S f1)), (exec_unfold (S f2)).
  - apply Hk; [done|lia].
  - destruct (rest st) as [|x xs] eqn:Hr; [done|].
    destruct (x =? c)%N; [|done]. apply Hk.
    + unfold wf in *. simpl. rewrite Hr in Hwf. simpl in Hwf. lia.
    + simpl. lia.
  - destruct (rest st) as [|x xs] eqn:Hr; [done|].
    destruct (p x); [|done]. apply Hk.
    + unfold wf in *. simpl. rewrite Hr in Hwf. simpl in Hwf. lia.
    + simpl. lia.
  - apply IH1; [done|done|done|]. intros st' Hwf' Hle.
    apply IH2; [done| | |].
    + unfold wf in *. lia.
    + unfold wf in *. lia.
    + intros st'' Hwf'' Hle'. apply Hk; [done|lia].
  - rewrite (IH1 st k1 k2), (IH2 st k1 k2); done.
  - cbv zeta.
    assert (exec (S f1) r1 st
              (fun st' => if pos st <? pos st' then exec f1 (Star g r1) st' k1 else None)
            = exec (S f2) r1 st
                (fun st' => if pos st <? pos st' then exec f2 (Star g r1) st' k2 else None))
      as ->.
    { apply IH1; [done|done|done|]. intros st' Hwf' Hle.
      destruct (pos st <? pos st') eqn:Hlt; [|done].
      apply Nat.ltb_lt in Hlt. apply IH; [done| | |].
      - unfold wf in *. lia.
      - unfold wf in *. lia.
      - intros st'' Hwf'' Hle'. apply Hk; [done|lia]. }
    rewrite (Hk st); [done|done|lia].
  - apply IH1; [done|done|done|]. intros st' Hwf' Hle. apply Hk.
    + unfold wf in *. simpl. lia.
    + simpl. lia.
  - rewrite (IH1 st Some Some); [|done|done|done|done].
    rewrite (Hk st); [done|done|lia].
  - rewrite (Hk st); [done|done|lia].
  - rewrite (Hk st); [done|done|lia].
Qed.

(** A match ends in a state of the same run, not before its start. *)
Lemma exec_inv (n : nat) f :
  forall r st k m,
    wf n st -> exec f r st k = Some m ->
    exists st', wf n st' /\ pos st <= pos st' /\ k st' = Some m.
Proof.
  induction f as [f IH] using (well_founded_induction lt_wf).
  induction r as [|c|p|r1 IH1 r2 IH2|r1 IH1 r2 IH2|g r1 IH1|j r1 IH1|r1 IH1| |];
    intros st k m Hwf; rewrite exec_unfold; intros Hm.
  - by exists st.
  - destruct (rest st) as [|x xs] eqn:Hr; [done|].
    destruct (x =? c)%N; [|done]. exists (advance st xs).
    unfold wf in *. simpl. rewrite Hr in Hwf. simpl in Hwf. split; [lia|]. split; [lia|done].
  - destruct (rest st) as [|x xs] eqn:Hr; [done|].
    destruct (p x); [|done]. exists (advance st xs).
    unfold wf in *. simpl. rewrite Hr in Hwf. simpl in Hwf. split; [lia|]. split; [lia|done].
  - apply IH1 in Hm as (st1 & Hwf1 & Hle1 & Hm); [|done].
    apply IH2 in Hm as (st2 & Hwf2 & Hle2 & Hm); [|done].
    exists st2. split; [done|]. split; [lia|done].
  - destruct (exec f r1 st k) eqn:H1; simpl in Hm.
    + injection Hm as ->. by apply IH1 in H1.
    + by apply IH2 in Hm.
  - cbv zeta in Hm.
    assert (k st = Some m \/
            match f with
            | 0 => None
            | S f' =>
                exec f r1 st
                  (fun st' => if pos st <? pos st' then exec f' (Star g r1) st' k else None)
            end = Some m) as [Hk|Hmore].
    { destruct g; simpl in Hm.
      - destruct (match f with 0 => None | S _ => _ end) eqn:E; simpl in Hm; [by right|by left].
      - destruct (k st) eqn:E; simpl in Hm; [by left|by right]. }
    + by exists st.
    + destruct f as [|f']; [done|].
      apply IH1 in Hmore as (st1 & Hwf1 & Hle1 & Hmore); [|done].
      destruct (pos st <? pos st1) eqn:Hlt; [|done].
      apply Nat.ltb_lt in Hlt.
      apply (IH f') in Hmore as (st2 & Hwf2 & Hle2 & Hmore); [|lia|done].
      exists st2. split; [done|]. split; [lia|done].
  - apply IH1 in Hm as (st1 & Hwf1 & Hle1 & Hm); [|done].
    exists (capture j st st1). unfold wf in *. simpl. split; [lia|]. split; [lia|done].
  - destruct (exec f r1 st Some); [|done]. by exists st.
  - destruct (Nat.eqb (pos st) 0); [|done]. by exists st.
  - exists st. split; [done|]. split; [lia|].
    repeat case_match; done.
Qed.

Lemma match_here_inv r p s m :
  match_here r p s = Some m ->
  pos m + length (rest m) = p + length s /\ p <= pos m.
Proof.
  unfold match_here. intros Hm.
  apply (exec_inv (p + length s)) in Hm as (st' & Hwf & Hle & Hm); [|done].
  injection Hm as <-. done.
Qed.

Lemma findall2_from_fuel r f1 :
  forall f2 p s, length s < f1 -> length s < f2 ->
  findall2_from f1 r p s = findall2_from f2 r p s.
Proof.
  induction f1 as [|f1 IH]; intros f2 p s H1 H2; [lia|].
  destruct f2 as [|f2]; [lia|]. simpl.
  destruct (match_here r p s) as [m|] eqn:Hm.
  - apply match_here_inv in Hm as [Hlen Hle].
    destruct (p <? pos m) eqn:Hlt.
    + apply Nat.ltb_lt in Hlt. f_equal. apply IH; lia.
    + f_equal. destruct s as [|c s']; [done|]. apply IH; simpl in *; lia.
  - destruct s as [|c s']; [done|]. apply IH; simpl in *; lia.
Qed.

Lemma sub_from_fuel r repl f1 :
  forall f2 p s, length s < f1 -> length s < f2 ->
  sub_from f1 r repl p s = sub_from f2 r repl p s.
Proof.
  induction f1 as [|f1 IH]; intros f2 p s H1 H2; [lia|].
  destruct f2 as [|f2]; [lia|]. simpl.
  destruct (match_here r p s) as [m|] eqn:Hm.
  - apply match_here_inv in Hm as [Hlen Hle].
    destruct (p <? pos m) eqn:Hlt.
    + apply Nat.ltb_lt in Hlt. f_equal. apply IH; lia.
    + f_equal. destruct s as [|c s']; [done|]. f_equal. apply IH; simpl in *; lia.
  - destruct s as [|c s']; [done|]. f_equal. apply IH; simpl in *; lia.
Qed.

Lemma match_here_fuel r p s f :
  length s < f -> exec f r (MState p s []) Some = match_here r p s.
Proof.
  intros Hf. unfold match_here.
  apply (exec_fuel (p + length s)); [done|done|simpl; lia|done].
Qed.

Lemma findall2_fuel r s f :
  length s < f -> findall2_from f r 0 s = findall2 r s.
Proof. intros Hf. apply findall2_from_fuel; [done|lia]. Qed.

Lemma sub_fuel r repl s f :
  length s < f -> sub_from f r repl 0 s = sub r repl s.
Proof. intros Hf. apply sub_from_fuel; [done|lia]. Qed.

End MatcherFacts.

(* ===================================================================== *)
(** * Facts about stripping *)
(* ===================================================================== *)

Section StripFacts.

Implicit Types (s t : pystr) (c : N).

Lemma lstrip_snoc_keeps s c :
  isspace c = false -> exists s', lstrip (s ++ [c]) = s' ++ [c].
Proof.
  intros Hc. induction s as [|x s IH]; simpl.
  - rewrite Hc. by exists [].
  - destruct (isspace x); [exact IH|]. by exists (x :: s).
Qed.

Lemma lstrip_head s c t : lstrip s = c :: t -> isspace c = false.
Proof.
  induction s as [|x s IH]; simpl; [done|].
  destruct (isspace x) eqn:Hx; [exact IH|].
  intros [= <- _]. exact Hx.
Qed.

Lemma rstrip_cons_keeps s c :
  isspace c = false -> exists t, rstrip (c :: s) = c :: t.
Proof.
  intros Hc. unfold rstrip. simpl.
  destruct (lstrip_snoc_keeps (rev s) c Hc) as [s' ->].
  rewrite rev_app_distr. simpl. by eexists.
Qed.

(** A stripped string is empty or begins with a character that is not
    white space. *)
Lemma strip_cases s :
  strip s = [] \/ exists c t, strip s = c :: t /\ isspace c = false.
Proof.
  unfold strip. destruct (lstrip s) as [|c u] eqn:Hl.
  - by left.
  - right. pose proof (lstrip_head _ _ _ Hl) as Hc.
    destruct (rstrip_cons_keeps u c Hc) as [t ->]. by exists c, t.
Qed.

(** A string that begins with such a character is not blank. *)
Lemma strip_of_cons c s : isspace c = false -> truthy (strip (c :: s)) = true.
Proof.
  intros Hc. unfold strip. simpl. rewrite Hc.
  by destruct (rstrip_cons_keeps s c Hc) as [t ->].
Qed.

End StripFacts.

(* ===================================================================== *)
(** * Facts about the extractor *)
(* ===================================================================== *)

Section ExtractFacts.

Variable isalnum : N -> bool.

(** Where no white space starts, [re.sub(r'\s+', ' ', s)] copies the
    character. *)
Lemma collapse_head c s :
  isspace c = false ->
  exists t, Re.sub ws_run [32%N] (c :: s) = c :: t.
Proof.
  intros Hc. unfold Re.sub. simpl length.
  cbn [Re.sub_from]. unfold Re.match_here, ws_run, Re.Plus.
  simpl. rewrite Hc. by eexists.
Qed.

Lemma collapse_nil : Re.sub ws_run [32%N] [] = [].
Proof. reflexivity. Qed.

(** A cleaned match that is kept is not blank. *)
Lemma cleaned_not_blank content :
  truthy (Re.sub ws_run [32%N] (strip content)) = true ->
  truthy (strip (Re.sub ws_run [32%N] (strip content))) = true.
Proof.
  destruct (strip_cases content) as [->|(c & t & -> & Hc)].
  - by rewrite collapse_nil.
  - intros _. destruct (collapse_head c t Hc) as [u ->].
    by apply strip_of_cons.
Qed.

Lemma add_match_not_blank contexts m :
  Forall not_blank contexts -> Forall not_blank (add_match contexts m).
Proof.
  intros H. unfold add_match.
  destruct (truthy _) eqn:Ht; [|done].
  apply Forall_app. split; [done|].
  constructor; [|done]. by apply cleaned_not_blank.
Qed.

Lemma fold_add_match_not_blank matches contexts :
  Forall not_blank contexts ->
  Forall not_blank (fold_left add_match matches contexts).
Proof.
  revert contexts. induction matches as [|m ms IH]; intros contexts H; simpl.
  - done.
  - apply IH. by apply add_match_not_blank.
Qed.

Lemma no_reference_not_blank : not_blank no_reference.
Proof. reflexivity. Qed.

Lemma unclear_reference_not_blank : not_blank unclear_reference.
Proof. reflexivity. Qed.

Lemma extract_not_nil contexts_text :
  extract_contexts_from_contexts_column isalnum contexts_text <> [].
Proof.
  unfold extract_contexts_from_contexts_column.
  destruct (isna contexts_text || negb (cell_truthy contexts_text)); [done|].
  cbv zeta.
  destruct (Re.findall2 _ _).
  - by destruct (fold_left add_chunk _ _).
  - by destruct (fold_left add_match _ _).
Qed.

Lemma extract_missing contexts_text :
  isna contexts_text = true \/ contexts_text = Str [] ->
  extract_contexts_from_contexts_column isalnum contexts_text = [no_reference].
Proof.
  unfold extract_contexts_from_contexts_column.
  intros [H| ->]; [by rewrite H|done].
Qed.

Lemma extract_matched_not_blank s :
  Re.findall2 (chunk_pattern isalnum) (strip s) <> [] ->
  Forall not_blank (extract_contexts_from_contexts_column isalnum (Str s)).
Proof.
  intros Hm. unfold extract_contexts_from_contexts_column.
  destruct (isna (Str s) || negb (cell_truthy (Str s))).
  { constructor; [apply no_reference_not_blank|done]. }
  cbv zeta. simpl str_of.
  destruct (Re.findall2 _ _) as [|m ms] eqn:Hf; [done|].
  pose proof (fold_add_match_not_blank (m :: ms) [] (Forall_nil_2 _)) as HF.
  destruct (fold_left add_match (m :: ms) []) eqn:Hfold.
  - constructor; [apply unclear_reference_not_blank|done].
  - exact HF.
Qed.

End ExtractFacts.

(* ===================================================================== *)
(** * Passage extraction and the skip branch of the filter *)
(* ===================================================================== *)

(** C10, at the failing input: the context blob "[aaaaaaaaaa]:" is not
    blank, yet it decodes to the single empty passage, so the list holds no
    non-blank passage, and the filter skips the record through its
    "no non-blank passage" branch.  (The fallback loop tests the length of
    a chunk before it removes the bracketed title, and appends what is
    left without the emptiness test that the loop over the regex matches
    makes.) *)
Lemma extract_title_only_has_no_passage :
  strip title_only_blob <> []
  /\ extract_contexts_from_contexts_column ascii_isalnum (Str title_only_blob) = [[]]
  /\ ~ (exists p, p ∈ extract_contexts_from_contexts_column ascii_isalnum (Str title_only_blob)
                  /\ not_blank p)
  /\ align_row ascii_isalnum
       (row_of (Str (lit "q")) (Str (lit "a")) (Str title_only_blob)) = None.
Proof.
  split; [by vm_compute|]. split; [by vm_compute|]. split; [|by vm_compute].
  intros (p & Hp & Hnb).
  assert (extract_contexts_from_contexts_column ascii_isalnum (Str title_only_blob)
          = [[]]) as E by (by vm_compute).
  rewrite E in Hp. apply list_elem_of_singleton in Hp. subst p. by vm_compute in Hnb.
Qed.

(** What does hold of the extractor: for every input it returns a
    non-empty list; a missing or empty input gives the placeholder
    [no_reference]; when the chunk-title pattern matches, every returned
    passage is non-blank; placeholder text passes the filter as a context
    (the blob "short" aligns with the placeholder [unclear_reference] as
    its only context). *)
Lemma extract_contexts_shape (isalnum : N -> bool) :
  (forall contexts_text,
      extract_contexts_from_contexts_column isalnum contexts_text <> [])
  /\ (forall contexts_text,
      isna contexts_text = true \/ contexts_text = Str [] ->
      extract_contexts_from_contexts_column isalnum contexts_text = [no_reference])
  /\ (forall s,
      Re.findall2 (chunk_pattern isalnum) (strip s) <> [] ->
      Forall not_blank (extract_contexts_from_contexts_column isalnum (Str s)))
  /\ align_row isalnum (row_of (Str (lit "q")) (Str (lit "a")) (Str (lit "short")))
     = Some (Sample (lit "q") (lit "a") [unclear_reference] (lit "a")).
Proof.
  split; [apply extract_not_nil|].
  split; [apply extract_missing|].
  split; [apply extract_matched_not_blank|].
  by vm_compute.
Qed.

Lemma extract_contexts_shape_example :
  extract_contexts_from_contexts_column ascii_isalnum (Str []) = [no_reference]
  /\ Forall not_blank
       (extract_contexts_from_contexts_column ascii_isalnum
          (Str (lit "[abc.txt]:" ++ [10%N] ++ lit "C is the third letter."))).
Proof.
  destruct (extract_contexts_shape ascii_isalnum) as (_ & Hmiss & Hmatch & _).
  split.
  - apply Hmiss. by right.
  - apply Hmatch. by vm_compute.
Qed.

(* ===================================================================== *)
(** * The alignment filter *)
(* ===================================================================== *)

Section AlignFacts.

Variable isalnum : N -> bool.

Lemma truthy_false (s : pystr) : truthy s = false <-> s = [].
Proof. by destruct s. Qed.

Lemma pystr_eqb_true (a b : pystr) : pystr_eqb a b = true <-> a = b.
Proof. unfold pystr_eqb. by rewrite bool_decide_eq_true. Qed.

Lemma pystr_eqb_false (a b : pystr) : pystr_eqb a b = false <-> a <> b.
Proof. unfold pystr_eqb. by rewrite bool_decide_eq_false. Qed.

Lemma question_blank_spec (r : row) :
  question_blank r = true <-> spec_blank (col_question r).
Proof.
  unfold question_blank, spec_blank.
  by rewrite orb_true_iff, pystr_eqb_true.
Qed.

Lemma missing_reads_unset (c : cell) : isna c = true -> spec_unset c.
Proof. destruct c; [reflexivity|discriminate]. Qed.

(** The decision of the loop body, field by field. *)
Lemma align_row_None (r : row) :
  align_row isalnum r = None <-> code_skips isalnum r.
Proof.
  unfold align_row, code_skips, decodes_to_nothing, spec_blank, spec_unset.
  destruct (question_blank r) eqn:Hq.
  { split; [|done]. intros _. left. by apply question_blank_spec. }
  assert (~ spec_blank (col_question r)) as Hq'.
  { rewrite <- question_blank_spec. by rewrite Hq. }
  unfold spec_blank in Hq'.
  destruct (truthy (strip (str_of (col_ai_answer r)))) eqn:Ha; simpl;
    [|apply truthy_false in Ha; tauto].
  destruct (truthy (strip (str_of (col_contexts r)))) eqn:Hc; simpl;
    [|apply truthy_false in Hc; tauto].
  destruct (pystr_eqb (strip (str_of (col_ai_answer r))) nan_str) eqn:Han; simpl;
    [apply pystr_eqb_true in Han; tauto|].
  destruct (pystr_eqb (strip (str_of (col_contexts r))) nan_str) eqn:Hcn; simpl;
    [apply pystr_eqb_true in Hcn; tauto|].
  apply pystr_eqb_false in Han, Hcn.
  assert (strip (str_of (col_ai_answer r)) <> []) as Ha' by (by intros E; rewrite E in Ha).
  assert (strip (str_of (col_contexts r)) <> []) as Hc' by (by intros E; rewrite E in Hc).
  assert (isna (col_ai_answer r) = true -> False) as Hna.
  { intros H. by apply missing_reads_unset in H. }
  assert (isna (col_contexts r) = true -> False) as Hnc.
  { intros H. by apply missing_reads_unset in H. }
  destruct (has_passage _) eqn:Hp.
  - split; [done|]. intros H. exfalso. intuition congruence.
  - split; [|done]. intros _. right. right. right. by right.
Qed.

Lemma align_row_Some (r : row) (s : sample) :
  align_row isalnum r = Some s ->
  ground_truth s = answer s
  /\ answer s = strip (str_of (col_ai_answer r))
  /\ question s = strip (str_of (col_question r))
  /\ contexts s =
     extract_contexts_from_contexts_column isalnum (Str (strip (str_of (col_contexts r)))).
Proof.
  unfold align_row.
  destruct (question_blank r); [done|].
  destruct (_ && _); [|done].
  destruct (has_passage _); [|done].
  by intros [= <-].
Qed.

(** The loop keeps appending: its result is the accumulator followed by
    the rows that align, in their order, and the count grows by the
    number of rows that do not. *)
Lemma align_loop (df : list row) (acc : list sample * nat) :
  fold_left (align_step isalnum) df acc
  = (fst acc ++ omap (align_row isalnum) df,
     snd acc + length (filter (fun r => align_row isalnum r = None) df)).
Proof.
  revert acc. induction df as [|r df IH]; intros [done skipped]; simpl.
  - by rewrite app_nil_r, Nat.add_0_r.
  - rewrite IH. unfold align_step. rewrite filter_cons.
    destruct (align_row isalnum r) as [s|] eqn:Hr; simpl.
    + by rewrite <- app_assoc.
    + f_equal. lia.
Qed.

Lemma omap_filter_length (df : list row) :
  length (omap (align_row isalnum) df)
  + length (filter (fun r => align_row isalnum r = None) df) = length df.
Proof.
  induction df as [|r df IH]; [done|].
  rewrite filter_cons.
  assert (omap (align_row isalnum) (r :: df)
          = match align_row isalnum r with
            | Some y => y :: omap (align_row isalnum) df
            | None => omap (align_row isalnum) df
            end) as -> by reflexivity.
  destruct (align_row isalnum r) eqn:Hr.
  - rewrite decide_False by done. cbn [length]. lia.
  - rewrite decide_True by done. cbn [length]. lia.
Qed.

End AlignFacts.

(** C5, as stated, fails: a row whose context cell holds the text "nan"
    has a question, an answer, a context that is not blank and that
    decodes to a non-blank passage, and the filter skips it all the same. *)
Lemma align_skips_context_sentinel :
  ~ (forall r, align_row ascii_isalnum r = None <-> spec_skips ascii_isalnum r).
Proof.
  intros H.
  pose (r := row_of (Str (lit "q")) (Str (lit "a")) (Str (lit "nan"))).
  assert (align_row ascii_isalnum r = None) as Hskip by (by vm_compute).
  apply H in Hskip. clear H.
  destruct Hskip as [[Hq|Hq]|[[[Ha|Ha]|Ha]|[[Hc|Hc]|Hc]]].
  - by vm_compute in Hq.
  - by vm_compute in Hq.
  - by vm_compute in Ha.
  - by vm_compute in Ha.
  - by vm_compute in Ha.
  - by vm_compute in Hc.
  - by vm_compute in Hc.
  - by vm_compute in Hc.
Qed.

(** C5, amended: the filter skips a record iff its question is blank, or
    its answer is blank or the unset sentinel, or its context is blank or
    the unset sentinel or decodes to zero non-blank passages; every
    emitted record has [ground_truth] equal to its answer; the output is
    the aligned rows in input order; the kept and the skipped counts are
    separate and add up to the number of rows; and on three rows, one
    without answer, one without context and one complete, exactly one
    record is kept and two are skipped. *)
Theorem align_data_for_evaluation_correct :
  (forall (isalnum : N -> bool),
      (forall r, align_row isalnum r = None <-> code_skips isalnum r)
      /\ (forall r s, align_row isalnum r = Some s -> ground_truth s = answer s)
      /\ (forall df,
          fst (align_data_for_evaluation isalnum df) = omap (align_row isalnum) df
          /\ snd (align_data_for_evaluation isalnum df)
             = length (filter (fun r => align_row isalnum r = None) df)
          /\ length (fst (align_data_for_evaluation isalnum df))
             + snd (align_data_for_evaluation isalnum df) = length df))
  /\ align_data_for_evaluation ascii_isalnum three_rows
     = ([Sample (lit "What is C?") (lit "C is a letter.")
                [lit "C is the third letter."] (lit "C is a letter.")], 2).
Proof.
  split; [|by vm_compute].
  intros isalnum. split; [apply align_row_None|].
  split; [intros r s H; by apply align_row_Some in H as [? _]|].
  intros df. unfold align_data_for_evaluation. rewrite align_loop. simpl.
  repeat split. apply omap_filter_length.
Qed.

Lemma align_data_for_evaluation_correct_witness :
  code_skips ascii_isalnum (row_of (Str (lit "q")) (Str (lit "a")) (Str (lit "nan")))
  /\ ground_truth (Sample (lit "q") (lit "a") [lit "a passage of text"] (lit "a"))
     = lit "a".
Proof.
  destruct align_data_for_evaluation_correct as [H _].
  destruct (H ascii_isalnum) as (Hskip & Hgt & _).
  split.
  - apply Hskip. by vm_compute.
  - apply (Hgt (row_of (Str (lit "q")) (Str (lit "a")) (Str (lit "a passage of text")))).
    by vm_compute.
Defined.

(* ===================================================================== *)
(** * The checkpoint store *)
(* ===================================================================== *)

Section StoreFacts.

Implicit Types (fs : store) (h : pystr).

Lemma load_absent fs h :
  fs !! h = None -> load_processing_state fs h = Ok None.
Proof. intros H. unfold load_processing_state, load_body. by rewrite H. Qed.

Lemma load_unreadable fs h :
  fs !! h = Some Unreadable -> load_processing_state fs h = Ok None.
Proof. intros H. unfold load_processing_state, load_body. by rewrite H. Qed.

Lemma load_pickled fs h sd :
  fs !! h = Some (Pickled sd) -> load_processing_state fs h = Ok (Some sd).
Proof. intros H. unfold load_processing_state, load_body. by rewrite H. Qed.

Lemma load_never_raises fs h :
  exists r, load_processing_state fs h = Ok r.
Proof.
  unfold load_processing_state. destruct (load_body fs h); by eexists.
Qed.

(** A save that reports success has written the pickle of what it was
    given, whatever the clean-up did before. *)
Lemma save_true_written sweep now fault fs h df (ap cp : gset nat) :
  snd (save_processing_state sweep now fault fs h df ap cp) = true ->
  fst (save_processing_state sweep now fault fs h df ap cp) !! h
  = Some (Pickled (StateData h df (elements ap) (elements cp) now)).
Proof.
  unfold save_processing_state.
  destruct fault; simpl; try discriminate.
  intros _. apply lookup_insert_eq.
Qed.

End StoreFacts.

(** C8: loading never raises; it returns nothing when the directory has
    no file for the hash or when the file cannot be unpickled; it returns
    the pickled state otherwise, and in particular the state written by
    the last save that reported success. *)
Theorem load_processing_state_fails_soft (fs : store) (file_hash : pystr) :
  (exists r, load_processing_state fs file_hash = Ok r)
  /\ (fs !! file_hash = None -> load_processing_state fs file_hash = Ok None)
  /\ (fs !! file_hash = Some Unreadable -> load_processing_state fs file_hash = Ok None)
  /\ (forall sd, fs !! file_hash = Some (Pickled sd) ->
                 load_processing_state fs file_hash = Ok (Some sd))
  /\ (forall sweep now fault df (ap cp : gset nat),
         snd (save_processing_state sweep now fault fs file_hash df ap cp) = true ->
         load_processing_state
           (fst (save_processing_state sweep now fault fs file_hash df ap cp)) file_hash
         = Ok (Some (StateData file_hash df (elements ap) (elements cp) now))).
Proof.
  split; [apply load_never_raises|].
  split; [apply load_absent|].
  split; [apply load_unreadable|].
  split; [intros sd; apply load_pickled|].
  intros sweep now fault df ap cp Hok.
  apply load_pickled. by apply save_true_written.
Qed.

Lemma load_processing_state_fails_soft_witness :
  load_processing_state (∅ : store) (lit "0f") = Ok None
  /\ load_processing_state ({[ lit "0f" := Unreadable ]} : store) (lit "0f") = Ok None
  /\ load_processing_state
       (fst (save_processing_state id (lit "2025-01-01T00:00:00") NoFault
               ({[ lit "0f" := Unreadable ]} : store) (lit "0f") three_rows {[0]} ∅))
       (lit "0f")
     = Ok (Some (StateData (lit "0f") three_rows (elements ({[0]} : gset nat))
                           (elements (∅ : gset nat)) (lit "2025-01-01T00:00:00"))).
Proof.
  destruct (load_processing_state_fails_soft ∅ (lit "0f")) as (_ & Habsent & _).
  destruct (load_processing_state_fails_soft {[ lit "0f" := Unreadable ]} (lit "0f"))
    as (_ & _ & Hunreadable & _ & Hsaved).
  split; [apply Habsent; reflexivity|].
  split; [apply Hunreadable; reflexivity|].
  apply Hsaved. reflexivity.
Defined.

(** C9: after a save that reports success, a load on the same hash
    returns a state whose two progress lists hold exactly the indices of
    the sets that were saved (hence supersets of them), next to the rows
    that were saved. *)
Theorem save_then_load_progress (sweep : store -> store) (now : pystr)
    (fault : io_fault) (fs : store) (file_hash : pystr) (df : list row)
    (answer_progress context_progress : gset nat) :
  snd (save_processing_state sweep now fault fs file_hash df
         answer_progress context_progress) = true ->
  exists st,
    load_processing_state
      (fst (save_processing_state sweep now fault fs file_hash df
              answer_progress context_progress)) file_hash = Ok (Some st)
    /\ list_to_set (sd_answer_progress st) = answer_progress
    /\ list_to_set (sd_context_progress st) = context_progress
    /\ answer_progress ⊆ list_to_set (sd_answer_progress st)
    /\ context_progress ⊆ list_to_set (sd_context_progress st)
    /\ sd_df st = df.
Proof.
  intros Hok.
  exists (StateData file_hash df (elements answer_progress)
                    (elements context_progress) now).
  split.
  { apply load_pickled. by apply save_true_written. }
  simpl. rewrite !list_to_set_elements_L. done.
Qed.

Lemma save_then_load_progress_witness :
  exists st,
    load_processing_state
      (fst (save_processing_state id (lit "2025-01-01T00:00:00") NoFault
              (∅ : store) (lit "0f") three_rows {[0; 2]} {[1]})) (lit "0f")
    = Ok (Some st)
    /\ list_to_set (sd_answer_progress st) = ({[0; 2]} : gset nat)
    /\ list_to_set (sd_context_progress st) = ({[1]} : gset nat)
    /\ ({[0; 2]} : gset nat) ⊆ list_to_set (sd_answer_progress st)
    /\ ({[1]} : gset nat) ⊆ list_to_set (sd_context_progress st)
    /\ sd_df st = three_rows.
Proof.
  apply (save_then_load_progress id (lit "2025-01-01T00:00:00") NoFault ∅ (lit "0f")
           three_rows {[0; 2]} {[1]}).
  reflexivity.
Defined.

(* ===================================================================== *)
(** * Merging a checkpoint into the uploaded rows *)
(* ===================================================================== *)

Section MergeFacts.

Implicit Types (w : work) (df rows : list row).

(** One step of the merge loop rewrites the row at its index; the guard
    on the index only spares an update that would change nothing. *)
Lemma merge_row_df w idx saved :
  w_df (merge_row w (idx, saved)) = alter (merge_one saved) idx (w_df w).
Proof.
  apply list_eq. intros i.
  unfold merge_row, merge_one. simpl.
  destruct (idx <? length (w_df w)) eqn:Hlt.
  - destruct (filled (col_ai_answer saved)), (filled (col_contexts saved)); simpl;
      destruct (decide (idx = i)) as [->|Hne];
      rewrite ?list_lookup_alter_eq, ?list_lookup_alter_ne by done;
      try done; by destruct (w_df w !! i).
  - apply Nat.ltb_ge in Hlt.
    destruct (decide (idx = i)) as [->|Hne].
    + rewrite list_lookup_alter_eq. by rewrite (lookup_ge_None_2 _ _ Hlt).
    + by rewrite list_lookup_alter_ne.
Qed.

Lemma merge_row_answer_progress w ir :
  w_answer_progress w ⊆ w_answer_progress (merge_row w ir).
Proof.
  unfold merge_row.
  destruct (_ <? _); [|done].
  destruct (filled (col_ai_answer _)), (filled (col_contexts _)); simpl; set_solver.
Qed.

Lemma merge_row_context_progress w ir :
  w_context_progress w ⊆ w_context_progress (merge_row w ir).
Proof.
  unfold merge_row.
  destruct (_ <? _); [|done].
  destruct (filled (col_ai_answer _)), (filled (col_contexts _)); simpl; set_solver.
Qed.

Lemma merge_fold_progress (l : list (nat * row)) w :
  w_answer_progress w ⊆ w_answer_progress (fold_left merge_row l w)
  /\ w_context_progress w ⊆ w_context_progress (fold_left merge_row l w).
Proof.
  revert w. induction l as [|ir l IHl]; intros w; simpl; [done|].
  destruct (IHl (merge_row w ir)) as [Ha Hc].
  split.
  - etrans; [apply merge_row_answer_progress|exact Ha].
  - etrans; [apply merge_row_context_progress|exact Hc].
Qed.

(** The rows after the loop ran over saved rows numbered from [k]. *)
Lemma merge_fold_df rows k w i :
  w_df (fold_left merge_row (zip (seq k (length rows)) rows) w) !! i
  = match (if decide (k <= i) then rows !! (i - k) else None) with
    | Some saved => merge_one saved <$> (w_df w !! i)
    | None => w_df w !! i
    end.
Proof.
  revert k w. induction rows as [|saved rows IH]; intros k w; simpl.
  - by case_decide.
  - rewrite IH, merge_row_df.
    destruct (decide (i = k)) as [->|Hne].
    + rewrite decide_False by lia. rewrite decide_True by lia.
      rewrite Nat.sub_diag. simpl. by rewrite list_lookup_alter_eq.
    + rewrite list_lookup_alter_ne by done.
      destruct (decide (S k <= i)) as [Hle|Hgt].
      * rewrite decide_True by lia.
        replace (i - k) with (S (i - S k)) by lia. done.
      * by rewrite decide_False by lia.
Qed.

Lemma merge_fold_length rows k w :
  length (w_df (fold_left merge_row (zip (seq k (length rows)) rows) w))
  = length (w_df w).
Proof.
  revert k w. induction rows as [|saved rows IHrows]; intros k w; simpl; [done|].
  rewrite IHrows, merge_row_df. apply length_alter.
Qed.

End MergeFacts.

(** C1, as stated, fails: an uploaded row whose answer, note and context
    are all filled in loses all three to a checkpoint row whose answer and
    context are filled in (the note even to an empty one). *)
Lemma restore_overwrites_uploaded_fields :
  filled (col_ai_answer fresh_row) = true
  /\ filled (col_reference fresh_row) = true
  /\ filled (col_contexts fresh_row) = true
  /\ w_df (restore (Some saved_state) [fresh_row])
     = [Row (Str (lit "What is A?")) (Str (lit "checkpoint answer"))
            (Str []) (Str (lit "checkpoint context passage"))]
  /\ ~ (forall st df i fresh merged,
           df !! i = Some fresh ->
           w_df (restore (Some st) df) !! i = Some merged ->
           (filled (col_ai_answer fresh) = true ->
            col_ai_answer merged = col_ai_answer fresh)
           /\ (filled (col_reference fresh) = true ->
               col_reference merged = col_reference fresh)
           /\ (filled (col_contexts fresh) = true ->
               col_contexts merged = col_contexts fresh)).
Proof.
  split; [by vm_compute|]. split; [by vm_compute|]. split; [by vm_compute|].
  assert (w_df (restore (Some saved_state) [fresh_row])
          = [Row (Str (lit "What is A?")) (Str (lit "checkpoint answer"))
                 (Str []) (Str (lit "checkpoint context passage"))]) as E
    by (by vm_compute).
  split; [exact E|].
  intros H.
  destruct (H saved_state [fresh_row] 0 fresh_row
              (Row (Str (lit "What is A?")) (Str (lit "checkpoint answer"))
                   (Str []) (Str (lit "checkpoint context passage"))))
    as (Ha & _).
  - reflexivity.
  - by rewrite E.
  - assert (filled (col_ai_answer fresh_row) = true) as Hf by (by vm_compute).
    specialize (Ha Hf). by vm_compute in Ha.
Qed.

(** C1, amended: on loading a checkpoint the merge favours the
    checkpoint.  For every index of the uploaded rows that the checkpoint
    also has, the merged answer is the checkpoint's answer whenever that
    one is non-blank and the uploaded answer otherwise; the merged note is
    the checkpoint's note (blank or not) whenever the checkpoint's answer
    is non-blank and the uploaded note otherwise; the merged context is
    the checkpoint's context whenever that one is non-blank and the
    uploaded context otherwise.  The question is never touched, rows
    beyond the checkpoint are unchanged, no row is added, and the progress
    sets of the checkpoint are kept. *)
Theorem restore_merges_checkpoint_over_upload (st : state_data) (df : list row)
    (i : nat) (fresh : row) :
  df !! i = Some fresh ->
  exists merged,
    w_df (restore (Some st) df) !! i = Some merged
    /\ col_question merged = col_question fresh
    /\ match sd_df st !! i with
       | Some saved =>
           col_ai_answer merged
           = (if filled (col_ai_answer saved) then col_ai_answer saved
              else col_ai_answer fresh)
           /\ col_reference merged
              = (if filled (col_ai_answer saved) then col_reference saved
                 else col_reference fresh)
           /\ col_contexts merged
              = (if filled (col_contexts saved) then col_contexts saved
                 else col_contexts fresh)
       | None => merged = fresh
       end
    /\ length (w_df (restore (Some st) df)) = length df
    /\ list_to_set (sd_answer_progress st) ⊆ w_answer_progress (restore (Some st) df)
    /\ list_to_set (sd_context_progress st) ⊆ w_context_progress (restore (Some st) df).
Proof.
  intros Hi. unfold restore, iterrows.
  set (w0 := Work df _ _).
  pose proof (merge_fold_df (sd_df st) 0 w0 i) as Hdf.
  rewrite decide_True in Hdf by lia. rewrite Nat.sub_0_r in Hdf.
  pose proof (merge_fold_length (sd_df st) 0 w0) as Hlen. simpl in Hlen.
  destruct (merge_fold_progress (zip (seq 0 (length (sd_df st))) (sd_df st)) w0)
    as [Hap Hcp].
  destruct (sd_df st !! i) as [saved|] eqn:Hs.
  - exists (merge_one saved fresh).
    split; [by rewrite Hdf; simpl; rewrite Hi|].
    unfold merge_one.
    destruct (filled (col_ai_answer saved)), (filled (col_contexts saved)); simpl;
      repeat split; done.
  - exists fresh. split; [by rewrite Hdf|]. repeat split; done.
Qed.

Lemma restore_merges_checkpoint_over_upload_witness :
  exists merged,
    w_df (restore (Some saved_state) [fresh_row]) !! 0 = Some merged
    /\ col_question merged = col_question fresh_row
    /\ match sd_df saved_state !! 0 with
       | Some saved =>
           col_ai_answer merged
           = (if filled (col_ai_answer saved) then col_ai_answer saved
              else col_ai_answer fresh_row)
           /\ col_reference merged
              = (if filled (col_ai_answer saved) then col_reference saved
                 else col_reference fresh_row)
           /\ col_contexts merged
              = (if filled (col_contexts saved) then col_contexts saved
                 else col_contexts fresh_row)
       | None => merged = fresh_row
       end
    /\ length (w_df (restore (Some saved_state) [fresh_row])) = length [fresh_row]
    /\ list_to_set (sd_answer_progress saved_state)
       ⊆ w_answer_progress (restore (Some saved_state) [fresh_row])
    /\ list_to_set (sd_context_progress saved_state)
       ⊆ w_context_progress (restore (Some saved_state) [fresh_row]).
Proof.
  apply (restore_merges_checkpoint_over_upload saved_state [fresh_row] 0 fresh_row).
  reflexivity.
Defined.

(* ===================================================================== *)
(** * Building the task lists *)
(* ===================================================================== *)

Section TaskFacts.

Implicit Types (w : work) (df : list row) (ap cp : gset nat).

Lemma iterrows_from_elem (l : list row) (k i : nat) (r : row) :
  (i, r) ∈ zip (seq k (length l)) l <-> k <= i /\ l !! (i - k) = Some r.
Proof.
  revert k. induction l as [|x l IHl]; intros k; simpl.
  - rewrite elem_of_nil. split; [done|]. intros [_ H]. by rewrite lookup_nil in H.
  - rewrite elem_of_cons, IHl. split.
    + intros [[= -> ->]|[Hle Hl]].
      * split; [lia|]. by rewrite Nat.sub_diag.
      * split; [lia|]. replace (i - k) with (S (i - S k)) by lia. done.
    + intros [Hle Hl]. destruct (decide (i = k)) as [->|Hne].
      * left. rewrite Nat.sub_diag in Hl. simpl in Hl. by injection Hl as ->.
      * right. split; [lia|].
        replace (i - k) with (S (i - S k)) in Hl by lia. done.
Qed.

Lemma iterrows_elem df i r : (i, r) ∈ iterrows df <-> df !! i = Some r.
Proof.
  unfold iterrows. rewrite iterrows_from_elem, Nat.sub_0_r.
  split; [by intros [_ H]|]. intros H. split; [lia|done].
Qed.

(** The collecting loop appends, row after row, the tasks that
    [answer_task] and [context_task] describe. *)
Lemma collect_loop ap cp (l : list (nat * row)) acc :
  fold_left (collect_row ap cp) l acc
  = (fst acc ++ omap (answer_task ap) l, snd acc ++ omap (context_task cp) l).
Proof.
  revert acc. induction l as [|ir l IHl]; intros [ats cts]; simpl.
  - by rewrite !app_nil_r.
  - rewrite IHl. unfold collect_row, answer_task, context_task.
    destruct (question_blank ir.2); simpl; [done|].
    destruct (negb (bool_decide (ir.1 ∈ ap)) && empty_cell (col_ai_answer ir.2));
      destruct (negb (bool_decide (ir.1 ∈ cp)) && empty_cell (col_contexts ir.2));
      simpl; by rewrite <- ?app_assoc.
Qed.

Lemma collect_tasks_omap w :
  collect_tasks w
  = (omap (answer_task (w_answer_progress w)) (iterrows (w_df w)),
     omap (context_task (w_context_progress w)) (iterrows (w_df w))).
Proof. unfold collect_tasks. by rewrite collect_loop. Qed.

Lemma answer_task_elem w i q :
  (i, q) ∈ fst (collect_tasks w) <->
  exists r, (w_df w !! i = Some r)
            /\ question_blank r = false
            /\ (i ∉ w_answer_progress w)
            /\ empty_cell (col_ai_answer r) = true
            /\ q = strip (str_of (col_question r)).
Proof.
  rewrite collect_tasks_omap. simpl. rewrite list_elem_of_omap. split.
  - intros ([j r] & Hin & Ht). apply iterrows_elem in Hin.
    unfold answer_task in Ht. simpl in Ht.
    destruct (question_blank r) eqn:Hq; [done|].
    destruct (bool_decide (j ∈ w_answer_progress w)) eqn:Hp; simpl in Ht; [done|].
    destruct (empty_cell (col_ai_answer r)) eqn:He; [|done].
    injection Ht as <- <-. exists r.
    apply bool_decide_eq_false in Hp. done.
  - intros (r & Hr & Hq & Hp & He & ->). exists (i, r).
    split; [by apply iterrows_elem|].
    unfold answer_task. simpl. rewrite Hq, He.
    by rewrite bool_decide_eq_false_2.
Qed.

Lemma context_task_elem w i q :
  (i, q) ∈ snd (collect_tasks w) <->
  exists r, (w_df w !! i = Some r)
            /\ question_blank r = false
            /\ (i ∉ w_context_progress w)
            /\ empty_cell (col_contexts r) = true
            /\ q = strip (str_of (col_question r)).
Proof.
  rewrite collect_tasks_omap. simpl. rewrite list_elem_of_omap. split.
  - intros ([j r] & Hin & Ht). apply iterrows_elem in Hin.
    unfold context_task in Ht. simpl in Ht.
    destruct (question_blank r) eqn:Hq; [done|].
    destruct (bool_decide (j ∈ w_context_progress w)) eqn:Hp; simpl in Ht; [done|].
    destruct (empty_cell (col_contexts r)) eqn:He; [|done].
    injection Ht as <- <-. exists r.
    apply bool_decide_eq_false in Hp. done.
  - intros (r & Hr & Hq & Hp & He & ->). exists (i, r).
    split; [by apply iterrows_elem|].
    unfold context_task. simpl. rewrite Hq, He.
    by rewrite bool_decide_eq_false_2.
Qed.

End TaskFacts.

(* ===================================================================== *)
(** * The completion loops *)
(* ===================================================================== *)

Section LoopFacts.

Variable e : env.
Variable file_hash : pystr.

Implicit Types (w : work) (ls : loop_state) (ts : list (nat * pystr)).

Lemma answer_done_work ls t :
  ls_work (answer_done e file_hash ls t) = answer_apply e (ls_work ls) t.
Proof.
  unfold answer_done, answer_apply, tick.
  destruct (answer_call e t.1 t.2) as [res|]; [|done].
  by destruct (success res).
Qed.

Lemma answer_loop_work ts ls :
  ls_work (fold_left (answer_done e file_hash) ts ls)
  = fold_left (answer_apply e) ts (ls_work ls).
Proof.
  revert ls. induction ts as [|t ts IHts]; intros ls; simpl; [done|].
  by rewrite IHts, answer_done_work.
Qed.

Lemma context_done_work ls t :
  ls_work (context_done e file_hash ls t) = context_apply e (ls_work ls) t.
Proof.
  unfold context_done, context_apply, tick.
  destruct (context_call e t.1 t.2) as [[c [|]]|]; done.
Qed.

Lemma context_loop_work ts ls :
  ls_work (fold_left (context_done e file_hash) ts ls)
  = fold_left (context_apply e) ts (ls_work ls).
Proof.
  revert ls. induction ts as [|t ts IHts]; intros ls; simpl; [done|].
  by rewrite IHts, context_done_work.
Qed.

(** A completed answer task leaves every other row, and every other
    index of the progress set, as they were. *)
Lemma answer_apply_other w t i :
  t.1 <> i ->
  w_df (answer_apply e w t) !! i = w_df w !! i
  /\ (i ∈ w_answer_progress (answer_apply e w t) <-> i ∈ w_answer_progress w).
Proof.
  intros Hne. unfold answer_apply.
  destruct (answer_call e t.1 t.2) as [res|]; [|done].
  destruct (success res); [|done]. simpl.
  rewrite list_lookup_alter_ne by done. split; [done|].
  rewrite elem_of_union, elem_of_singleton.
  split; [intros [Heq|Hin]; [congruence|exact Hin]|by right].
Qed.

(** A completed answer task at its own row: recorded when the fetch
    succeeded, without effect otherwise. *)
Lemma answer_apply_at w t :
  match answer_fetched e t with
  | Some res =>
      t.1 ∈ w_answer_progress (answer_apply e w t)
      /\ w_df (answer_apply e w t) !! t.1
         = set_answer (Str (ai_answer res)) (Str (reference res)) <$> w_df w !! t.1
  | None => answer_apply e w t = w
  end.
Proof.
  unfold answer_fetched, answer_apply.
  destruct (answer_call e t.1 t.2) as [res|]; [|done].
  destruct (success res); [|done]. simpl.
  split; [set_solver|]. by rewrite list_lookup_alter_eq.
Qed.

Lemma answer_fold_other ts w i :
  i ∉ ts.*1 ->
  w_df (fold_left (answer_apply e) ts w) !! i = w_df w !! i
  /\ (i ∈ w_answer_progress (fold_left (answer_apply e) ts w)
      <-> i ∈ w_answer_progress w).
Proof.
  revert w. induction ts as [|t ts IHts]; intros w Hi; simpl; [done|].
  rewrite fmap_cons, not_elem_of_cons in Hi. destruct Hi as [Hne Hi].
  destruct (IHts (answer_apply e w t) Hi) as [Hdf Hp].
  destruct (answer_apply_other w t i) as [Hdf' Hp']; [done|].
  rewrite Hdf, Hdf', Hp, Hp'. done.
Qed.

(** The answer loop, task by task, whatever the completion order. *)
Lemma answer_fold_at ts w t :
  NoDup ts.*1 -> t ∈ ts ->
  match answer_fetched e t with
  | Some res =>
      t.1 ∈ w_answer_progress (fold_left (answer_apply e) ts w)
      /\ w_df (fold_left (answer_apply e) ts w) !! t.1
         = set_answer (Str (ai_answer res)) (Str (reference res)) <$> w_df w !! t.1
  | None =>
      w_df (fold_left (answer_apply e) ts w) !! t.1 = w_df w !! t.1
      /\ (t.1 ∈ w_answer_progress (fold_left (answer_apply e) ts w)
          <-> t.1 ∈ w_answer_progress w)
  end.
Proof.
  revert w. induction ts as [|t0 ts IHts]; intros w Hnd Hin; simpl.
  { by apply elem_of_nil in Hin. }
  rewrite fmap_cons in Hnd. apply NoDup_cons in Hnd as [Hfresh Hnd].
  apply elem_of_cons in Hin as [->|Hin].
  - destruct (answer_fold_other ts (answer_apply e w t0) t0.1 Hfresh) as [Hdf Hp].
    pose proof (answer_apply_at w t0) as Hat.
    destruct (answer_fetched e t0) as [res|].
    + destruct Hat as [Hm Hrow]. rewrite Hdf, Hp. done.
    + rewrite Hdf, Hp, Hat. done.
  - assert (t0.1 <> t.1) as Hne.
    { intros Heq. apply Hfresh. rewrite Heq. by apply list_elem_of_fmap_2. }
    specialize (IHts (answer_apply e w t0) Hnd Hin).
    destruct (answer_apply_other w t0 t.1 Hne) as [Hdf' Hp'].
    destruct (answer_fetched e t) as [res|].
    + by rewrite <- Hdf'.
    + by rewrite <- Hdf', <- Hp'.
Qed.

(** The context loop does not touch the answer side. *)
Lemma context_apply_answer_side w t i :
  w_answer_progress (context_apply e w t) = w_answer_progress w
  /\ (col_ai_answer <$> w_df (context_apply e w t) !! i) = (col_ai_answer <$> w_df w !! i)
  /\ (col_reference <$> w_df (context_apply e w t) !! i) = (col_reference <$> w_df w !! i).
Proof.
  unfold context_apply.
  destruct (context_call e t.1 t.2) as [[c [|]]|]; try done. simpl.
  split; [done|].
  destruct (decide (t.1 = i)) as [<-|Hne].
  - rewrite list_lookup_alter_eq. by destruct (w_df w !! t.1).
  - by rewrite list_lookup_alter_ne.
Qed.

Lemma context_fold_answer_side ts w i :
  w_answer_progress (fold_left (context_apply e) ts w) = w_answer_progress w
  /\ (col_ai_answer <$> w_df (fold_left (context_apply e) ts w) !! i)
     = (col_ai_answer <$> w_df w !! i)
  /\ (col_reference <$> w_df (fold_left (context_apply e) ts w) !! i)
     = (col_reference <$> w_df w !! i).
Proof.
  revert w. induction ts as [|t ts IHts]; intros w; simpl; [done|].
  destruct (IHts (context_apply e w t)) as (-> & -> & ->).
  apply context_apply_answer_side.
Qed.

End LoopFacts.

(* ===================================================================== *)
(** * Runs of the orchestrator *)
(* ===================================================================== *)

Section RunFacts.

Implicit Types (w : work) (e : env) (fs : store) (df : list row).

Lemma answer_task_index ap ir t : answer_task ap ir = Some t -> t.1 = ir.1.
Proof.
  unfold answer_task. destruct (question_blank ir.2); [done|].
  destruct (_ && _); [|done]. by intros [= <-].
Qed.

Lemma omap_index_sublist (f : nat * row -> option (nat * pystr)) (l : list (nat * row)) :
  (forall ir t, f ir = Some t -> t.1 = ir.1) ->
  (omap f l).*1 `sublist_of` l.*1.
Proof.
  intros Hf. induction l as [|ir l IHl]; [constructor|].
  assert (omap f (ir :: l)
          = match f ir with Some y => y :: omap f l | None => omap f l end) as ->
    by reflexivity.
  destruct (f ir) as [t|] eqn:Ht.
  - rewrite !fmap_cons, (Hf _ _ Ht). by apply sublist_skip.
  - rewrite fmap_cons. by apply sublist_cons.
Qed.

(** At most one answer task per row. *)
Lemma answer_tasks_NoDup w : NoDup (fst (collect_tasks w)).*1.
Proof.
  rewrite collect_tasks_omap. simpl.
  eapply sublist_NoDup; [|apply omap_index_sublist, answer_task_index].
  unfold iterrows. rewrite fst_zip by (by rewrite length_seq).
  apply NoDup_seq.
Qed.

(** The working state at the end of a run, as two folds. *)
Lemma run_work_unfold e fs h df :
  let r := process_method2_file e fs h df in
  run_work r
  = fold_left (context_apply e) (completion e (run_context_tasks r))
      (fold_left (answer_apply e) (completion e (run_answer_tasks r)) (run_restored r))
  /\ run_answer_tasks r = fst (collect_tasks (run_restored r))
  /\ run_context_tasks r = snd (collect_tasks (run_restored r)).
Proof.
  unfold process_method2_file. simpl.
  by rewrite context_loop_work, answer_loop_work.
Qed.

Lemma run_restored_unfold e fs h df :
  run_restored (process_method2_file e fs h df)
  = restore (match load_processing_state fs h with
             | Ok r => r
             | Raise _ => None
             end) df.
Proof. reflexivity. Qed.

(** What a second run starts from when the first one saved its state. *)
Lemma rerun_restores e fs h df e' df' :
  run_saved (process_method2_file e fs h df) = true ->
  w_answer_progress (run_work (process_method2_file e fs h df))
  ⊆ w_answer_progress
      (run_restored
         (process_method2_file e' (run_store (process_method2_file e fs h df)) h df'))
  /\ w_context_progress (run_work (process_method2_file e fs h df))
     ⊆ w_context_progress
         (run_restored
            (process_method2_file e' (run_store (process_method2_file e fs h df)) h df')).
Proof.
  intros Hsaved.
  set (r1 := process_method2_file e fs h df) in *.
  assert (exists now fs0 sweep fault,
             run_saved r1
             = snd (save_processing_state sweep now fault fs0 h (w_df (run_work r1))
                      (w_answer_progress (run_work r1)) (w_context_progress (run_work r1)))
             /\ run_store r1
                = fst (save_processing_state sweep now fault fs0 h (w_df (run_work r1))
                         (w_answer_progress (run_work r1)) (w_context_progress (run_work r1))))
    as (now & fs0 & sweep & fault & Hs & Hst).
  { unfold r1, process_method2_file. simpl. by eexists _, _, _, _. }
  rewrite Hs in Hsaved. clearbody r1.
  pose proof (save_true_written _ _ _ _ _ _ _ _ Hsaved) as Hfile.
  rewrite <- Hst in Hfile.
  apply load_pickled in Hfile.
  rewrite run_restored_unfold, Hfile.
  unfold restore. simpl. rewrite !list_to_set_elements_L.
  match goal with
  | |- context [fold_left merge_row ?l ?w0] => apply (merge_fold_progress l w0)
  end.
Qed.

End RunFacts.

(** C2: the answer (context) task list holds the pair of an index and a
    question exactly when the row at that index has a non-blank question,
    the answer (context) progress set does not hold the index and the
    row's answer (context) cell is missing or blank; and when a run has
    saved its final state, a run started on the resulting state directory
    with the same file hash builds no task for an index that the first
    run's matching progress set holds. *)
Theorem collect_tasks_exact_and_incremental :
  (forall w i q,
      (i, q) ∈ fst (collect_tasks w) <->
      exists r, (w_df w !! i = Some r)
                /\ question_blank r = false
                /\ (i ∉ w_answer_progress w)
                /\ empty_cell (col_ai_answer r) = true
                /\ q = strip (str_of (col_question r)))
  /\ (forall w i q,
      (i, q) ∈ snd (collect_tasks w) <->
      exists r, (w_df w !! i = Some r)
                /\ question_blank r = false
                /\ (i ∉ w_context_progress w)
                /\ empty_cell (col_contexts r) = true
                /\ q = strip (str_of (col_question r)))
  /\ (forall e fs h df e' df' i q,
      run_saved (process_method2_file e fs h df) = true ->
      (i ∈ w_answer_progress (run_work (process_method2_file e fs h df)) ->
       (i, q) ∉ run_answer_tasks
                  (process_method2_file e' (run_store (process_method2_file e fs h df)) h df'))
      /\ (i ∈ w_context_progress (run_work (process_method2_file e fs h df)) ->
          (i, q) ∉ run_context_tasks
                     (process_method2_file e' (run_store (process_method2_file e fs h df)) h df'))).
Proof.
  split; [apply answer_task_elem|]. split; [apply context_task_elem|].
  intros e fs h df e' df' i q Hsaved.
  destruct (rerun_restores e fs h df e' df' Hsaved) as [Ha Hc].
  destruct (run_work_unfold e' (run_store (process_method2_file e fs h df)) h df')
    as (_ & -> & ->).
  split; intros Hdone Htask.
  - apply answer_task_elem in Htask as (r & _ & _ & Hnot & _). apply Hnot, Ha, Hdone.
  - apply context_task_elem in Htask as (r & _ & _ & Hnot & _). apply Hnot, Hc, Hdone.
Qed.

Lemma collect_tasks_exact_and_incremental_witness :
  (1, lit "What is B?") ∈ fst (collect_tasks (Work three_questions {[0; 2]} ∅))
  /\ (0, lit "What is A?")
     ∉ run_answer_tasks
         (process_method2_file flaky_env
            (run_store (process_method2_file flaky_env ∅ (lit "0f") three_questions))
            (lit "0f") three_questions).
Proof.
  destruct collect_tasks_exact_and_incremental as (Hanswer & _ & Hresume).
  split.
  - apply Hanswer. exists (Row (Str (lit "What is B?")) (Str []) (Str []) (Str [])).
    split; [reflexivity|]. split; [reflexivity|].
    split; [by vm_compute|]. split; reflexivity.
  - apply (Hresume flaky_env ∅ (lit "0f") three_questions flaky_env three_questions
                   0 (lit "What is A?")).
    + by vm_compute.
    + by vm_compute.
Defined.

(* ===================================================================== *)
(** * Evaluation in the web application *)
(* ===================================================================== *)

(** C7, as stated, fails for [evaluate_dataset]: its test of the metrics
    comes after the set-up of the imports, the API key and the model
    clients, so with valid records, an empty list of metrics and clients
    that cannot be built its terminal error is the failure of the set-up,
    which is no validation error. *)
Lemma evaluate_dataset_checks_metrics_after_setup :
  evaluate_dataset broken_env one_sample []
  = (None, [UiError (EvaluationFailed (lit "Connection error"))])
  /\ ~ (forall (e : eval_env nat) (evaluation_data : list sample),
          exists evs m,
            snd (evaluate_dataset e evaluation_data []) = evs ++ [UiError m]
            /\ validation_error m).
Proof.
  split; [reflexivity|].
  intros H. destruct (H broken_env one_sample) as (evs & m & Heq & Hm).
  change (snd (evaluate_dataset broken_env one_sample []))
    with ([] ++ [@UiError nat (EvaluationFailed (lit "Connection error"))]) in Heq.
  apply app_inj_tail in Heq as [_ Heq]. injection Heq as <-. exact Hm.
Qed.

(** C7, amended: [evaluate_partial_data] rejects an empty list of metrics
    with the validation error before it reads anything, and
    [evaluate_dataset] rejects an empty list of records at once with a
    validation error.  Given an empty list of metrics, [evaluate_dataset]
    returns nothing and never calls the scoring library, whatever the data
    and the environment, and what it shows is, after the warning about
    invalid records if any, exactly one error: that no record is valid
    when none is, else the failure of the set-up when the set-up fails,
    and else the validation error that asks for a metric. *)
Theorem evaluate_rejects_before_scoring {Result : Type} (e : eval_env Result) :
  (forall evaluation_data,
      fst (evaluate_dataset e evaluation_data []) = None
      /\ existsb is_scored (snd (evaluate_dataset e evaluation_data [])) = false
      /\ exists evs m, snd (evaluate_dataset e evaluation_data []) = evs ++ [UiError m])
  /\ (forall selected_metrics,
      evaluate_dataset e [] selected_metrics = (None, [UiError NoDataToEvaluate]))
  /\ (forall isalnum fs file_hash df,
      evaluate_partial_data e isalnum fs file_hash df [] = (None, [UiError SelectAMetric]))
  /\ (forall evaluation_data,
      evaluate_dataset e evaluation_data []
      = (None,
         match evaluation_data with
         | [] => [UiError NoDataToEvaluate]
         | _ :: _ =>
             invalid_warning evaluation_data
             ++ [UiError
                   match filter (fun item => sample_valid item = true) evaluation_data with
                   | [] => NoValidSamples
                   | _ :: _ =>
                       match setup_failure e with
                       | Some msg => EvaluationFailed msg
                       | None => SelectAMetric
                       end
                   end]
         end)).
Proof.
  assert (forall evaluation_data,
             evaluate_dataset e evaluation_data []
             = (None,
                match evaluation_data with
                | [] => [UiError NoDataToEvaluate]
                | _ :: _ =>
                    invalid_warning evaluation_data
                    ++ [UiError
                          match filter (fun item => sample_valid item = true)
                                  evaluation_data with
                          | [] => NoValidSamples
                          | _ :: _ =>
                              match setup_failure e with
                              | Some msg => EvaluationFailed msg
                              | None => SelectAMetric
                              end
                          end]
                end)) as Hexact.
  { intros evaluation_data. unfold evaluate_dataset, invalid_warning.
    destruct evaluation_data as [|item items]; [done|].
    destruct (filter _ (item :: items)) as [|v vs]; [done|].
    unfold evaluate_try, setup_failure.
    destruct (import_failure e) as [msg|]; [done|].
    destruct (api_key e) as [[|c key]|]; [done| |done].
    by destruct (client_failure e) as [msg|]. }
  split; [|split; [done|split; [done|exact Hexact]]].
  intros evaluation_data. unfold evaluate_dataset.
  destruct evaluation_data as [|item items].
  { simpl. split; [done|]. split; [done|]. by exists [], NoDataToEvaluate. }
  destruct (filter _ (item :: items)) as [|v vs].
  { destruct (0 <? _); simpl.
    - split; [done|]. split; [done|]. by eexists [_], NoValidSamples.
    - split; [done|]. split; [done|]. by exists [], NoValidSamples. }
  unfold evaluate_try.
  destruct (import_failure e) as [msg|]; simpl.
  { destruct (0 <? _); simpl; (split; [done|]); (split; [done|]).
    - by eexists [_], _.
    - by eexists [], _. }
  destruct (api_key e) as [[|c key]|]; simpl.
  - destruct (0 <? _); simpl; (split; [done|]); (split; [done|]).
    + by eexists [_], _.
    + by eexists [], _.
  - destruct (client_failure e) as [msg|]; simpl;
      destruct (0 <? _); simpl; (split; [done|]); (split; [done|]).
    + by eexists [_], _.
    + by eexists [], _.
    + by eexists [_], _.
    + by eexists [], _.
  - destruct (0 <? _); simpl; (split; [done|]); (split; [done|]).
    + by eexists [_], _.
    + by eexists [], _.
Qed.

(* ===================================================================== *)
(** * Retry loops of the command-line evaluator *)
(* ===================================================================== *)

Section RetryFacts.

Context {Result : Type}.
Variable scoring : nat -> nat -> list sample -> outcome Result.
Variable draw : nat -> nat -> bool -> Q.

(** The loop returns the result of the first attempt that succeeds. *)
Lemma evaluate_batch_from_first_success ds b n remaining attempt k r :
  k < remaining ->
  (forall a, attempt <= a < attempt + k -> raises (scoring b a ds)) ->
  scoring b (attempt + k) ds = Ok r ->
  fst (evaluate_batch_from scoring draw remaining attempt ds b n) = Some r.
Proof.
  revert attempt k. induction remaining as [|rem IHrem]; intros attempt k Hk Hfail Hok.
  { lia. }
  simpl. destruct k as [|k].
  - rewrite Nat.add_0_r in Hok. by rewrite Hok.
  - assert (raises (scoring b attempt ds)) as Hr by (apply Hfail; lia).
    destruct (scoring b attempt ds) as [?|msg]; [done|]. simpl.
    apply (IHrem (S attempt) k); [lia| |].
    + intros a Ha. apply Hfail. lia.
    + by replace (S attempt + k) with (attempt + S k) by lia.
Qed.

(** The loop returns nothing when every attempt fails. *)
Lemma evaluate_batch_from_all_fail ds b n remaining attempt :
  (forall a, attempt <= a < attempt + remaining -> raises (scoring b a ds)) ->
  fst (evaluate_batch_from scoring draw remaining attempt ds b n) = None.
Proof.
  revert attempt. induction remaining as [|rem IHrem]; intros attempt Hfail; [done|].
  simpl.
  assert (raises (scoring b attempt ds)) as Hr by (apply Hfail; lia).
  destruct (scoring b attempt ds) as [?|msg]; [done|]. simpl.
  apply IHrem. intros a Ha. apply Hfail. lia.
Qed.

(** Jitter pauses occur in later batches only, within their bounds. *)
Lemma evaluate_batch_from_jitter ds b n remaining attempt :
  (forall x a j, (0 <= draw x a j)%Q /\ (draw x a j <= 1)%Q) ->
  Forall (jitter_ok b) (snd (evaluate_batch_from scoring draw remaining attempt ds b n)).
Proof.
  intros Hdraw. revert attempt.
  induction remaining as [|rem IHrem]; intros attempt; simpl; [constructor|].
  assert (Forall (jitter_ok b)
            (if 1 <? b then [Jitter (uniform (1 # 2) 2 (draw b attempt true))] else []))
    as Hj.
  { destruct (1 <? b) eqn:Hb; [|constructor].
    apply Nat.ltb_lt in Hb. constructor; [|constructor].
    simpl. split; [done|]. unfold uniform.
    destruct (Hdraw b attempt true) as [H0 H1]. split; lra. }
  destruct (scoring b attempt ds) as [r|msg]; simpl; [exact Hj|].
  apply Forall_app. split; [exact Hj|].
  apply Forall_app. split; [|apply IHrem].
  destruct (attempt <? n - 1); constructor; [exact I|constructor].
Qed.

End RetryFacts.

(** The three wait classes, within their jitter bounds. *)
Lemma wait_time_bounds (attempt : nat) (error_msg : pystr) (u : Q) :
  (0 <= u)%Q -> (u <= 1)%Q ->
  if is_connection_error error_msg
  then (wait_time attempt error_msg u
        == inject_Z (5 * 3 ^ Z.of_nat attempt) + uniform 5 15 u)%Q
       /\ (inject_Z (5 * 3 ^ Z.of_nat attempt) + 5 <= wait_time attempt error_msg u)%Q
       /\ (wait_time attempt error_msg u <= inject_Z (5 * 3 ^ Z.of_nat attempt) + 15)%Q
  else if is_rate_limit error_msg
  then (wait_time attempt error_msg u
        == inject_Z (5 * 4 ^ Z.of_nat attempt) + uniform 10 30 u)%Q
       /\ (inject_Z (5 * 4 ^ Z.of_nat attempt) + 10 <= wait_time attempt error_msg u)%Q
       /\ (wait_time attempt error_msg u <= inject_Z (5 * 4 ^ Z.of_nat attempt) + 30)%Q
  else (wait_time attempt error_msg u == 5 + uniform 1 5 u)%Q
       /\ (5 + 1 <= wait_time attempt error_msg u)%Q
       /\ (wait_time attempt error_msg u <= 5 + 5)%Q.
Proof.
  intros H0 H1. unfold wait_time, base_delay, uniform.
  destruct (is_connection_error error_msg).
  - set (b := inject_Z _). split; [reflexivity|]. split; lra.
  - destruct (is_rate_limit error_msg).
    + set (b := inject_Z _). split; [reflexivity|]. split; lra.
    + change (inject_Z 5) with 5%Q. split; [reflexivity|]. split; lra.
Qed.

Section OneShotFacts.

Context {Result : Type}.
Variable scoring : nat -> nat -> list sample -> outcome Result.

(** The one-shot loop waits ten more seconds after each failure,
    whatever the error says. *)
Lemma run_evaluation_from_first_success ds n remaining attempt k r :
  attempt + remaining = n -> k < remaining ->
  (forall a, attempt <= a < attempt + k -> raises (scoring 0 a ds)) ->
  scoring 0 (attempt + k) ds = Ok r ->
  run_evaluation_from scoring remaining attempt ds n
  = (Ok (Some r),
     map (fun a => Backoff (inject_Z ((Z.of_nat a + 1) * 10))) (seq attempt k)).
Proof.
  revert attempt k. induction remaining as [|rem IHrem]; intros attempt k Hn Hk Hfail Hok.
  { lia. }
  simpl. destruct k as [|k].
  - rewrite Nat.add_0_r in Hok. by rewrite Hok.
  - assert (raises (scoring 0 attempt ds)) as Hr by (apply Hfail; lia).
    destruct (scoring 0 attempt ds) as [?|msg]; [done|].
    assert ((attempt <? n - 1) = true) as -> by (apply Nat.ltb_lt; lia).
    rewrite (IHrem (S attempt) k); [done|lia|lia| |].
    + intros a Ha. apply Hfail. lia.
    + by replace (S attempt + k) with (attempt + S k) by lia.
Qed.

(** When every attempt fails it raises the error of the last one. *)
Lemma run_evaluation_from_all_fail ds n remaining attempt (msg : nat -> pystr) :
  attempt + remaining = n -> 0 < remaining ->
  (forall a, attempt <= a < n -> scoring 0 a ds = Raise (msg a)) ->
  fst (run_evaluation_from scoring remaining attempt ds n) = Raise (msg (n - 1)).
Proof.
  revert attempt. induction remaining as [|rem IHrem]; intros attempt Hn Hpos Hfail.
  { lia. }
  simpl. rewrite (Hfail attempt) by lia.
  destruct (attempt <? n - 1) eqn:Hlt.
  - apply Nat.ltb_lt in Hlt. simpl. apply IHrem; [lia|lia|].
    intros a Ha. apply Hfail. lia.
  - apply Nat.ltb_ge in Hlt. simpl. f_equal. f_equal. lia.
Qed.

End OneShotFacts.

(* ===================================================================== *)
(** * The pauses of the retry loop *)
(* ===================================================================== *)

Section PauseFacts.

Context {Result : Type}.
Variable scoring : nat -> nat -> list sample -> outcome Result.
Variable draw : nat -> nat -> bool -> Q.

Lemma evaluate_batch_from_success_pauses ds b n remaining attempt k r (msg : nat -> pystr) :
  attempt + remaining = n -> k < remaining ->
  (forall a, attempt <= a < attempt + k -> scoring b a ds = Raise (msg a)) ->
  scoring b (attempt + k) ds = Ok r ->
  evaluate_batch_from scoring draw remaining attempt ds b n
  = (Some r,
     concat (map (failed_attempt draw b msg) (seq attempt k))
     ++ jitter_before draw b (attempt + k)).
Proof.
  revert attempt k. induction remaining as [|rem IHrem]; intros attempt k Hn Hk Hfail Hok.
  { lia. }
  cbn [evaluate_batch_from]. destruct k as [|k].
  - rewrite Nat.add_0_r in *. by rewrite Hok.
  - rewrite (Hfail attempt) by lia.
    assert ((attempt <? n - 1) = true) as -> by (apply Nat.ltb_lt; lia).
    rewrite (IHrem (S attempt) k); [|lia|lia| |].
    + cbn [fst snd seq map concat]. unfold failed_attempt at 2, jitter_before at 3.
      replace (S attempt + k) with (attempt + S k) by lia.
      by rewrite <- !app_assoc.
    + intros a Ha. apply Hfail. lia.
    + by replace (S attempt + k) with (attempt + S k) by lia.
Qed.

Lemma evaluate_batch_from_failure_pauses ds b n remaining attempt (msg : nat -> pystr) :
  attempt + remaining = n -> 0 < remaining ->
  (forall a, attempt <= a < n -> scoring b a ds = Raise (msg a)) ->
  evaluate_batch_from scoring draw remaining attempt ds b n
  = (None,
     concat (map (failed_attempt draw b msg) (seq attempt (remaining - 1)))
     ++ jitter_before draw b (n - 1)).
Proof.
  revert attempt. induction remaining as [|rem IHrem]; intros attempt Hn Hpos Hfail.
  { lia. }
  cbn [evaluate_batch_from]. rewrite (Hfail attempt) by lia.
  destruct rem as [|rem].
  - assert ((attempt <? n - 1) = false) as -> by (apply Nat.ltb_ge; lia).
    cbn [evaluate_batch_from fst snd]. replace (n - 1) with attempt by lia.
    cbn [Nat.sub seq map concat app]. unfold jitter_before. by rewrite !app_nil_r.
  - assert ((attempt <? n - 1) = true) as -> by (apply Nat.ltb_lt; lia).
    rewrite (IHrem (S attempt)); [|lia|lia|].
    + replace (S (S rem) - 1) with (S (S rem - 1)) by lia.
      cbn [fst snd seq map concat]. unfold failed_attempt at 2, jitter_before at 3.
      by rewrite <- !app_assoc.
    + intros a Ha. apply Hfail. lia.
Qed.

(** However the attempts end, a wait follows a failed attempt only when
    another attempt is left. *)
Lemma evaluate_batch_from_backoffs ds b n remaining attempt :
  attempt + remaining = n ->
  length (filter (fun p => is_backoff p = true)
            (snd (evaluate_batch_from scoring draw remaining attempt ds b n)))
  <= remaining - 1.
Proof.
  revert attempt. induction remaining as [|rem IHrem]; intros attempt Hn.
  { simpl. lia. }
  cbn [evaluate_batch_from].
  assert (filter (fun p => is_backoff p = true)
            (if 1 <? b then [Jitter (uniform (1 # 2) 2 (draw b attempt true))] else [])
          = []) as Hj by (by destruct (1 <? b)).
  destruct (scoring b attempt ds) as [r|msg]; cbn [fst snd].
  { rewrite Hj. simpl. lia. }
  rewrite !filter_app, Hj, app_nil_l, length_app.
  specialize (IHrem (S attempt) ltac:(lia)).
  destruct (attempt <? n - 1) eqn:Hlt.
  - apply Nat.ltb_lt in Hlt. rewrite filter_cons, decide_True by done.
    cbn [filter length]. change (filter _ []) with (@nil pause). simpl. lia.
  - change (filter _ []) with (@nil pause). simpl. lia.
Qed.

End PauseFacts.

(** C3, as stated, fails for the one-shot executor [run_evaluation]: with
    a rate-limit error on the first two attempts and success on the
    third, it returns the third result after waits of 10 and 20, which no
    draw puts within the rate-limit formula (at least 15, then at least
    30). *)
Lemma run_evaluation_waits_ignore_error_text :
  is_connection_error rate_limit_msg = false
  /\ is_rate_limit rate_limit_msg = true
  /\ run_evaluation rate_limited_twice one_sample 3
     = (Ok (Some 7), [Backoff 10; Backoff 20])
  /\ (forall u, (0 <= u)%Q -> (u <= 1)%Q ->
                ~ (wait_time 0 rate_limit_msg u <= 10)%Q
                /\ ~ (wait_time 1 rate_limit_msg u <= 20)%Q).
Proof.
  split; [reflexivity|]. split; [reflexivity|]. split; [reflexivity|].
  intros u H0 H1.
  pose proof (wait_time_bounds 0 rate_limit_msg u H0 H1) as B0.
  pose proof (wait_time_bounds 1 rate_limit_msg u H0 H1) as B1.
  change (is_connection_error rate_limit_msg) with false in B0, B1.
  change (is_rate_limit rate_limit_msg) with true in B0, B1.
  cbv iota in B0, B1.
  change (inject_Z (5 * 4 ^ Z.of_nat 0)) with 5%Q in B0.
  change (inject_Z (5 * 4 ^ Z.of_nat 1)) with 20%Q in B1.
  destruct B0 as (_ & B0 & _). destruct B1 as (_ & B1 & _).
  split; lra.
Qed.

(** C3, amended: the per-batch executor [_evaluate_batch] makes up to
    [max_retries] sequential attempts and returns the first result
    obtained, or nothing when all fail; the wait it sleeps after a failed
    attempt that is not the last is [5 * 3^attempt + uniform(5, 15)] for a
    connection or timeout error, [5 * 4^attempt + uniform(10, 30)] for a
    rate or limit error that is not also of the first kind, and
    [5 + uniform(1, 5)] otherwise, attempts counted from 0; with
    rate-limit errors on attempts 1 and 2 and success on attempt 3 it
    returns the third result after two waits within [15, 35] and
    [30, 50].  The one-shot executor [run_evaluation] instead waits
    [(attempt + 1) * 10] whatever the error text and raises the last
    error when every attempt fails.  For every batch number and every
    [max_retries], the sleeps of [_evaluate_batch] are, in order: before
    each attempt the jitter of a batch after the first, and after each
    failed attempt but the last allowed one the wait computed from the
    text of its own error; nothing is slept after a success or after the
    last failure, so there are at most [max_retries - 1] waits, and with
    [max_retries] 0 nothing is tried. *)
Theorem evaluate_batch_retries_with_classified_waits :
  (forall (Result : Type) (scoring : nat -> nat -> list sample -> outcome Result)
          draw ds b n k r,
      k < n ->
      (forall a, a < k -> raises (scoring b a ds)) ->
      scoring b k ds = Ok r ->
      fst (_evaluate_batch scoring draw ds b n) = Some r)
  /\ (forall (Result : Type) (scoring : nat -> nat -> list sample -> outcome Result)
             draw ds b n,
      (forall a, a < n -> raises (scoring b a ds)) ->
      fst (_evaluate_batch scoring draw ds b n) = None)
  /\ (forall attempt error_msg u,
      (0 <= u)%Q -> (u <= 1)%Q ->
      if is_connection_error error_msg
      then (wait_time attempt error_msg u
            == inject_Z (5 * 3 ^ Z.of_nat attempt) + uniform 5 15 u)%Q
           /\ (inject_Z (5 * 3 ^ Z.of_nat attempt) + 5 <= wait_time attempt error_msg u)%Q
           /\ (wait_time attempt error_msg u <= inject_Z (5 * 3 ^ Z.of_nat attempt) + 15)%Q
      else if is_rate_limit error_msg
      then (wait_time attempt error_msg u
            == inject_Z (5 * 4 ^ Z.of_nat attempt) + uniform 10 30 u)%Q
           /\ (inject_Z (5 * 4 ^ Z.of_nat attempt) + 10 <= wait_time attempt error_msg u)%Q
           /\ (wait_time attempt error_msg u <= inject_Z (5 * 4 ^ Z.of_nat attempt) + 30)%Q
      else (wait_time attempt error_msg u == 5 + uniform 1 5 u)%Q
           /\ (5 + 1 <= wait_time attempt error_msg u)%Q
           /\ (wait_time attempt error_msg u <= 5 + 5)%Q)
  /\ (forall draw,
      (forall x a j, (0 <= draw x a j)%Q /\ (draw x a j <= 1)%Q) ->
      _evaluate_batch rate_limited_twice draw one_sample 1 3
      = (Some 7, [Backoff (wait_time 0 rate_limit_msg (draw 1 0 false));
                  Backoff (wait_time 1 rate_limit_msg (draw 1 1 false))])
      /\ (15 <= wait_time 0 rate_limit_msg (draw 1%nat 0%nat false))%Q
      /\ (wait_time 0 rate_limit_msg (draw 1%nat 0%nat false) <= 35)%Q
      /\ (30 <= wait_time 1 rate_limit_msg (draw 1%nat 1%nat false))%Q
      /\ (wait_time 1 rate_limit_msg (draw 1%nat 1%nat false) <= 50)%Q)
  /\ (forall (Result : Type) (scoring : nat -> nat -> list sample -> outcome Result)
             ds n k r,
      k < n ->
      (forall a, a < k -> raises (scoring 0 a ds)) ->
      scoring 0 k ds = Ok r ->
      run_evaluation scoring ds n
      = (Ok (Some r), map (fun a => Backoff (inject_Z ((Z.of_nat a + 1) * 10))) (seq 0 k)))
  /\ (forall (Result : Type) (scoring : nat -> nat -> list sample -> outcome Result)
             ds n (msg : nat -> pystr),
      0 < n ->
      (forall a, a < n -> scoring 0 a ds = Raise (msg a)) ->
      fst (run_evaluation scoring ds n) = Raise (msg (n - 1)))
  /\ (forall (Result : Type) (scoring : nat -> nat -> list sample -> outcome Result)
             draw ds b n k r (msg : nat -> pystr),
      k < n ->
      (forall a, a < k -> scoring b a ds = Raise (msg a)) ->
      scoring b k ds = Ok r ->
      _evaluate_batch scoring draw ds b n
      = (Some r,
         concat (map (failed_attempt draw b msg) (seq 0 k)) ++ jitter_before draw b k))
  /\ (forall (Result : Type) (scoring : nat -> nat -> list sample -> outcome Result)
             draw ds b n (msg : nat -> pystr),
      0 < n ->
      (forall a, a < n -> scoring b a ds = Raise (msg a)) ->
      _evaluate_batch scoring draw ds b n
      = (None,
         concat (map (failed_attempt draw b msg) (seq 0 (n - 1)))
         ++ jitter_before draw b (n - 1)))
  /\ (forall (Result : Type) (scoring : nat -> nat -> list sample -> outcome Result)
             draw ds b n,
      length (filter (fun p => is_backoff p = true)
                (snd (_evaluate_batch scoring draw ds b n))) <= n - 1)
  /\ (forall (Result : Type) (scoring : nat -> nat -> list sample -> outcome Result)
             draw ds b,
      _evaluate_batch scoring draw ds b 0 = (None, [])).
Proof.
  split.
  { intros Result scoring draw ds b n k r Hk Hfail Hok.
    apply (evaluate_batch_from_first_success scoring draw ds b n n 0 k r); [done| |done].
    intros a Ha. apply Hfail. lia. }
  split.
  { intros Result scoring draw ds b n Hfail.
    apply evaluate_batch_from_all_fail. intros a Ha. apply Hfail. lia. }
  split; [exact wait_time_bounds|].
  split.
  { intros draw Hdraw. split; [reflexivity|].
    destruct (Hdraw 1 0 false) as [H00 H01]. destruct (Hdraw 1 1 false) as [H10 H11].
    pose proof (wait_time_bounds 0 rate_limit_msg _ H00 H01) as B0.
    pose proof (wait_time_bounds 1 rate_limit_msg _ H10 H11) as B1.
    change (is_connection_error rate_limit_msg) with false in B0, B1.
    change (is_rate_limit rate_limit_msg) with true in B0, B1.
    cbv iota in B0, B1.
    change (inject_Z (5 * 4 ^ Z.of_nat 0)) with 5%Q in B0.
    change (inject_Z (5 * 4 ^ Z.of_nat 1)) with 20%Q in B1.
    destruct B0 as (_ & B0 & B0'). destruct B1 as (_ & B1 & B1').
    repeat split; lra. }
  split.
  { intros Result scoring ds n k r Hk Hfail Hok.
    apply (run_evaluation_from_first_success scoring ds n n 0 k r); [done|done| |done].
    intros a Ha. apply Hfail. lia. }
  split.
  { intros Result scoring ds n msg Hn Hfail.
    apply (run_evaluation_from_all_fail scoring ds n n 0 msg); [done|done|].
    intros a Ha. apply Hfail. lia. }
  split.
  { intros Result scoring draw ds b n k r msg Hk Hfail Hok.
    apply (evaluate_batch_from_success_pauses scoring draw ds b n n 0 k r msg);
      [done|done| |done].
    intros a Ha. apply Hfail. lia. }
  split.
  { intros Result scoring draw ds b n msg Hn Hfail.
    apply (evaluate_batch_from_failure_pauses scoring draw ds b n n 0 msg); [done|done|].
    intros a Ha. apply Hfail. lia. }
  split; [|done].
  intros Result scoring draw ds b n.
  by apply evaluate_batch_from_backoffs.
Qed.

Lemma evaluate_batch_retries_with_classified_waits_witness :
  fst (_evaluate_batch rate_limited_twice (fun _ _ _ => 1 # 2) one_sample 1 3) = Some 7
  /\ (15 <= wait_time 0 rate_limit_msg (1 # 2))%Q
  /\ run_evaluation rate_limited_twice one_sample 3
     = (Ok (Some 7), map (fun a => Backoff (inject_Z ((Z.of_nat a + 1) * 10))) (seq 0 2))
  /\ _evaluate_batch rate_limited_twice (fun _ _ _ => 1 # 2) one_sample 2 5
     = (Some 7,
        concat (map (failed_attempt (fun _ _ _ => 1 # 2) 2 (fun _ => rate_limit_msg))
                    (seq 0 2))
        ++ jitter_before (fun _ _ _ => 1 # 2) 2 2).
Proof.
  destruct evaluate_batch_retries_with_classified_waits
    as (Hfirst & _ & _ & Hscenario & Hlinear & _ & Hpauses & _).
  split.
  - apply (Hfirst nat rate_limited_twice (fun _ _ _ => 1 # 2) one_sample 1 3 2 7).
    + lia.
    + intros a Ha. destruct a as [|[|a]]; [exact I|exact I|lia].
    + reflexivity.
  - split.
    + apply (Hscenario (fun _ _ _ => 1 # 2)). intros x a j. split; by vm_compute.
    + split.
      * apply (Hlinear nat rate_limited_twice one_sample 3 2 7).
        -- lia.
        -- intros a Ha. destruct a as [|[|a]]; [exact I|exact I|lia].
        -- reflexivity.
      * apply (Hpauses nat rate_limited_twice (fun _ _ _ => 1 # 2) one_sample 2 5 2 7
                 (fun _ => rate_limit_msg)).
        -- lia.
        -- intros a Ha. destruct a as [|[|a]]; [reflexivity|reflexivity|lia].
        -- reflexivity.
Defined.

(* ===================================================================== *)
(** * Batched evaluation *)
(* ===================================================================== *)

Section BatchFacts.

Context {Result : Type}.
Variable scoring : nat -> nat -> list sample -> outcome Result.
Variable draw : nat -> nat -> bool -> Q.

Implicit Types (ds : list sample) (bs : nat).

(** A batch is the next [bs] samples, fewer for the last one. *)
Lemma batch_slice_take ds bs i :
  batch_slice ds (i * bs) (Nat.min ((i + 1) * bs) (length ds))
  = take bs (drop (i * bs) ds).
Proof.
  unfold batch_slice.
  destruct (decide ((i + 1) * bs <= length ds)) as [Hle|Hgt].
  - rewrite Nat.min_l by done. f_equal. lia.
  - rewrite Nat.min_r by lia.
    rewrite !take_ge; [done| |]; rewrite length_drop; lia.
Qed.

Lemma batches_cover bs n ds :
  length ds <= n * bs ->
  concat (map (fun i => take bs (drop (i * bs) ds)) (seq 0 n)) = ds.
Proof.
  revert ds. induction n as [|n IHn]; intros ds Hlen.
  - simpl in *. destruct ds; [done|simpl in Hlen; lia].
  - cbn [seq map concat]. rewrite <- fmap_S_seq.
    change (map ?f (S <$> ?l)) with (f <$> (S <$> l)).
    rewrite <- list_fmap_compose.
    rewrite (list_fmap_ext _ (fun i => take bs (drop (i * bs) (drop bs ds)))).
    + change (?f <$> ?l) with (map f l). rewrite IHn.
      * simpl. apply take_drop.
      * rewrite length_drop. lia.
    + intros i x _. simpl. by rewrite drop_drop.
Qed.

Lemma num_batches_enough bs total :
  0 < bs -> total <= (total + bs - 1) / bs * bs.
Proof.
  intros Hbs.
  pose proof (Nat.div_mod_eq (total + bs - 1) bs) as Hdm.
  pose proof (Nat.mod_upper_bound (total + bs - 1) bs) as Hmod.
  nia.
Qed.

(** The loop over the batches collects the results of the batches that
    succeed, in batch order, and goes on after one that fails. *)
Lemma batch_loop ds bs (l : list nat) acc :
  fst (fold_left (batch_step scoring draw ds bs) l acc)
  = fst acc ++
    omap (fun i =>
            fst (_evaluate_batch scoring draw
                   (batch_slice ds (i * bs) (Nat.min ((i + 1) * bs) (length ds)))
                   (i + 1) 3)) l.
Proof.
  revert acc. induction l as [|i l IHl]; intros acc.
  - simpl. by rewrite app_nil_r.
  - cbn [fold_left]. rewrite IHl. unfold batch_step.
    match goal with
    | |- context [omap ?f (i :: l)] =>
        assert (omap f (i :: l)
                = match f i with Some y => y :: omap f l | None => omap f l end) as ->
          by reflexivity
    end.
    destruct (fst (_evaluate_batch _ _ _ _ _)); simpl; by rewrite <- ?app_assoc.
Qed.

Lemma omap_id_map {A B} (f : A -> option B) (l : list A) :
  omap id (map f l) = omap f l.
Proof.
  induction l as [|x l IHl]; [done|].
  change (omap id (map f (x :: l)))
    with (match f x with Some y => y :: omap id (map f l) | None => omap id (map f l) end).
  change (omap f (x :: l))
    with (match f x with Some y => y :: omap f l | None => omap f l end).
  by rewrite IHl.
Qed.

Lemma run_batch_evaluation_result ds bs :
  0 < bs ->
  fst (run_batch_evaluation scoring draw ds bs)
  = Ok (head (omap id (batch_outcomes scoring draw ds bs))).
Proof.
  intros Hbs. unfold run_batch_evaluation, batch_outcomes.
  destruct bs as [|bs']; [lia|].
  rewrite omap_id_map.
  set (done := fold_left _ _ _).
  assert (fst done
          = omap (fun i =>
                    fst (_evaluate_batch scoring draw
                           (batch_slice ds (i * S bs')
                              (Nat.min ((i + 1) * S bs') (length ds)))
                           (i + 1) 3))
                 (seq 0 ((length ds + S bs' - 1) / S bs'))) as Hdone.
  { unfold done. by rewrite batch_loop. }
  rewrite <- Hdone.
  by destruct (fst done).
Qed.

End BatchFacts.

Lemma head_omap_first {A} (l : list (option A)) (k : nat) (r : A) :
  l !! k = Some (Some r) ->
  (forall j, j < k -> l !! j = Some None) ->
  head (omap id l) = Some r.
Proof.
  revert k. induction l as [|o l IHl]; intros k Hk Hbefore; [done|].
  destruct k as [|k].
  - simpl in Hk. injection Hk as ->. done.
  - pose proof (Hbefore 0 ltac:(lia)) as H0. simpl in H0. injection H0 as ->.
    change (omap id (None :: l)) with (omap id l).
    apply (IHl k); [done|]. intros j Hj. apply (Hbefore (S j)). lia.
Qed.

Lemma head_omap_none {A} (l : list (option A)) :
  Forall (fun o => o = None) l -> head (omap id l) = None.
Proof.
  induction 1 as [|o l -> _ IH]; [done|]. exact IH.
Qed.

(** The sleeps of a batched run are those of its batches, one batch
    after the other. *)
Lemma batch_loop_pauses {Result : Type}
    (scoring : nat -> nat -> list sample -> outcome Result)
    (draw : nat -> nat -> bool -> Q) (ds : list sample) (bs : nat) (l : list nat)
    (acc : list Result * list pause) :
  snd (fold_left (batch_step scoring draw ds bs) l acc)
  = snd acc ++
    concat (map (fun i =>
                   snd (_evaluate_batch scoring draw
                          (batch_slice ds (i * bs) (Nat.min ((i + 1) * bs) (length ds)))
                          (i + 1) 3)) l).
Proof.
  revert acc. induction l as [|i l IHl]; intros acc.
  - simpl. by rewrite app_nil_r.
  - cbn [fold_left map concat]. rewrite IHl. unfold batch_step.
    destruct (fst (_evaluate_batch _ _ _ _ _)); simpl; by rewrite <- app_assoc.
Qed.

Lemma run_batch_evaluation_pauses {Result : Type}
    (scoring : nat -> nat -> list sample -> outcome Result)
    (draw : nat -> nat -> bool -> Q) (ds : list sample) (bs : nat) :
  0 < bs ->
  snd (run_batch_evaluation scoring draw ds bs)
  = concat (map (fun i =>
                   snd (_evaluate_batch scoring draw
                          (batch_slice ds (i * bs) (Nat.min ((i + 1) * bs) (length ds)))
                          (i + 1) 3))
                (seq 0 ((length ds + bs - 1) / bs))).
Proof.
  intros Hbs. unfold run_batch_evaluation. destruct bs as [|bs']; [lia|].
  set (done := fold_left _ _ _).
  assert (snd done
          = concat (map (fun i =>
                           snd (_evaluate_batch scoring draw
                                  (batch_slice ds (i * S bs')
                                     (Nat.min ((i + 1) * S bs') (length ds)))
                                  (i + 1) 3))
                        (seq 0 ((length ds + S bs' - 1) / S bs')))) as Hdone.
  { unfold done. by rewrite batch_loop_pauses. }
  rewrite <- Hdone.
  destruct (fst done) as [|r rs]; [done|]. simpl. done.
Qed.

(** The jitter before an attempt: none in the first batch, one between
    0.5 and 2.0 in every later batch. *)
Lemma jitter_before_made (draw : nat -> nat -> bool -> Q) (b a : nat) :
  (0 <= draw b a true)%Q -> (draw b a true <= 1)%Q ->
  if 1 <? b
  then exists t, jitter_before draw b a = [Jitter t] /\ (1 # 2 <= t)%Q /\ (t <= 2)%Q
  else jitter_before draw b a = [].
Proof.
  intros H0 H1. unfold jitter_before. destruct (1 <? b); [|done].
  eexists. split; [done|]. unfold uniform. split; lra.
Qed.

(** C4: with a positive batch size (10 by default) the batches are the
    consecutive slices of that size, the last one shorter, and together
    they are the input; each batch is scored by its own retry loop of
    three attempts, every attempt of a batch after the first being
    preceded by a jitter pause between 0.5 and 2.0; the run returns the
    result of the first batch that succeeded, batches that failed before
    or after it being skipped, and returns nothing when every batch
    failed.  The sleeps of the run are those of its batches, one batch
    after the other; a batch whose first attempts fail and whose next one,
    within the three, succeeds gives that result, and one whose three
    attempts fail gives nothing, after the sleeps of a retry loop of three
    attempts: before each attempt the jitter, which is made in every batch
    after the first and in none of the first, and after each failed
    attempt but the third a wait. *)
Theorem run_batch_evaluation_first_successful_batch :
  (forall (Result : Type) (scoring : nat -> nat -> list sample -> outcome Result)
          draw ds bs,
      0 < bs ->
      concat (map (fun i => batch_slice ds (i * bs) (Nat.min ((i + 1) * bs) (length ds)))
                  (seq 0 ((length ds + bs - 1) / bs))) = ds
      /\ (forall i, batch_slice ds (i * bs) (Nat.min ((i + 1) * bs) (length ds))
                    = take bs (drop (i * bs) ds))
      /\ fst (run_batch_evaluation scoring draw ds bs)
         = Ok (head (omap id (batch_outcomes scoring draw ds bs)))
      /\ (forall k r,
             batch_outcomes scoring draw ds bs !! k = Some (Some r) ->
             (forall j, j < k -> batch_outcomes scoring draw ds bs !! j = Some None) ->
             fst (run_batch_evaluation scoring draw ds bs) = Ok (Some r))
      /\ (Forall (fun o => o = None) (batch_outcomes scoring draw ds bs) ->
          fst (run_batch_evaluation scoring draw ds bs) = Ok None))
  /\ (forall (Result : Type) (scoring : nat -> nat -> list sample -> outcome Result)
             draw ds b n,
      (forall x a j, (0 <= draw x a j)%Q /\ (draw x a j <= 1)%Q) ->
      Forall (jitter_ok b) (snd (_evaluate_batch scoring draw ds b n)))
  /\ (forall draw, fst (run_batch_evaluation only_batch_two draw twenty_five 10) = Ok (Some 2))
  /\ (forall draw, fst (run_batch_evaluation always_down draw twenty_five 10) = Ok None)
  /\ (forall (Result : Type) (scoring : nat -> nat -> list sample -> outcome Result)
             draw ds bs,
      0 < bs ->
      snd (run_batch_evaluation scoring draw ds bs)
      = concat (map (fun i =>
                       snd (_evaluate_batch scoring draw
                              (batch_slice ds (i * bs) (Nat.min ((i + 1) * bs) (length ds)))
                              (i + 1) 3))
                    (seq 0 ((length ds + bs - 1) / bs))))
  /\ (forall (Result : Type) (scoring : nat -> nat -> list sample -> outcome Result)
             draw ds b k r (msg : nat -> pystr),
      k < 3 ->
      (forall a, a < k -> scoring b a ds = Raise (msg a)) ->
      scoring b k ds = Ok r ->
      _evaluate_batch scoring draw ds b 3
      = (Some r,
         concat (map (failed_attempt draw b msg) (seq 0 k)) ++ jitter_before draw b k))
  /\ (forall (Result : Type) (scoring : nat -> nat -> list sample -> outcome Result)
             draw ds b (msg : nat -> pystr),
      (forall a, a < 3 -> scoring b a ds = Raise (msg a)) ->
      _evaluate_batch scoring draw ds b 3
      = (None,
         failed_attempt draw b msg 0 ++ failed_attempt draw b msg 1
         ++ jitter_before draw b 2))
  /\ (forall (draw : nat -> nat -> bool -> Q) b a,
      (0 <= draw b a true)%Q -> (draw b a true <= 1)%Q ->
      if 1 <? b
      then exists t, jitter_before draw b a = [Jitter t] /\ (1 # 2 <= t)%Q /\ (t <= 2)%Q
      else jitter_before draw b a = [])
  /\ (forall draw,
      fst (run_batch_evaluation rate_limited_twice draw twenty_five 10) = Ok (Some 7)).
Proof.
  split.
  { intros Result scoring draw ds bs Hbs.
    split.
    { rewrite (list_fmap_ext _ (fun i => take bs (drop (i * bs) ds))
                 (seq 0 ((length ds + bs - 1) / bs))).
      - apply batches_cover. by apply num_batches_enough.
      - intros i x _. apply batch_slice_take. }
    split; [intros i; apply batch_slice_take|].
    pose proof (run_batch_evaluation_result scoring draw ds bs Hbs) as Hres.
    split; [exact Hres|]. split.
    - intros k r Hk Hbefore. rewrite Hres. f_equal. by apply (head_omap_first _ k).
    - intros Hall. rewrite Hres. f_equal. by apply head_omap_none. }
  split.
  { intros Result scoring draw ds b n Hdraw. by apply evaluate_batch_from_jitter. }
  split; [intros draw; reflexivity|].
  split; [intros draw; reflexivity|].
  split.
  { intros Result scoring draw ds bs Hbs. by apply run_batch_evaluation_pauses. }
  split.
  { intros Result scoring draw ds b k r msg Hk Hfail Hok.
    apply (evaluate_batch_from_success_pauses scoring draw ds b 3 3 0 k r msg);
      [done|done| |done].
    intros a Ha. apply Hfail. lia. }
  split.
  { intros Result scoring draw ds b msg Hfail. unfold _evaluate_batch.
    rewrite (evaluate_batch_from_failure_pauses scoring draw ds b 3 3 0 msg);
      [|done|lia|].
    - cbn [Nat.sub seq map concat]. by rewrite app_nil_r, <- app_assoc.
    - intros a Ha. apply Hfail. lia. }
  split; [exact jitter_before_made|].
  intros draw. reflexivity.
Qed.

Lemma run_batch_evaluation_first_successful_batch_witness :
  fst (run_batch_evaluation only_batch_two (fun _ _ _ => 1 # 2) twenty_five 10)
  = Ok (Some 2)
  /\ fst (run_batch_evaluation always_down (fun _ _ _ => 1 # 2) twenty_five 10) = Ok None
  /\ Forall (jitter_ok 2)
       (snd (_evaluate_batch always_down (fun _ _ _ => 1 # 2) twenty_five 2 3))
  /\ _evaluate_batch rate_limited_twice (fun _ _ _ => 1 # 2) one_sample 2 3
     = (Some 7,
        concat (map (failed_attempt (fun _ _ _ => 1 # 2) 2 (fun _ => rate_limit_msg))
                    (seq 0 2))
        ++ jitter_before (fun _ _ _ => 1 # 2) 2 2)
  /\ (exists t, jitter_before (fun _ _ _ => 1 # 2) 2 0 = [Jitter t]
                /\ (1 # 2 <= t)%Q /\ (t <= 2)%Q).
Proof.
  destruct run_batch_evaluation_first_successful_batch
    as (Hrun & Hjit & _ & _ & _ & Hretry & _ & Hmade & _).
  destruct (Hrun nat only_batch_two (fun _ _ _ => 1 # 2) twenty_five 10 ltac:(lia))
    as (_ & _ & _ & Hfirst & _).
  destruct (Hrun nat always_down (fun _ _ _ => 1 # 2) twenty_five 10 ltac:(lia))
    as (_ & _ & _ & _ & Hnone).
  split.
  - apply (Hfirst 1 2).
    + reflexivity.
    + intros j Hj. destruct j as [|j]; [reflexivity|lia].
  - split.
    + apply Hnone. repeat constructor.
    + split; [apply Hjit; intros x a j; split; by vm_compute|].
      split.
      * apply (Hretry nat rate_limited_twice (fun _ _ _ => 1 # 2) one_sample 2 2 7
                 (fun _ => rate_limit_msg)).
        -- lia.
        -- intros a Ha. destruct a as [|[|a]]; [reflexivity|reflexivity|lia].
        -- reflexivity.
      * apply (Hmade (fun _ _ _ => 1 # 2) 2 0); by vm_compute.
Defined.

(* ===================================================================== *)
(** * More on runs of the orchestrator *)
(* ===================================================================== *)

Section ContextLoopFacts.

Variable e : env.

Implicit Types (w : work) (ts : list (nat * pystr)).

Lemma context_apply_other w t i :
  t.1 <> i ->
  w_df (context_apply e w t) !! i = w_df w !! i
  /\ (i ∈ w_context_progress (context_apply e w t) <-> i ∈ w_context_progress w).
Proof.
  intros Hne. unfold context_apply.
  destruct (context_call e t.1 t.2) as [[c [|]]|]; try done. simpl.
  rewrite list_lookup_alter_ne by done. split; [done|].
  rewrite elem_of_union, elem_of_singleton.
  split; [intros [Heq|Hin]; [congruence|exact Hin]|by right].
Qed.

Lemma context_apply_at w t :
  match context_fetched e t with
  | Some c =>
      t.1 ∈ w_context_progress (context_apply e w t)
      /\ w_df (context_apply e w t) !! t.1 = set_contexts (Str c) <$> w_df w !! t.1
  | None => context_apply e w t = w
  end.
Proof.
  unfold context_fetched, context_apply.
  destruct (context_call e t.1 t.2) as [[c [|]]|]; try done. simpl.
  split; [set_solver|]. by rewrite list_lookup_alter_eq.
Qed.

Lemma context_fold_other ts w i :
  i ∉ ts.*1 ->
  w_df (fold_left (context_apply e) ts w) !! i = w_df w !! i
  /\ (i ∈ w_context_progress (fold_left (context_apply e) ts w)
      <-> i ∈ w_context_progress w).
Proof.
  revert w. induction ts as [|t ts IHts]; intros w Hi; simpl; [done|].
  rewrite fmap_cons, not_elem_of_cons in Hi. destruct Hi as [Hne Hi].
  destruct (IHts (context_apply e w t) Hi) as [Hdf Hp].
  destruct (context_apply_other w t i) as [Hdf' Hp']; [done|].
  rewrite Hdf, Hdf', Hp, Hp'. done.
Qed.

Lemma context_fold_at ts w t :
  NoDup ts.*1 -> t ∈ ts ->
  match context_fetched e t with
  | Some c =>
      t.1 ∈ w_context_progress (fold_left (context_apply e) ts w)
      /\ w_df (fold_left (context_apply e) ts w) !! t.1
         = set_contexts (Str c) <$> w_df w !! t.1
  | None =>
      w_df (fold_left (context_apply e) ts w) !! t.1 = w_df w !! t.1
      /\ (t.1 ∈ w_context_progress (fold_left (context_apply e) ts w)
          <-> t.1 ∈ w_context_progress w)
  end.
Proof.
  revert w. induction ts as [|t0 ts IHts]; intros w Hnd Hin; simpl.
  { by apply elem_of_nil in Hin. }
  rewrite fmap_cons in Hnd. apply NoDup_cons in Hnd as [Hfresh Hnd].
  apply elem_of_cons in Hin as [->|Hin].
  - destruct (context_fold_other ts (context_apply e w t0) t0.1 Hfresh) as [Hdf Hp].
    pose proof (context_apply_at w t0) as Hat.
    destruct (context_fetched e t0) as [c|].
    + destruct Hat as [Hm Hrow]. rewrite Hdf, Hp. done.
    + rewrite Hdf, Hp, Hat. done.
  - assert (t0.1 <> t.1) as Hne.
    { intros Heq. apply Hfresh. rewrite Heq. by apply list_elem_of_fmap_2. }
    specialize (IHts (context_apply e w t0) Hnd Hin).
    destruct (context_apply_other w t0 t.1 Hne) as [Hdf' Hp'].
    destruct (context_fetched e t) as [c|].
    + by rewrite <- Hdf'.
    + by rewrite <- Hdf', <- Hp'.
Qed.

(** The answer loop does not touch the context side. *)
Lemma answer_apply_context_side w t i :
  w_context_progress (answer_apply e w t) = w_context_progress w
  /\ (col_contexts <$> w_df (answer_apply e w t) !! i) = (col_contexts <$> w_df w !! i).
Proof.
  unfold answer_apply.
  destruct (answer_call e t.1 t.2) as [res|]; [|done].
  destruct (success res); [|done]. simpl. split; [done|].
  destruct (decide (t.1 = i)) as [<-|Hne].
  - rewrite list_lookup_alter_eq. by destruct (w_df w !! t.1).
  - by rewrite list_lookup_alter_ne.
Qed.

Lemma answer_fold_context_side ts w i :
  w_context_progress (fold_left (answer_apply e) ts w) = w_context_progress w
  /\ (col_contexts <$> w_df (fold_left (answer_apply e) ts w) !! i)
     = (col_contexts <$> w_df w !! i).
Proof.
  revert w. induction ts as [|t ts IHts]; intros w; simpl; [done|].
  destruct (IHts (answer_apply e w t)) as (-> & ->).
  apply answer_apply_context_side.
Qed.

(** Neither loop adds a row or changes a question, and the progress sets
    only grow. *)
Lemma answer_apply_keeps w t :
  length (w_df (answer_apply e w t)) = length (w_df w)
  /\ (forall i, (col_question <$> w_df (answer_apply e w t) !! i)
                = (col_question <$> w_df w !! i))
  /\ w_answer_progress w ⊆ w_answer_progress (answer_apply e w t).
Proof.
  unfold answer_apply.
  destruct (answer_call e t.1 t.2) as [res|]; [|done].
  destruct (success res); [|done]. simpl.
  split; [apply length_alter|]. split; [|set_solver].
  intros i. destruct (decide (t.1 = i)) as [<-|Hne].
  - rewrite list_lookup_alter_eq. by destruct (w_df w !! t.1).
  - by rewrite list_lookup_alter_ne.
Qed.

Lemma context_apply_keeps w t :
  length (w_df (context_apply e w t)) = length (w_df w)
  /\ (forall i, (col_question <$> w_df (context_apply e w t) !! i)
                = (col_question <$> w_df w !! i))
  /\ w_context_progress w ⊆ w_context_progress (context_apply e w t).
Proof.
  unfold context_apply.
  destruct (context_call e t.1 t.2) as [[c [|]]|]; try done. simpl.
  split; [apply length_alter|]. split; [|set_solver].
  intros i. destruct (decide (t.1 = i)) as [<-|Hne].
  - rewrite list_lookup_alter_eq. by destruct (w_df w !! t.1).
  - by rewrite list_lookup_alter_ne.
Qed.

Lemma answer_fold_keeps ts w :
  length (w_df (fold_left (answer_apply e) ts w)) = length (w_df w)
  /\ (forall i, (col_question <$> w_df (fold_left (answer_apply e) ts w) !! i)
                = (col_question <$> w_df w !! i))
  /\ w_answer_progress w ⊆ w_answer_progress (fold_left (answer_apply e) ts w).
Proof.
  revert w. induction ts as [|t ts IHts]; intros w; simpl; [done|].
  destruct (IHts (answer_apply e w t)) as (Hl & Hq & Hp).
  destruct (answer_apply_keeps w t) as (Hl' & Hq' & Hp').
  split; [by rewrite Hl|]. split; [intros i; by rewrite Hq|].
  etrans; [exact Hp'|exact Hp].
Qed.

Lemma context_fold_keeps ts w :
  length (w_df (fold_left (context_apply e) ts w)) = length (w_df w)
  /\ (forall i, (col_question <$> w_df (fold_left (context_apply e) ts w) !! i)
                = (col_question <$> w_df w !! i))
  /\ w_context_progress w ⊆ w_context_progress (fold_left (context_apply e) ts w).
Proof.
  revert w. induction ts as [|t ts IHts]; intros w; simpl; [done|].
  destruct (IHts (context_apply e w t)) as (Hl & Hq & Hp).
  destruct (context_apply_keeps w t) as (Hl' & Hq' & Hp').
  split; [by rewrite Hl|]. split; [intros i; by rewrite Hq|].
  etrans; [exact Hp'|exact Hp].
Qed.

End ContextLoopFacts.

Section RestoreFacts.

Implicit Types (w : work) (df : list row).

Lemma filled_empty_cell (c : cell) : filled c = negb (empty_cell c).
Proof.
  unfold filled, empty_cell, pystr_eqb. destruct (isna c); [done|]. simpl.
  destruct (strip (str_of c)); by simpl.
Qed.

Lemma merge_one_question saved fresh :
  col_question (merge_one saved fresh) = col_question fresh.
Proof.
  unfold merge_one.
  by destruct (filled (col_ai_answer saved)), (filled (col_contexts saved)).
Qed.

Lemma merge_one_answer saved fresh :
  col_ai_answer (merge_one saved fresh)
  = if filled (col_ai_answer saved) then col_ai_answer saved else col_ai_answer fresh.
Proof.
  unfold merge_one.
  by destruct (filled (col_ai_answer saved)), (filled (col_contexts saved)).
Qed.

Lemma merge_one_contexts saved fresh :
  col_contexts (merge_one saved fresh)
  = if filled (col_contexts saved) then col_contexts saved else col_contexts fresh.
Proof.
  unfold merge_one.
  by destruct (filled (col_ai_answer saved)), (filled (col_contexts saved)).
Qed.

(** The rows after the checkpoint was merged, whatever was loaded. *)
Lemma restore_row previous_state df i :
  w_df (restore previous_state df) !! i
  = match previous_state with
    | Some st =>
        match sd_df st !! i with
        | Some saved => merge_one saved <$> df !! i
        | None => df !! i
        end
    | None => df !! i
    end.
Proof.
  destruct previous_state as [st|]; [|done].
  unfold restore, iterrows. rewrite merge_fold_df.
  rewrite decide_True by lia. by rewrite Nat.sub_0_r.
Qed.

Lemma restore_length previous_state df :
  length (w_df (restore previous_state df)) = length df.
Proof.
  destruct previous_state as [st|]; [|done].
  unfold restore, iterrows. by rewrite merge_fold_length.
Qed.

Lemma restore_question previous_state df i :
  (col_question <$> w_df (restore previous_state df) !! i) = (col_question <$> df !! i).
Proof.
  rewrite restore_row. destruct previous_state as [st|]; [|done].
  destruct (sd_df st !! i) as [saved|]; [|done].
  destruct (df !! i); [|done]. simpl. by rewrite merge_one_question.
Qed.

(** A restored row whose answer is empty has the uploaded answer, and
    likewise for the context. *)
Lemma restore_empty_answer previous_state df i r :
  w_df (restore previous_state df) !! i = Some r ->
  empty_cell (col_ai_answer r) = true ->
  (col_ai_answer <$> df !! i) = Some (col_ai_answer r).
Proof.
  rewrite restore_row. destruct previous_state as [st|]; [|by intros ->].
  destruct (sd_df st !! i) as [saved|]; [|by intros ->].
  destruct (df !! i) as [d|]; [|done]. simpl. intros [= <-].
  rewrite merge_one_answer. destruct (filled (col_ai_answer saved)) eqn:Hf; [|done].
  rewrite filled_empty_cell in Hf. intros He. by rewrite He in Hf.
Qed.

Lemma restore_empty_contexts previous_state df i r :
  w_df (restore previous_state df) !! i = Some r ->
  empty_cell (col_contexts r) = true ->
  (col_contexts <$> df !! i) = Some (col_contexts r).
Proof.
  rewrite restore_row. destruct previous_state as [st|]; [|by intros ->].
  destruct (sd_df st !! i) as [saved|]; [|by intros ->].
  destruct (df !! i) as [d|]; [|done]. simpl. intros [= <-].
  rewrite merge_one_contexts. destruct (filled (col_contexts saved)) eqn:Hf; [|done].
  rewrite filled_empty_cell in Hf. intros He. by rewrite He in Hf.
Qed.

(** The indices the merge loop adds to the answer progress set. *)
Lemma merge_fold_answer_progress rows k w i :
  i ∈ w_answer_progress (fold_left merge_row (zip (seq k (length rows)) rows) w) <->
  i ∈ w_answer_progress w
  \/ (k <= i /\ i < length (w_df w)
      /\ exists saved, rows !! (i - k) = Some saved /\ filled (col_ai_answer saved) = true).
Proof.
  revert k w. induction rows as [|saved rows IHrows]; intros k w; simpl.
  { split; [by left|]. intros [H|(_ & _ & s & Hs & _)]; [done|by rewrite lookup_nil in Hs]. }
  rewrite IHrows, merge_row_df, length_alter.
  assert (i ∈ w_answer_progress (merge_row w (k, saved)) <->
          i ∈ w_answer_progress w
          \/ (i = k /\ k < length (w_df w) /\ filled (col_ai_answer saved) = true)) as ->.
  { unfold merge_row. simpl.
    destruct (k <? length (w_df w)) eqn:Hlt.
    - apply Nat.ltb_lt in Hlt.
      destruct (filled (col_ai_answer saved)) eqn:Ha, (filled (col_contexts saved)); simpl;
        rewrite ?elem_of_union, ?elem_of_singleton; intuition (try congruence).
    - apply Nat.ltb_ge in Hlt. split; [by left|]. intros [H|(-> & H & _)]; [done|lia]. }
  split.
  - intros [[H|(-> & Hlt & Hf)]|(Hle & Hlt & s & Hs & Hf)].
    + by left.
    + right. split; [lia|]. split; [done|]. exists saved. by rewrite Nat.sub_diag.
    + right. split; [lia|]. split; [done|]. exists s.
      replace (i - k) with (S (i - S k)) by lia. done.
  - intros [H|(Hle & Hlt & s & Hs & Hf)]; [by left; left|].
    destruct (decide (i = k)) as [->|Hne].
    + rewrite Nat.sub_diag in Hs. simpl in Hs. injection Hs as ->. left. right. done.
    + right. split; [lia|]. split; [done|]. exists s.
      replace (i - k) with (S (i - S k)) in Hs by lia. done.
Qed.

Lemma merge_fold_context_progress rows k w i :
  i ∈ w_context_progress (fold_left merge_row (zip (seq k (length rows)) rows) w) <->
  i ∈ w_context_progress w
  \/ (k <= i /\ i < length (w_df w)
      /\ exists saved, rows !! (i - k) = Some saved /\ filled (col_contexts saved) = true).
Proof.
  revert k w. induction rows as [|saved rows IHrows]; intros k w; simpl.
  { split; [by left|]. intros [H|(_ & _ & s & Hs & _)]; [done|by rewrite lookup_nil in Hs]. }
  rewrite IHrows, merge_row_df, length_alter.
  assert (i ∈ w_context_progress (merge_row w (k, saved)) <->
          i ∈ w_context_progress w
          \/ (i = k /\ k < length (w_df w) /\ filled (col_contexts saved) = true)) as ->.
  { unfold merge_row. simpl.
    destruct (k <? length (w_df w)) eqn:Hlt.
    - apply Nat.ltb_lt in Hlt.
      destruct (filled (col_ai_answer saved)), (filled (col_contexts saved)) eqn:Hc; simpl;
        rewrite ?elem_of_union, ?elem_of_singleton; intuition (try congruence).
    - apply Nat.ltb_ge in Hlt. split; [by left|]. intros [H|(-> & H & _)]; [done|lia]. }
  split.
  - intros [[H|(-> & Hlt & Hf)]|(Hle & Hlt & s & Hs & Hf)].
    + by left.
    + right. split; [lia|]. split; [done|]. exists saved. by rewrite Nat.sub_diag.
    + right. split; [lia|]. split; [done|]. exists s.
      replace (i - k) with (S (i - S k)) by lia. done.
  - intros [H|(Hle & Hlt & s & Hs & Hf)]; [by left; left|].
    destruct (decide (i = k)) as [->|Hne].
    + rewrite Nat.sub_diag in Hs. simpl in Hs. injection Hs as ->. left. right. done.
    + right. split; [lia|]. split; [done|]. exists s.
      replace (i - k) with (S (i - S k)) in Hs by lia. done.
Qed.

End RestoreFacts.

Section MoreRunFacts.

Implicit Types (w : work) (e : env) (fs : store) (df : list row).

Lemma context_task_index cp ir t : context_task cp ir = Some t -> t.1 = ir.1.
Proof.
  unfold context_task. destruct (question_blank ir.2); [done|].
  destruct (_ && _); [|done]. by intros [= <-].
Qed.

(** At most one context task per row. *)
Lemma context_tasks_NoDup w : NoDup (snd (collect_tasks w)).*1.
Proof.
  rewrite collect_tasks_omap. simpl.
  eapply sublist_NoDup; [|apply omap_index_sublist, context_task_index].
  unfold iterrows. rewrite fst_zip by (by rewrite length_seq).
  apply NoDup_seq.
Qed.

(** The state a run starts from when the previous one saved its own. *)
Lemma rerun_restored e fs h df e' df' :
  run_saved (process_method2_file e fs h df) = true ->
  exists now,
    run_restored
      (process_method2_file e' (run_store (process_method2_file e fs h df)) h df')
    = restore
        (Some (StateData h (w_df (run_work (process_method2_file e fs h df)))
                 (elements (w_answer_progress (run_work (process_method2_file e fs h df))))
                 (elements (w_context_progress (run_work (process_method2_file e fs h df))))
                 now))
        df'.
Proof.
  intros Hsaved.
  set (r1 := process_method2_file e fs h df) in *.
  assert (exists now fs0 sweep fault,
             run_saved r1
             = snd (save_processing_state sweep now fault fs0 h (w_df (run_work r1))
                      (w_answer_progress (run_work r1)) (w_context_progress (run_work r1)))
             /\ run_store r1
                = fst (save_processing_state sweep now fault fs0 h (w_df (run_work r1))
                         (w_answer_progress (run_work r1)) (w_context_progress (run_work r1))))
    as (now & fs0 & sweep & fault & Hs & Hst).
  { unfold r1, process_method2_file. simpl. by eexists _, _, _, _. }
  rewrite Hs in Hsaved. clearbody r1.
  pose proof (save_true_written _ _ _ _ _ _ _ _ Hsaved) as Hfile.
  rewrite <- Hst in Hfile. apply load_pickled in Hfile.
  exists now. by rewrite run_restored_unfold, Hfile.
Qed.

End MoreRunFacts.

(** C6: whatever the completion order, a fetch task of either kind whose
    fetch fails (a result without success, or an exception) leaves the
    fields of its row that it would have written as they were, still
    empty, and its index out of the progress set of its kind, while every
    task whose fetch succeeds has its index in that set and its result in
    the row: the answer and the note for an answer task, the context for a
    context task.  With three rows and a service that fails for the second
    one only (index 1; the rows are indexed from 0), the run ends with
    answer progress [{0, 2}], the second row's answer empty, and the next
    run on the saved state builds exactly one answer task, for the second
    row. *)
Theorem failed_fetch_is_contained :
  (forall e fs h df t,
      (forall l, completion e l ≡ₚ l) ->
      t ∈ run_answer_tasks (process_method2_file e fs h df) ->
      match answer_fetched e t with
      | None =>
          (t.1 ∉ w_answer_progress (run_work (process_method2_file e fs h df)))
          /\ (col_ai_answer <$> w_df (run_work (process_method2_file e fs h df)) !! t.1)
             = (col_ai_answer <$> w_df (run_restored (process_method2_file e fs h df)) !! t.1)
          /\ (col_reference <$> w_df (run_work (process_method2_file e fs h df)) !! t.1)
             = (col_reference <$> w_df (run_restored (process_method2_file e fs h df)) !! t.1)
          /\ (exists r, w_df (run_work (process_method2_file e fs h df)) !! t.1 = Some r
                        /\ empty_cell (col_ai_answer r) = true)
      | Some res =>
          t.1 ∈ w_answer_progress (run_work (process_method2_file e fs h df))
          /\ (col_ai_answer <$> w_df (run_work (process_method2_file e fs h df)) !! t.1)
             = Some (Str (ai_answer res))
          /\ (col_reference <$> w_df (run_work (process_method2_file e fs h df)) !! t.1)
             = Some (Str (reference res))
      end)
  /\ w_answer_progress (run_work (process_method2_file flaky_env ∅ (lit "0f") three_questions))
     = {[0; 2]}
  /\ (col_ai_answer <$>
        w_df (run_work (process_method2_file flaky_env ∅ (lit "0f") three_questions)) !! 1)
     = Some (Str [])
  /\ run_answer_tasks
       (process_method2_file flaky_env
          (run_store (process_method2_file flaky_env ∅ (lit "0f") three_questions))
          (lit "0f") three_questions)
     = [(1, lit "What is B?")]
  /\ (forall e fs h df t,
      (forall l, completion e l ≡ₚ l) ->
      t ∈ run_context_tasks (process_method2_file e fs h df) ->
      match context_fetched e t with
      | None =>
          (t.1 ∉ w_context_progress (run_work (process_method2_file e fs h df)))
          /\ (col_contexts <$> w_df (run_work (process_method2_file e fs h df)) !! t.1)
             = (col_contexts <$> w_df (run_restored (process_method2_file e fs h df)) !! t.1)
          /\ (exists r, w_df (run_work (process_method2_file e fs h df)) !! t.1 = Some r
                        /\ empty_cell (col_contexts r) = true)
      | Some c =>
          t.1 ∈ w_context_progress (run_work (process_method2_file e fs h df))
          /\ (col_contexts <$> w_df (run_work (process_method2_file e fs h df)) !! t.1)
             = Some (Str c)
      end)
  /\ w_context_progress
       (run_work (process_method2_file flaky_env ∅ (lit "0f") three_questions))
     = {[0; 1; 2]}.
Proof.
  split.
  - intros e fs h df t Hperm Ht.
    destruct (run_work_unfold e fs h df) as (Hwork & Hat & Hct).
    set (r := process_method2_file e fs h df) in *. clearbody r.
    rewrite Hwork.
    set (w0 := run_restored r) in *.
    set (wa := fold_left (answer_apply e) (completion e (run_answer_tasks r)) w0).
    assert (NoDup (completion e (run_answer_tasks r)).*1) as Hnd.
    { rewrite (Hperm (run_answer_tasks r)), Hat. apply answer_tasks_NoDup. }
    assert (t ∈ completion e (run_answer_tasks r)) as Hin.
    { by rewrite (Hperm (run_answer_tasks r)). }
    pose proof (answer_fold_at e (completion e (run_answer_tasks r)) w0 t Hnd Hin) as Hfold.
    fold wa in Hfold.
    rewrite Hat in Ht. destruct t as [i q].
    apply answer_task_elem in Ht as (r0 & Hr0 & _ & Hnot & Hempty & _).
    fold w0 in Hr0, Hnot. cbn [fst] in *.
    destruct (context_fold_answer_side e (completion e (run_context_tasks r)) wa i)
      as (Hcp & Hca & Hcr).
    destruct (answer_fetched e (i, q)) as [res|].
    + destruct Hfold as [Hm Hrow].
      split; [by rewrite Hcp|].
      rewrite Hca, Hcr, Hrow, Hr0. by split.
    + destruct Hfold as [Hrow Hm].
      split; [by rewrite Hcp, Hm|].
      split; [by rewrite Hca, Hrow|].
      split; [by rewrite Hcr, Hrow|].
      rewrite Hrow, Hr0 in Hca. simpl in Hca.
      destruct (w_df (fold_left (context_apply e) _ wa) !! i) as [rf|]; [|done].
      exists rf. split; [done|]. injection Hca as ->. done.
  - split; [by vm_compute|]. split; [by vm_compute|]. split; [by vm_compute|].
    split; [|by vm_compute].
    intros e fs h df t Hperm Ht.
    destruct (run_work_unfold e fs h df) as (Hwork & Hat & Hct).
    set (r := process_method2_file e fs h df) in *. clearbody r.
    rewrite Hwork.
    set (w0 := run_restored r) in *.
    set (wa := fold_left (answer_apply e) (completion e (run_answer_tasks r)) w0).
    assert (NoDup (completion e (run_context_tasks r)).*1) as Hnd.
    { rewrite (Hperm (run_context_tasks r)), Hct. apply context_tasks_NoDup. }
    assert (t ∈ completion e (run_context_tasks r)) as Hin.
    { by rewrite (Hperm (run_context_tasks r)). }
    pose proof (context_fold_at e (completion e (run_context_tasks r)) wa t Hnd Hin)
      as Hfold.
    rewrite Hct in Ht. destruct t as [i q].
    apply context_task_elem in Ht as (r0 & Hr0 & _ & Hnot & Hempty & _).
    fold w0 in Hr0, Hnot. cbn [fst] in *.
    destruct (answer_fold_context_side e (completion e (run_answer_tasks r)) w0 i)
      as (Hacp & Hac).
    fold wa in Hacp, Hac.
    destruct (context_fetched e (i, q)) as [c|].
    + destruct Hfold as [Hm Hrow]. split; [done|].
      rewrite Hrow. destruct (w_df wa !! i) as [ra|] eqn:Hra; [done|].
      rewrite Hr0 in Hac. done.
    + destruct Hfold as [Hrow Hm].
      split; [by rewrite Hm, Hacp|].
      split; [by rewrite Hrow, Hac|].
      rewrite Hrow. rewrite Hr0 in Hac. simpl in Hac.
      destruct (w_df wa !! i) as [ra|]; [|done].
      exists ra. split; [done|]. injection Hac as ->. done.
Qed.

Lemma failed_fetch_is_contained_witness :
  (1 ∉ w_answer_progress
         (run_work (process_method2_file flaky_env ∅ (lit "0f") three_questions)))
  /\ (0 ∈ w_answer_progress
            (run_work (process_method2_file flaky_env ∅ (lit "0f") three_questions)))
  /\ (1 ∈ w_context_progress
            (run_work (process_method2_file flaky_env ∅ (lit "0f") three_questions))).
Proof.
  destruct failed_fetch_is_contained as (H & _ & _ & _ & Hc & _).
  assert (forall l, completion flaky_env l ≡ₚ l) as Hperm.
  { intros l. simpl. symmetry. apply Permutation_rev. }
  pose proof (H flaky_env ∅ (lit "0f") three_questions (1, lit "What is B?") Hperm) as H1.
  pose proof (H flaky_env ∅ (lit "0f") three_questions (0, lit "What is A?") Hperm) as H0.
  split.
  - assert ((1, lit "What is B?")
            ∈ run_answer_tasks (process_method2_file flaky_env ∅ (lit "0f") three_questions))
      as Hin by (apply (bool_decide_unpack _); vm_compute; exact I).
    specialize (H1 Hin).
    change (answer_fetched flaky_env (1, lit "What is B?"))
      with (@None answer_result) in H1.
    apply H1.
  - assert ((0, lit "What is A?")
            ∈ run_answer_tasks (process_method2_file flaky_env ∅ (lit "0f") three_questions))
      as Hin by (apply (bool_decide_unpack _); vm_compute; exact I).
    specialize (H0 Hin).
    change (answer_fetched flaky_env (0, lit "What is A?"))
      with (Some (AnswerResult (lit "an answer") (lit "- handbook.doc") true)) in H0.
    split; [apply H0|].
    assert ((1, lit "What is B?")
            ∈ run_context_tasks
                (process_method2_file flaky_env ∅ (lit "0f") three_questions))
      as Hinc by (apply (bool_decide_unpack _); vm_compute; exact I).
    pose proof (Hc flaky_env ∅ (lit "0f") three_questions (1, lit "What is B?")
                  Hperm Hinc) as H2.
    change (context_fetched flaky_env (1, lit "What is B?"))
      with (Some (lit "a retrieved passage of text")) in H2.
    apply H2.
Defined.

(** X1: a run never adds or drops a row and never changes a question, and
    its two progress sets only grow from what the checkpoint restored,
    whatever the services answer and in whatever order the tasks
    complete. *)
Theorem run_keeps_rows_and_grows_progress (e : env) (fs : store) (h : pystr)
    (df : list row) :
  length (w_df (run_work (process_method2_file e fs h df))) = length df
  /\ (forall i,
         (col_question <$> w_df (run_work (process_method2_file e fs h df)) !! i)
         = (col_question <$> df !! i))
  /\ w_answer_progress (run_restored (process_method2_file e fs h df))
     ⊆ w_answer_progress (run_work (process_method2_file e fs h df))
  /\ w_context_progress (run_restored (process_method2_file e fs h df))
     ⊆ w_context_progress (run_work (process_method2_file e fs h df)).
Proof.
  destruct (run_work_unfold e fs h df) as (Hwork & _ & _).
  pose proof (run_restored_unfold e fs h df) as Hrest.
  set (r := process_method2_file e fs h df) in *. clearbody r.
  rewrite Hwork.
  set (ats := completion e (run_answer_tasks r)).
  set (cts := completion e (run_context_tasks r)).
  set (w0 := run_restored r) in *.
  destruct (answer_fold_keeps e ats w0) as (Hal & Haq & Hap).
  destruct (context_fold_keeps e cts (fold_left (answer_apply e) ats w0))
    as (Hcl & Hcq & Hcp).
  split; [by rewrite Hcl, Hal, Hrest, restore_length|].
  split.
  { intros i. by rewrite Hcq, Haq, Hrest, restore_question. }
  split.
  - destruct (context_fold_answer_side e cts (fold_left (answer_apply e) ats w0) 0)
      as (-> & _). exact Hap.
  - destruct (answer_fold_context_side e ats w0 0) as (Heq & _).
    rewrite <- Heq. exact Hcp.
Qed.

(** X2: whatever the completion order, a context task whose fetch fails
    (no success flag, or an exception) leaves the context of its row as it
    was, still empty, and its index out of the context progress set, while
    every context task whose fetch succeeds has its index in the set and
    the fetched text in the row. *)
Theorem failed_context_fetch_is_contained (e : env) (fs : store) (h : pystr)
    (df : list row) (t : nat * pystr) :
  (forall l, completion e l ≡ₚ l) ->
  t ∈ run_context_tasks (process_method2_file e fs h df) ->
  match context_fetched e t with
  | None =>
      (t.1 ∉ w_context_progress (run_work (process_method2_file e fs h df)))
      /\ (col_contexts <$> w_df (run_work (process_method2_file e fs h df)) !! t.1)
         = (col_contexts <$> w_df (run_restored (process_method2_file e fs h df)) !! t.1)
      /\ (exists r, w_df (run_work (process_method2_file e fs h df)) !! t.1 = Some r
                    /\ empty_cell (col_contexts r) = true)
  | Some c =>
      t.1 ∈ w_context_progress (run_work (process_method2_file e fs h df))
      /\ (col_contexts <$> w_df (run_work (process_method2_file e fs h df)) !! t.1)
         = Some (Str c)
  end.
Proof.
  intros Hperm Ht.
  destruct (run_work_unfold e fs h df) as (Hwork & Hat & Hct).
  set (r := process_method2_file e fs h df) in *. clearbody r.
  rewrite Hwork.
  set (w0 := run_restored r) in *.
  set (wa := fold_left (answer_apply e) (completion e (run_answer_tasks r)) w0).
  assert (NoDup (completion e (run_context_tasks r)).*1) as Hnd.
  { rewrite (Hperm (run_context_tasks r)), Hct. apply context_tasks_NoDup. }
  assert (t ∈ completion e (run_context_tasks r)) as Hin.
  { by rewrite (Hperm (run_context_tasks r)). }
  pose proof (context_fold_at e (completion e (run_context_tasks r)) wa t Hnd Hin) as Hfold.
  rewrite Hct in Ht. destruct t as [i q].
  apply context_task_elem in Ht as (r0 & Hr0 & _ & Hnot & Hempty & _).
  fold w0 in Hr0, Hnot. cbn [fst] in *.
  destruct (answer_fold_context_side e (completion e (run_answer_tasks r)) w0 i)
    as (Hacp & Hac).
  fold wa in Hacp, Hac.
  destruct (context_fetched e (i, q)) as [c|].
  - destruct Hfold as [Hm Hrow]. split; [done|].
    rewrite Hrow. destruct (w_df wa !! i) as [ra|] eqn:Hra; [done|].
    rewrite Hr0 in Hac. done.
  - destruct Hfold as [Hrow Hm].
    split; [by rewrite Hm, Hacp|].
    split; [by rewrite Hrow, Hac|].
    rewrite Hrow. rewrite Hr0 in Hac. simpl in Hac.
    destruct (w_df wa !! i) as [ra|]; [|done].
    exists ra. split; [done|]. injection Hac as ->. done.
Qed.

Lemma failed_context_fetch_is_contained_witness :
  (0 ∈ w_context_progress
         (run_work (process_method2_file flaky_env ∅ (lit "0f") three_questions)))
  /\ (col_contexts <$>
        w_df (run_work (process_method2_file flaky_env ∅ (lit "0f") three_questions)) !! 0)
     = Some (Str (lit "a retrieved passage of text")).
Proof.
  assert (forall l, completion flaky_env l ≡ₚ l) as Hperm.
  { intros l. simpl. symmetry. apply Permutation_rev. }
  assert ((0, lit "What is A?")
          ∈ run_context_tasks (process_method2_file flaky_env ∅ (lit "0f") three_questions))
    as Hin by (apply (bool_decide_unpack _); vm_compute; exact I).
  pose proof (failed_context_fetch_is_contained flaky_env ∅ (lit "0f") three_questions
                (0, lit "What is A?") Hperm Hin) as H.
  change (context_fetched flaky_env (0, lit "What is A?"))
    with (Some (lit "a retrieved passage of text")) in H.
  exact H.
Defined.

Section RerunFacts.

Implicit Types (w : work) (e : env) (fs : store) (df : list row).

Lemma restore_answer_progress st df i :
  i ∈ w_answer_progress (restore (Some st) df) <->
  i ∈ (list_to_set (sd_answer_progress st) : gset nat)
  \/ (i < length df
      /\ exists saved, sd_df st !! i = Some saved /\ filled (col_ai_answer saved) = true).
Proof.
  unfold restore, iterrows. rewrite merge_fold_answer_progress. simpl.
  rewrite Nat.sub_0_r. split.
  - intros [H|(_ & Hlt & Hs)]; [by left|by right].
  - intros [H|(Hlt & Hs)]; [by left|]. right. split; [lia|done].
Qed.

Lemma restore_context_progress st df i :
  i ∈ w_context_progress (restore (Some st) df) <->
  i ∈ (list_to_set (sd_context_progress st) : gset nat)
  \/ (i < length df
      /\ exists saved, sd_df st !! i = Some saved /\ filled (col_contexts saved) = true).
Proof.
  unfold restore, iterrows. rewrite merge_fold_context_progress. simpl.
  rewrite Nat.sub_0_r. split.
  - intros [H|(_ & Hlt & Hs)]; [by left|by right].
  - intros [H|(Hlt & Hs)]; [by left|]. right. split; [lia|done].
Qed.

Lemma question_blank_same (r r' : row) :
  col_question r = col_question r' -> question_blank r = question_blank r'.
Proof. unfold question_blank. by intros ->. Qed.

(** The answer tasks of a run that starts from the state [wf] that a
    first run reached from [w0]: [w0] and [wf] are related as the two
    loops relate them. *)
Lemma rerun_answer_tasks e previous_state df h now ats cts (t : nat * pystr) :
  let w0 := restore previous_state df in
  let wa := fold_left (answer_apply e) ats w0 in
  let wf := fold_left (context_apply e) cts wa in
  ats ≡ₚ fst (collect_tasks w0) ->
  t ∈ fst (collect_tasks
             (restore (Some (StateData h (w_df wf) (elements (w_answer_progress wf))
                               (elements (w_context_progress wf)) now)) df))
  <-> t ∈ fst (collect_tasks w0) /\ answer_fetched e t = None.
Proof.
  intros w0 wa wf Hperm. destruct t as [i q].
  assert (NoDup ats.*1) as Hnd by (rewrite Hperm; apply answer_tasks_NoDup).
  destruct (answer_fold_keeps e ats w0) as (Hal & Haq & Hap). fold wa in Hal, Haq, Hap.
  destruct (context_fold_keeps e cts wa) as (Hcl & Hcq & _). fold wf in Hcl, Hcq.
  destruct (context_fold_answer_side e cts wa i) as (Hfp & Hfa & _).
  fold wf in Hfp, Hfa.
  assert (length (w_df wf) = length df) as Hlen.
  { rewrite Hcl, Hal. apply restore_length. }
  rewrite !answer_task_elem.
  setoid_rewrite restore_answer_progress. setoid_rewrite restore_row. simpl.
  setoid_rewrite list_to_set_elements_L.
  split.
  - intros (r' & Hr' & Hq' & Hnot & Hemp & ->).
    destruct (w_df wf !! i) as [sv|] eqn:Hsv; cycle 1.
    { apply lookup_ge_None in Hsv. apply lookup_lt_Some in Hr'. lia. }
    destruct (df !! i) as [d|] eqn:Hd; [|done]. simpl in Hr'. injection Hr' as <-.
    assert (i < length df) as Hlt by (by apply lookup_lt_Some in Hd).
    assert (i ∉ w_answer_progress wf) as Hnf by (intros H; apply Hnot; by left).
    assert (filled (col_ai_answer sv) = false) as Hsvf.
    { destruct (filled (col_ai_answer sv)) eqn:E; [|done].
      exfalso. apply Hnot. right. split; [done|]. by exists sv. }
    rewrite merge_one_answer, Hsvf in Hemp.
    rewrite (question_blank_same _ d (merge_one_question sv d)) in Hq'.
    rewrite merge_one_question.
    destruct (w_df w0 !! i) as [r0|] eqn:Hr0; cycle 1.
    { apply lookup_ge_None in Hr0. unfold w0 in Hr0. rewrite restore_length in Hr0. lia. }
    assert (col_question r0 = col_question d) as Hqd.
    { pose proof (restore_question previous_state df i) as Hq. fold w0 in Hq.
      rewrite Hr0, Hd in Hq. by injection Hq. }
    assert (empty_cell (col_ai_answer r0) = true) as Hr0e.
    { destruct (empty_cell (col_ai_answer r0)) eqn:E; [done|]. exfalso.
      assert (i ∉ ats.*1) as Hni.
      { rewrite Hperm. intros Hin. apply list_elem_of_fmap in Hin as ([j q'] & Hj & Hin).
        simpl in Hj. subst j.
        apply answer_task_elem in Hin as (r1 & Hr1 & _ & _ & He1 & _).
        rewrite Hr0 in Hr1. injection Hr1 as <-. by rewrite He1 in E. }
      destruct (answer_fold_other e ats w0 i Hni) as [Hrow _]. fold wa in Hrow.
      rewrite Hrow, Hr0 in Hfa. simpl in Hfa. injection Hfa as Hfa.
      rewrite filled_empty_cell, Hfa, E in Hsvf. done. }
    split.
    + exists r0. split; [done|].
      split; [by rewrite (question_blank_same r0 d)|].
      split; [intros H; apply Hnf; rewrite Hfp; by apply Hap|].
      split; [done|]. by rewrite Hqd.
    + destruct (answer_fetched e _) as [res|] eqn:Hf; [|done]. exfalso.
      assert ((i, strip (str_of (col_question d))) ∈ ats) as Hin.
      { rewrite Hperm. apply answer_task_elem. exists r0. split; [done|].
        split; [by rewrite (question_blank_same r0 d)|].
        split; [intros H; apply Hnf; rewrite Hfp; by apply Hap|].
        split; [done|]. by rewrite Hqd. }
      pose proof (answer_fold_at e ats w0 _ Hnd Hin) as Hat. fold wa in Hat.
      rewrite Hf in Hat. destruct Hat as [Hm _]. apply Hnf. by rewrite Hfp.
  - intros [(r0 & Hr0 & Hq0 & Hnot & Hemp & ->) Hf].
    fold w0 in Hr0, Hnot.
    assert ((i, strip (str_of (col_question r0))) ∈ ats) as Hin.
    { rewrite Hperm. apply answer_task_elem. by exists r0. }
    pose proof (answer_fold_at e ats w0 _ Hnd Hin) as Hat. fold wa in Hat.
    rewrite Hf in Hat. cbn [fst] in Hat. destruct Hat as [Hrow Hm].
    rewrite Hrow, Hr0 in Hfa. simpl in Hfa.
    destruct (w_df wf !! i) as [sv|] eqn:Hsv; [|done]. simpl in Hfa. injection Hfa as Hfa.
    pose proof (restore_empty_answer previous_state df i r0 Hr0 Hemp) as Hda.
    destruct (df !! i) as [d|] eqn:Hd; [|done]. simpl in Hda. injection Hda as Hda.
    assert (col_question r0 = col_question d) as Hqd.
    { pose proof (restore_question previous_state df i) as Hq. fold w0 in Hq.
      rewrite Hr0, Hd in Hq. by injection Hq. }
    assert (filled (col_ai_answer sv) = false) as Hsvf.
    { by rewrite filled_empty_cell, Hfa, Hemp. }
    exists (merge_one sv d). split; [done|].
    rewrite merge_one_question, merge_one_answer, Hsvf.
    rewrite (question_blank_same _ d (merge_one_question sv d)).
    split; [by rewrite <- (question_blank_same r0 d)|].
    split.
    { intros [H|(_ & s & Hs & Hsf)].
      - rewrite Hfp in H. by apply Hnot, Hm.
      - injection Hs as <-. by rewrite Hsf in Hsvf. }
    split; [by rewrite Hda|]. by rewrite Hqd.
Qed.

(** The same for the context tasks. *)
Lemma rerun_context_tasks e previous_state df h now ats cts (t : nat * pystr) :
  let w0 := restore previous_state df in
  let wa := fold_left (answer_apply e) ats w0 in
  let wf := fold_left (context_apply e) cts wa in
  cts ≡ₚ snd (collect_tasks w0) ->
  t ∈ snd (collect_tasks
             (restore (Some (StateData h (w_df wf) (elements (w_answer_progress wf))
                               (elements (w_context_progress wf)) now)) df))
  <-> t ∈ snd (collect_tasks w0) /\ context_fetched e t = None.
Proof.
  intros w0 wa wf Hperm. destruct t as [i q].
  assert (NoDup cts.*1) as Hnd by (rewrite Hperm; apply context_tasks_NoDup).
  destruct (answer_fold_keeps e ats w0) as (Hal & Haq & _). fold wa in Hal, Haq.
  destruct (context_fold_keeps e cts wa) as (Hcl & Hcq & Hcp). fold wf in Hcl, Hcq, Hcp.
  destruct (answer_fold_context_side e ats w0 i) as (Hacp & Hac).
  fold wa in Hacp, Hac.
  assert (length (w_df wf) = length df) as Hlen.
  { rewrite Hcl, Hal. apply restore_length. }
  rewrite !context_task_elem.
  setoid_rewrite restore_context_progress. setoid_rewrite restore_row. simpl.
  setoid_rewrite list_to_set_elements_L.
  split.
  - intros (r' & Hr' & Hq' & Hnot & Hemp & ->).
    destruct (w_df wf !! i) as [sv|] eqn:Hsv; cycle 1.
    { apply lookup_ge_None in Hsv. apply lookup_lt_Some in Hr'. lia. }
    destruct (df !! i) as [d|] eqn:Hd; [|done]. simpl in Hr'. injection Hr' as <-.
    assert (i < length df) as Hlt by (by apply lookup_lt_Some in Hd).
    assert (i ∉ w_context_progress wf) as Hnf by (intros H; apply Hnot; by left).
    assert (filled (col_contexts sv) = false) as Hsvf.
    { destruct (filled (col_contexts sv)) eqn:E; [|done].
      exfalso. apply Hnot. right. split; [done|]. by exists sv. }
    rewrite merge_one_contexts, Hsvf in Hemp.
    rewrite (question_blank_same _ d (merge_one_question sv d)) in Hq'.
    rewrite merge_one_question.
    destruct (w_df w0 !! i) as [r0|] eqn:Hr0; cycle 1.
    { apply lookup_ge_None in Hr0. unfold w0 in Hr0. rewrite restore_length in Hr0. lia. }
    assert (col_question r0 = col_question d) as Hqd.
    { pose proof (restore_question previous_state df i) as Hq. fold w0 in Hq.
      rewrite Hr0, Hd in Hq. by injection Hq. }
    assert (i ∉ w_context_progress w0) as Hn0.
    { intros H. apply Hnf, Hcp. by rewrite Hacp. }
    assert (empty_cell (col_contexts r0) = true) as Hr0e.
    { destruct (empty_cell (col_contexts r0)) eqn:E; [done|]. exfalso.
      assert (i ∉ cts.*1) as Hni.
      { rewrite Hperm. intros Hin. apply list_elem_of_fmap in Hin as ([j q'] & Hj & Hin).
        simpl in Hj. subst j.
        apply context_task_elem in Hin as (r1 & Hr1 & _ & _ & He1 & _).
        rewrite Hr0 in Hr1. injection Hr1 as <-. by rewrite He1 in E. }
      destruct (context_fold_other e cts wa i Hni) as [Hrow _]. fold wf in Hrow.
      rewrite Hsv in Hrow. rewrite <- Hrow in Hac. simpl in Hac. injection Hac as Hac.
      rewrite filled_empty_cell, Hac, E in Hsvf. done. }
    split.
    + exists r0. split; [done|].
      split; [by rewrite (question_blank_same r0 d)|].
      split; [done|]. split; [done|]. by rewrite Hqd.
    + destruct (context_fetched e _) as [c|] eqn:Hf; [|done]. exfalso.
      assert ((i, strip (str_of (col_question d))) ∈ cts) as Hin.
      { rewrite Hperm. apply context_task_elem. exists r0. split; [done|].
        split; [by rewrite (question_blank_same r0 d)|].
        split; [done|]. split; [done|]. by rewrite Hqd. }
      pose proof (context_fold_at e cts wa _ Hnd Hin) as Hat. fold wf in Hat.
      rewrite Hf in Hat. destruct Hat as [Hm _]. by apply Hnf.
  - intros [(r0 & Hr0 & Hq0 & Hnot & Hemp & ->) Hf].
    fold w0 in Hr0, Hnot.
    assert ((i, strip (str_of (col_question r0))) ∈ cts) as Hin.
    { rewrite Hperm. apply context_task_elem. by exists r0. }
    pose proof (context_fold_at e cts wa _ Hnd Hin) as Hat. fold wf in Hat.
    rewrite Hf in Hat. cbn [fst] in Hat. destruct Hat as [Hrow Hm].
    rewrite Hr0 in Hac. simpl in Hac.
    destruct (w_df wa !! i) as [ra|] eqn:Hra; [|done]. simpl in Hac. injection Hac as Hac.
    pose proof (restore_empty_contexts previous_state df i r0 Hr0 Hemp) as Hda.
    destruct (df !! i) as [d|] eqn:Hd; [|done]. simpl in Hda. injection Hda as Hda.
    assert (col_question r0 = col_question d) as Hqd.
    { pose proof (restore_question previous_state df i) as Hq. fold w0 in Hq.
      rewrite Hr0, Hd in Hq. by injection Hq. }
    assert (filled (col_contexts ra) = false) as Hsvf.
    { by rewrite filled_empty_cell, Hac, Hemp. }
    rewrite Hrow. exists (merge_one ra d). split; [done|].
    rewrite merge_one_question, merge_one_contexts, Hsvf.
    rewrite (question_blank_same _ d (merge_one_question ra d)).
    split; [by rewrite <- (question_blank_same r0 d)|].
    split.
    { intros [H|(_ & s & Hs & Hsf)].
      - apply Hm in H. rewrite Hacp in H. by apply Hnot.
      - injection Hs as <-. by rewrite Hsf in Hsvf. }
    split; [by rewrite Hda|]. by rewrite Hqd.
Qed.

End RerunFacts.

(** X3: when a run has saved its final state and the same sheet is
    processed again, the new run builds a task exactly for the tasks of the
    first run whose fetch failed, for answers and for contexts alike:
    nothing that succeeded is fetched again and nothing that failed is
    forgotten. *)
Theorem rerun_retries_exactly_the_failed_tasks (e e' : env) (fs : store) (h : pystr)
    (df : list row) :
  (forall l, completion e l ≡ₚ l) ->
  run_saved (process_method2_file e fs h df) = true ->
  (forall t,
      t ∈ run_answer_tasks
            (process_method2_file e' (run_store (process_method2_file e fs h df)) h df)
      <-> t ∈ run_answer_tasks (process_method2_file e fs h df)
          /\ answer_fetched e t = None)
  /\ (forall t,
      t ∈ run_context_tasks
            (process_method2_file e' (run_store (process_method2_file e fs h df)) h df)
      <-> t ∈ run_context_tasks (process_method2_file e fs h df)
          /\ context_fetched e t = None).
Proof.
  intros Hperm Hsaved.
  destruct (rerun_restored e fs h df e' df Hsaved) as [now Hrest2].
  destruct (run_work_unfold e' (run_store (process_method2_file e fs h df)) h df)
    as (_ & Hat2 & Hct2).
  rewrite Hat2, Hct2, Hrest2. clear Hat2 Hct2 Hrest2 Hsaved.
  destruct (run_work_unfold e fs h df) as (Hwork & Hat & Hct).
  pose proof (run_restored_unfold e fs h df) as Hrest.
  set (r1 := process_method2_file e fs h df) in *. clearbody r1.
  rewrite Hrest in Hwork, Hat, Hct.
  set (prev := match load_processing_state fs h with Ok r => r | Raise _ => None end) in *.
  clearbody prev.
  pose proof (rerun_answer_tasks e prev df h now (completion e (run_answer_tasks r1))
                (completion e (run_context_tasks r1))) as Ha.
  pose proof (rerun_context_tasks e prev df h now (completion e (run_answer_tasks r1))
                (completion e (run_context_tasks r1))) as Hc.
  cbv zeta in Ha, Hc. rewrite <- Hwork in Ha, Hc. rewrite <- Hat in Ha. rewrite <- Hct in Hc.
  split; intros t; [apply Ha | apply Hc]; apply Hperm.
Qed.

Lemma rerun_retries_exactly_the_failed_tasks_witness :
  (forall t,
      t ∈ run_answer_tasks
            (process_method2_file flaky_env
               (run_store (process_method2_file flaky_env ∅ (lit "0f") three_questions))
               (lit "0f") three_questions)
      <-> t ∈ run_answer_tasks (process_method2_file flaky_env ∅ (lit "0f") three_questions)
          /\ answer_fetched flaky_env t = None)
  /\ (forall t,
      t ∈ run_context_tasks
            (process_method2_file flaky_env
               (run_store (process_method2_file flaky_env ∅ (lit "0f") three_questions))
               (lit "0f") three_questions)
      <-> t ∈ run_context_tasks (process_method2_file flaky_env ∅ (lit "0f") three_questions)
          /\ context_fetched flaky_env t = None).
Proof.
  apply (rerun_retries_exactly_the_failed_tasks flaky_env flaky_env ∅ (lit "0f")
           three_questions).
  - intros l. simpl. symmetry. apply Permutation_rev.
  - by vm_compute.
Defined.

(* ===================================================================== *)
(** * The success counters *)
(* ===================================================================== *)

Section CounterFacts.

Variable e : env.
Variable file_hash : pystr.

Implicit Types (w : work) (ls : loop_state) (ts : list (nat * pystr)).

Lemma succeeded_cons {A} (fetched : nat * pystr -> option A) t ts :
  succeeded fetched (t :: ts)
  = match fetched t with
    | Some _ => t.1 :: succeeded fetched ts
    | None => succeeded fetched ts
    end.
Proof. unfold succeeded. simpl. by destruct (fetched t). Qed.

Lemma succeeded_sublist {A} (fetched : nat * pystr -> option A) ts :
  succeeded fetched ts `sublist_of` ts.*1.
Proof.
  induction ts as [|t ts IHts]; [constructor|].
  rewrite succeeded_cons, fmap_cons.
  destruct (fetched t); [by apply sublist_skip|by apply sublist_cons].
Qed.

Lemma succeeded_Permutation {A} (fetched : nat * pystr -> option A) ts ts' :
  ts ≡ₚ ts' -> succeeded fetched ts ≡ₚ succeeded fetched ts'.
Proof. intros H. unfold succeeded. by rewrite H. Qed.

Lemma answer_done_successful ls t :
  ls_successful (answer_done e file_hash ls t)
  = ls_successful ls + length (succeeded (answer_fetched e) [t]).
Proof.
  rewrite succeeded_cons. change (succeeded (answer_fetched e) []) with (@nil nat).
  unfold answer_done, answer_fetched, tick.
  destruct (answer_call e t.1 t.2) as [res|]; [|cbn [ls_successful length]; lia].
  destruct (success res); cbn [ls_successful length]; lia.
Qed.

Lemma answer_loop_successful ts ls :
  ls_successful (fold_left (answer_done e file_hash) ts ls)
  = ls_successful ls + length (succeeded (answer_fetched e) ts).
Proof.
  revert ls. induction ts as [|t ts IHts]; intros ls.
  { simpl. lia. }
  cbn [fold_left]. rewrite IHts, answer_done_successful, !succeeded_cons.
  change (succeeded (answer_fetched e) []) with (@nil nat).
  destruct (answer_fetched e t); cbn [length]; lia.
Qed.

Lemma context_done_successful ls t :
  ls_successful (context_done e file_hash ls t)
  = ls_successful ls + length (succeeded (context_fetched e) [t]).
Proof.
  rewrite succeeded_cons. change (succeeded (context_fetched e) []) with (@nil nat).
  unfold context_done, context_fetched, tick.
  destruct (context_call e t.1 t.2) as [[c [|]]|]; cbn [ls_successful length]; lia.
Qed.

Lemma context_loop_successful ts ls :
  ls_successful (fold_left (context_done e file_hash) ts ls)
  = ls_successful ls + length (succeeded (context_fetched e) ts).
Proof.
  revert ls. induction ts as [|t ts IHts]; intros ls.
  { simpl. lia. }
  cbn [fold_left]. rewrite IHts, context_done_successful, !succeeded_cons.
  change (succeeded (context_fetched e) []) with (@nil nat).
  destruct (context_fetched e t); cbn [length]; lia.
Qed.

(** The progress set after a loop: what it was, plus the rows fetched. *)
Lemma answer_fold_progress ts w :
  w_answer_progress (fold_left (answer_apply e) ts w)
  = list_to_set (succeeded (answer_fetched e) ts) ∪ w_answer_progress w.
Proof.
  revert w. induction ts as [|t ts IHts]; intros w.
  { simpl. by rewrite (left_id_L ∅ (∪)). }
  cbn [fold_left]. rewrite IHts, succeeded_cons.
  unfold answer_apply, answer_fetched.
  destruct (answer_call e t.1 t.2) as [res|]; [|done].
  destruct (success res); [|done]. simpl.
  rewrite (comm_L (∪) {[t.1]} (list_to_set _)). by rewrite (assoc_L (∪)).
Qed.

Lemma context_fold_progress ts w :
  w_context_progress (fold_left (context_apply e) ts w)
  = list_to_set (succeeded (context_fetched e) ts) ∪ w_context_progress w.
Proof.
  revert w. induction ts as [|t ts IHts]; intros w.
  { simpl. by rewrite (left_id_L ∅ (∪)). }
  cbn [fold_left]. rewrite IHts, succeeded_cons.
  unfold context_apply, context_fetched.
  destruct (context_call e t.1 t.2) as [[c [|]]|]; try done. simpl.
  rewrite (comm_L (∪) {[t.1]} (list_to_set _)). by rewrite (assoc_L (∪)).
Qed.

(** Fresh rows add to the size of a progress set one by one. *)
Lemma size_fresh_union (l : list nat) (s : gset nat) :
  NoDup l -> (forall i, i ∈ l -> i ∉ s) ->
  size (list_to_set l ∪ s) = size s + length l.
Proof.
  intros Hnd Hfresh. rewrite size_union.
  - rewrite size_list_to_set by done. lia.
  - intros i Hi Hs. apply elem_of_list_to_set in Hi. by apply (Hfresh i).
Qed.

End CounterFacts.

(** X4: the two success counters that a run reports count exactly the
    tasks whose fetch came back with something to record, and each
    progress set ends as what the checkpoint restored plus the rows of
    those tasks, so that it grows by exactly the reported number. *)
Theorem run_counts_successful_fetches (e : env) (fs : store) (h : pystr)
    (df : list row) :
  (forall l, completion e l ≡ₚ l) ->
  let r := process_method2_file e fs h df in
  run_successful_answers r = length (succeeded (answer_fetched e) (run_answer_tasks r))
  /\ run_successful_contexts r
     = length (succeeded (context_fetched e) (run_context_tasks r))
  /\ w_answer_progress (run_work r)
     = list_to_set (succeeded (answer_fetched e) (run_answer_tasks r))
       ∪ w_answer_progress (run_restored r)
  /\ w_context_progress (run_work r)
     = list_to_set (succeeded (context_fetched e) (run_context_tasks r))
       ∪ w_context_progress (run_restored r)
  /\ size (w_answer_progress (run_work r))
     = size (w_answer_progress (run_restored r)) + run_successful_answers r
  /\ size (w_context_progress (run_work r))
     = size (w_context_progress (run_restored r)) + run_successful_contexts r.
Proof.
  intros Hperm r.
  destruct (run_work_unfold e fs h df) as (Hwork & Hat & Hct).
  assert (run_successful_answers r
          = length (succeeded (answer_fetched e) (run_answer_tasks r))) as Hna.
  { unfold r, process_method2_file. cbn [run_successful_answers run_answer_tasks].
    rewrite answer_loop_successful. cbn [ls_successful].
    rewrite (succeeded_Permutation _ _ _ (Hperm _)). lia. }
  assert (run_successful_contexts r
          = length (succeeded (context_fetched e) (run_context_tasks r))) as Hnc.
  { unfold r, process_method2_file. cbn [run_successful_contexts run_context_tasks].
    rewrite context_loop_successful. cbn [ls_successful].
    rewrite (succeeded_Permutation _ _ _ (Hperm _)). lia. }
  fold r in Hwork, Hat, Hct. clearbody r.
  assert (w_answer_progress (run_work r)
          = list_to_set (succeeded (answer_fetched e) (run_answer_tasks r))
            ∪ w_answer_progress (run_restored r)) as Hpa.
  { rewrite Hwork.
    destruct (context_fold_answer_side e (completion e (run_context_tasks r))
                (fold_left (answer_apply e) (completion e (run_answer_tasks r))
                   (run_restored r)) 0) as (-> & _).
    rewrite answer_fold_progress. f_equal.
    apply set_eq. intros i. rewrite !elem_of_list_to_set.
    by rewrite (succeeded_Permutation _ _ _ (Hperm _)). }
  assert (w_context_progress (run_work r)
          = list_to_set (succeeded (context_fetched e) (run_context_tasks r))
            ∪ w_context_progress (run_restored r)) as Hpc.
  { rewrite Hwork, context_fold_progress.
    destruct (answer_fold_context_side e (completion e (run_answer_tasks r))
                (run_restored r) 0) as (-> & _).
    f_equal. apply set_eq. intros i. rewrite !elem_of_list_to_set.
    by rewrite (succeeded_Permutation _ _ _ (Hperm _)). }
  split; [exact Hna|]. split; [exact Hnc|].
  split; [exact Hpa|]. split; [exact Hpc|].
  split.
  - rewrite Hpa, Hna. apply size_fresh_union.
    + eapply sublist_NoDup; [|apply succeeded_sublist].
      rewrite Hat. apply answer_tasks_NoDup.
    + intros i Hi.
      apply (fun H => elem_of_sublist _ _ _ H (succeeded_sublist _ _)) in Hi.
      apply list_elem_of_fmap in Hi as ([j q] & Hj & Hin). simpl in Hj. subst j.
      rewrite Hat in Hin. by apply answer_task_elem in Hin as (_ & _ & _ & Hnot & _).
  - rewrite Hpc, Hnc. apply size_fresh_union.
    + eapply sublist_NoDup; [|apply succeeded_sublist].
      rewrite Hct. apply context_tasks_NoDup.
    + intros i Hi.
      apply (fun H => elem_of_sublist _ _ _ H (succeeded_sublist _ _)) in Hi.
      apply list_elem_of_fmap in Hi as ([j q] & Hj & Hin). simpl in Hj. subst j.
      rewrite Hct in Hin. by apply context_task_elem in Hin as (_ & _ & _ & Hnot & _).
Qed.

Lemma run_counts_successful_fetches_witness :
  run_successful_answers (process_method2_file flaky_env ∅ (lit "0f") three_questions) = 2
  /\ size (w_answer_progress
             (run_work (process_method2_file flaky_env ∅ (lit "0f") three_questions)))
     = 0 + 2.
Proof.
  assert (forall l, completion flaky_env l ≡ₚ l) as Hperm.
  { intros l. simpl. symmetry. apply Permutation_rev. }
  destruct (run_counts_successful_fetches flaky_env ∅ (lit "0f") three_questions Hperm)
    as (Hna & _ & _ & _ & Hsa & _).
  split.
  - rewrite Hna. by vm_compute.
  - rewrite Hsa, Hna. by vm_compute.
Defined.

(* ===================================================================== *)
(** * What the web application hands to the scoring library *)
(* ===================================================================== *)

Section ScoringFacts.

Context {Result : Type}.
Variable e : eval_env Result.

Implicit Types (data : list sample) (names : list pystr).

(** The events of the [try] block: nothing, one error message, or one call
    of the scoring library on the data and the known metrics. *)
Lemma evaluate_try_cases data names :
  (fst (evaluate_try e data names) = [] /\ raises (snd (evaluate_try e data names)))
  \/ (evaluate_try e data names = ([UiError SelectAMetric], Ok None)
      /\ omap metric_map names = [])
  \/ (omap metric_map names <> []
      /\ import_failure e = None /\ client_failure e = None
      /\ (exists c key, api_key e = Some (c :: key))
      /\ fst (evaluate_try e data names)
         = [Scored data (omap metric_map names)
              (ragas_evaluate e data (omap metric_map names))]
      /\ snd (evaluate_try e data names)
         = match ragas_evaluate e data (omap metric_map names) with
           | Ok r => Ok (Some r)
           | Raise msg => Raise msg
           end).
Proof.
  unfold evaluate_try.
  destruct (import_failure e) as [msg|]; [by left|].
  destruct (api_key e) as [[|c key]|]; [by left| |by left].
  destruct (client_failure e) as [msg|]; [by left|].
  destruct (omap metric_map names) as [|m ms] eqn:Hm; [by right; left|].
  right; right. split; [done|]. split; [done|]. split; [done|].
  split; [by exists c, key|]. done.
Qed.

End ScoringFacts.

(** Every record that the alignment filter lets through passes the
    validation of [evaluate_dataset]. *)
Lemma align_row_valid (isalnum : N -> bool) (r : row) (s : sample) :
  align_row isalnum r = Some s -> sample_valid s = true.
Proof.
  unfold align_row.
  destruct (question_blank r) eqn:Hq; [done|].
  destruct (truthy (strip (str_of (col_ai_answer r)))) eqn:Ha; [|done].
  destruct (_ && _); [|done].
  destruct (has_passage _) eqn:Hp; [|done].
  intros [= <-]. unfold sample_valid. cbn [question answer contexts].
  rewrite Ha.
  unfold question_blank in Hq. apply orb_false_iff in Hq as [_ Hq].
  apply pystr_eqb_false in Hq.
  destruct (strip (str_of (col_question r))) as [|c q] eqn:Hqs; [done|].
  cbn [truthy negb orb].
  unfold has_passage in Hp.
  destruct (extract_contexts_from_contexts_column _ _) as [|p ps]; [done|].
  cbn [negb orb]. revert Hp. generalize (p :: ps). intros l Hl.
  induction l as [|x l IHl]; [done|].
  simpl in *. destruct (truthy (strip x)); [done|]. simpl in *. by apply IHl.
Qed.

Lemma align_all_valid (isalnum : N -> bool) (df : list row) :
  Forall (fun s => sample_valid s = true) (fst (align_data_for_evaluation isalnum df)).
Proof.
  unfold align_data_for_evaluation. rewrite align_loop. simpl.
  apply Forall_forall. intros s Hs.
  apply list_elem_of_omap in Hs as (r & _ & Hr). by apply (align_row_valid isalnum r).
Qed.

Lemma filter_all_valid (data : list sample) :
  Forall (fun s => sample_valid s = true) data ->
  filter (fun item => sample_valid item = true) data = data.
Proof.
  induction 1 as [|s data Hs _ IH]; [done|].
  rewrite filter_cons, decide_True by done. by rewrite IH.
Qed.

(** On records that are all valid the validation warns of nothing. *)
Lemma evaluate_dataset_unfold_valid {Result : Type} (e : eval_env Result)
    (data : list sample) (names : list pystr) :
  Forall (fun s => sample_valid s = true) data -> data <> [] ->
  evaluate_dataset e data names
  = match snd (evaluate_try e data names) with
    | Ok r => (r, fst (evaluate_try e data names))
    | Raise msg =>
        (None, fst (evaluate_try e data names) ++ [UiError (EvaluationFailed msg)])
    end.
Proof.
  intros Hvalid Hne. unfold evaluate_dataset.
  destruct data as [|s data]; [done|].
  rewrite (filter_all_valid _ Hvalid), Nat.sub_diag.
  change (0 <? 0) with false. cbn iota. done.
Qed.

(** X5: [evaluate_dataset] of the web application calls the scoring
    library at most once, and only on the records that pass its
    validation, that list being non-empty, with the non-empty list of the
    selected metrics it knows, and only when the imports, the API key and
    the clients are there; what it returns is the result of that call, and
    nothing when the call raised or was not made. *)
Theorem evaluate_dataset_scores_valid_samples_once {Result : Type}
    (e : eval_env Result) (evaluation_data : list sample) (selected_metrics : list pystr) :
  let out := evaluate_dataset e evaluation_data selected_metrics in
  (forall d ms r,
      Scored d ms r ∈ snd out ->
      d = filter (fun item => sample_valid item = true) evaluation_data
      /\ d <> [] /\ Forall (fun s => sample_valid s = true) d
      /\ ms = omap metric_map selected_metrics /\ ms <> []
      /\ import_failure e = None /\ client_failure e = None
      /\ (exists c key, api_key e = Some (c :: key))
      /\ r = ragas_evaluate e d ms
      /\ fst out = match r with Ok x => Some x | Raise _ => None end)
  /\ length (filter (fun ev => is_scored ev = true) (snd out)) <= 1
  /\ (forall x, fst out = Some x -> exists d ms, Scored d ms (Ok x) ∈ snd out).
Proof.
  intros out. unfold out, evaluate_dataset. clear out.
  destruct evaluation_data as [|item items].
  { cbn [fst snd]. split; [|split; [|done]].
    - intros d ms r H. apply list_elem_of_singleton in H. done.
    - rewrite filter_cons, decide_False by done. simpl. lia. }
  set (data := item :: items).
  assert (Forall (fun s => sample_valid s = true)
            (filter (fun item => sample_valid item = true) data)) as Hvalid.
  { apply Forall_forall. intros s Hs. by apply list_elem_of_filter in Hs as [Hs _]. }
  destruct (filter (fun item => sample_valid item = true) data) as [|v vs] eqn:Hf.
  { cbn [fst snd]. split; [|split; [|done]].
    - intros d ms r H. apply elem_of_app in H as [H|H].
      + destruct (0 <? _); [apply list_elem_of_singleton in H|apply elem_of_nil in H]; done.
      + apply list_elem_of_singleton in H. done.
    - rewrite filter_app. destruct (0 <? _); simpl; lia. }
  set (warned := if 0 <? length data - length (v :: vs)
                 then [UiWarning (InvalidSamples (length data - length (v :: vs))
                                    (length (v :: vs)))]
                 else []).
  assert (forall d ms r, @Scored Result d ms r ∉ warned) as Hw.
  { intros d ms r H. unfold warned in H.
    destruct (0 <? _); [apply list_elem_of_singleton in H|apply elem_of_nil in H]; done. }
  assert (filter (fun ev : event Result => is_scored ev = true) warned = []) as Hwf.
  { unfold warned. by destruct (0 <? _). }
  destruct (evaluate_try_cases e (v :: vs) selected_metrics)
    as [[Hev Hr]|[[Heq Hm]|(Hm & Himp & Hcl & Hkey & Hev & Hr)]].
  - destruct (snd (evaluate_try e (v :: vs) selected_metrics)) as [?|msg]; [done|].
    rewrite Hev. cbn [fst snd app]. split; [|split; [|done]].
    + intros d ms r H. apply elem_of_app in H as [H|H]; [by apply Hw in H|].
      apply list_elem_of_singleton in H. done.
    + rewrite filter_app, Hwf. simpl. lia.
  - rewrite Heq. cbn [fst snd]. split; [|split; [|done]].
    + intros d ms r H. apply elem_of_app in H as [H|H]; [by apply Hw in H|].
      apply list_elem_of_singleton in H. done.
    + rewrite filter_app, Hwf. simpl. lia.
  - rewrite Hr, Hev.
    destruct (ragas_evaluate e (v :: vs) (omap metric_map selected_metrics))
      as [x|msg] eqn:Hcall; cbn [fst snd app].
    + split; [|split].
      * intros d ms r H. apply elem_of_app in H as [H|H]; [by apply Hw in H|].
        apply list_elem_of_singleton in H. injection H as -> -> ->.
        rewrite Hcall. done.
      * rewrite filter_app, Hwf. simpl. lia.
      * intros x' [= <-]. exists (v :: vs), (omap metric_map selected_metrics).
        apply elem_of_app. right. by apply list_elem_of_singleton.
    + split; [|split; [|done]].
      * intros d ms r H. apply elem_of_app in H as [H|H]; [by apply Hw in H|].
        apply elem_of_cons in H as [H|H]; [|by apply list_elem_of_singleton in H].
        injection H as -> -> ->. rewrite Hcall. done.
      * rewrite filter_app, Hwf. simpl. lia.
Qed.

Lemma evaluate_dataset_scores_valid_samples_once_witness :
  exists d ms,
    Scored d ms (Ok 1) ∈ snd (evaluate_dataset ready_env one_sample [lit "faithfulness"]).
Proof.
  destruct (evaluate_dataset_scores_valid_samples_once ready_env one_sample
              [lit "faithfulness"]) as (_ & _ & Hret).
  apply (Hret 1). reflexivity.
Defined.

(** X6: in [evaluate_partial_data] the validation of [evaluate_dataset]
    never rejects anything: the records come from the alignment filter,
    which only lets valid ones through, so no record is reported invalid
    and the scoring library, when called, receives every aligned record of
    the rows used, those of the checkpoint when one loads and those of the
    uploaded sheet otherwise. *)
Theorem evaluate_partial_data_scores_all_aligned {Result : Type}
    (e : eval_env Result) (isalnum : N -> bool) (fs : store) (file_hash : pystr)
    (df : list row) (selected_metrics : list pystr) :
  let used :=
    match load_processing_state fs file_hash with
    | Ok (Some previous_state) => sd_df previous_state
    | _ => df
    end in
  let out := evaluate_partial_data e isalnum fs file_hash df selected_metrics in
  (forall d ms r,
      Scored d ms r ∈ snd out -> d = fst (align_data_for_evaluation isalnum used))
  /\ (forall invalid valid, UiWarning (InvalidSamples invalid valid) ∉ snd out)
  /\ UiError NoValidSamples ∉ snd out.
Proof.
  intros used out. unfold out, evaluate_partial_data. clear out. fold used.
  destruct selected_metrics as [|name names].
  { cbn [snd]. split; [|split]; repeat intro; by_events. }
  pose proof (align_all_valid isalnum used) as Hvalid.
  destruct (fst (align_data_for_evaluation isalnum used)) as [|s data] eqn:Hal.
  { cbn [snd]. split; [|split]; repeat intro; by_events. }
  rewrite (evaluate_dataset_unfold_valid e (s :: data) (name :: names) Hvalid) by done.
  destruct (evaluate_try_cases e (s :: data) (name :: names))
    as [[Hevs Hr]|[[Heq Hm]|(Hm & Himp & Hcl & Hkey & Hevs & Hr)]].
  - destruct (snd (evaluate_try e (s :: data) (name :: names))) as [?|msg]; [done|].
    rewrite Hevs. cbn [fst snd app]. split; [|split]; repeat intro; by_events.
  - rewrite Heq. cbn [fst snd]. split; [|split]; repeat intro; by_events.
  - rewrite Hr, Hevs.
    destruct (ragas_evaluate e (s :: data) (omap metric_map (name :: names)))
      as [x|msg]; cbn [fst snd app]; (split; [|split]); repeat intro; by_events.
Qed.

Lemma evaluate_partial_data_scores_all_aligned_witness :
  one_sample = fst (align_data_for_evaluation ascii_isalnum one_row_sheet).
Proof.
  destruct (evaluate_partial_data_scores_all_aligned ready_env ascii_isalnum ∅ (lit "0f")
              one_row_sheet [lit "faithfulness"]) as (Hdata & _).
  apply (Hdata one_sample [faithfulness] (Ok 1)).
  vm_compute. left.
Defined.

(* ===================================================================== *)
(** * The retention sweep *)
(* ===================================================================== *)

Section SweepFacts.

Variable unlink_ok : pystr -> bool.

Implicit Types (st : sweep_state) (fi : file_info) (l : list file_info).

Lemma Qgt_bool_true (a b : Q) : Qgt_bool a b = true <-> (b < a)%Q.
Proof.
  unfold Qgt_bool. rewrite negb_true_iff.
  destruct (Qle_bool a b) eqn:H.
  - apply Qle_bool_iff in H. split; [done|]. intros Hlt. by apply Qlt_not_le in Hlt.
  - split; [|done]. intros _. apply Qnot_le_lt. intros Hle.
    apply Qle_bool_iff in Hle. congruence.
Qed.

(** Whatever rule fires, the file is more than three days old. *)
Lemma should_delete_old n d fi :
  should_delete n d fi = true -> (3 < fi_age_days fi)%Q.
Proof.
  unfold should_delete.
  destruct (Qgt_bool (fi_age_days fi) 14) eqn:H14.
  { intros _. apply Qgt_bool_true in H14. lra. }
  destruct (Qgt_bool d 100 && Qgt_bool (fi_age_days fi) 7) eqn:H7.
  { intros _. apply andb_true_iff in H7 as [_ H7]. apply Qgt_bool_true in H7. lra. }
  destruct ((50 <? n) && Qgt_bool (fi_age_days fi) 3) eqn:H3; [|done].
  intros _. apply andb_true_iff in H3 as [_ H3]. by apply Qgt_bool_true in H3.
Qed.

(** Within both thresholds only the fourteen-day rule can fire. *)
Lemma should_delete_within n d fi :
  n <= 50 -> (d <= 100)%Q ->
  should_delete n d fi = true -> (14 < fi_age_days fi)%Q.
Proof.
  intros Hn Hd. unfold should_delete.
  destruct (Qgt_bool (fi_age_days fi) 14) eqn:H14.
  { intros _. by apply Qgt_bool_true in H14. }
  destruct (Qgt_bool d 100) eqn:H100.
  { apply Qgt_bool_true in H100. lra. }
  assert ((50 <? n) = false) as -> by (apply Nat.ltb_ge; lia).
  done.
Qed.

(** A rule that fires at some directory size fires at any larger one. *)
Lemma should_delete_mono n d d' fi :
  (d <= d')%Q -> should_delete n d fi = true -> should_delete n d' fi = true.
Proof.
  intros Hd. unfold should_delete.
  destruct (Qgt_bool (fi_age_days fi) 14); [done|].
  destruct (Qgt_bool d 100) eqn:H100.
  - apply Qgt_bool_true in H100.
    assert (Qgt_bool d' 100 = true) as -> by (apply Qgt_bool_true; lra). done.
  - simpl. destruct ((50 <? n) && Qgt_bool (fi_age_days fi) 3); [|done].
    intros _. by destruct (Qgt_bool d' 100 && Qgt_bool (fi_age_days fi) 7).
Qed.

Lemma megabytes_nonneg (size : N) : (0 <= inject_Z (Z.of_N size) / (1024 * 1024))%Q.
Proof.
  apply Qle_shift_div_l; [reflexivity|].
  rewrite Qmult_0_l. change 0%Q with (inject_Z 0). rewrite <- Zle_Qle. lia.
Qed.

(** One step of the sweep: the size never grows, nothing is forgotten. *)
Lemma sweep_step_size n st fi :
  (sw_dir_size_mb (sweep_step unlink_ok n st fi) <= sw_dir_size_mb st)%Q.
Proof.
  unfold sweep_step.
  destruct (should_delete n (sw_dir_size_mb st) fi); [|apply Qle_refl].
  destruct (unlink_ok (fi_filename fi)); [|apply Qle_refl]. simpl.
  pose proof (megabytes_nonneg (fi_size fi)). lra.
Qed.

Lemma sweep_fold_size n l st :
  (sw_dir_size_mb (fold_left (sweep_step unlink_ok n) l st) <= sw_dir_size_mb st)%Q.
Proof.
  revert st. induction l as [|fi l IHl]; intros st; [apply Qle_refl|].
  simpl. eapply Qle_trans; [apply IHl|apply sweep_step_size].
Qed.

Lemma sweep_step_keeps n st fi f :
  f ∈ sw_deleted st -> f ∈ sw_deleted (sweep_step unlink_ok n st fi).
Proof.
  intros Hf. unfold sweep_step.
  destruct (should_delete n (sw_dir_size_mb st) fi); [|done].
  destruct (unlink_ok (fi_filename fi)); [|done]. simpl.
  apply elem_of_app. by left.
Qed.

Lemma sweep_fold_keeps n l st f :
  f ∈ sw_deleted st -> f ∈ sw_deleted (fold_left (sweep_step unlink_ok n) l st).
Proof.
  revert st. induction l as [|fi l IHl]; intros st Hf; [done|].
  simpl. by apply IHl, sweep_step_keeps.
Qed.

(** Every name the loop unlinks belongs to a file of the list for which a
    rule fired at a size no larger than the initial one, and whose
    [unlink] succeeded. *)
Lemma sweep_fold_deleted n l st f :
  f ∈ sw_deleted (fold_left (sweep_step unlink_ok n) l st) ->
  f ∈ sw_deleted st
  \/ exists fi d, fi ∈ l /\ fi_filename fi = f /\ unlink_ok f = true
                  /\ (d <= sw_dir_size_mb st)%Q /\ should_delete n d fi = true.
Proof.
  revert st. induction l as [|fi l IHl]; intros st Hf; [by left|].
  simpl in Hf. apply IHl in Hf as [Hf|(fi' & d & Hin & Hname & Hok & Hd & Hdel)].
  - unfold sweep_step in Hf.
    destruct (should_delete n (sw_dir_size_mb st) fi) eqn:Hdel; [|by left].
    destruct (unlink_ok (fi_filename fi)) eqn:Hok; [|by left].
    simpl in Hf. apply elem_of_app in Hf as [Hf|Hf]; [by left|].
    apply list_elem_of_singleton in Hf. subst f. right.
    exists fi, (sw_dir_size_mb st).
    split; [by left|]. split; [done|]. split; [done|]. split; [apply Qle_refl|done].
  - right. exists fi', d. split; [by right|]. split; [done|]. split; [done|].
    split; [|done]. eapply Qle_trans; [exact Hd|apply sweep_step_size].
Qed.

(** A file for which a rule fires even at the final size, and whose
    [unlink] succeeds, is unlinked. *)
Lemma sweep_fold_deletes n l st fi :
  fi ∈ l -> unlink_ok (fi_filename fi) = true ->
  should_delete n (sw_dir_size_mb (fold_left (sweep_step unlink_ok n) l st)) fi = true ->
  fi_filename fi ∈ sw_deleted (fold_left (sweep_step unlink_ok n) l st).
Proof.
  revert st. induction l as [|fi' l IHl]; intros st Hin Hok Hdel.
  { by apply elem_of_nil in Hin. }
  simpl in *. apply elem_of_cons in Hin as [->|Hin]; [|by apply IHl].
  apply sweep_fold_keeps. unfold sweep_step.
  assert (should_delete n (sw_dir_size_mb st) fi' = true) as ->.
  { eapply should_delete_mono; [|exact Hdel].
    eapply Qle_trans; [apply sweep_fold_size|apply sweep_step_size]. }
  rewrite Hok. simpl. apply elem_of_app. right. by left.
Qed.

Lemma sweep_fold_count n l st :
  sw_cleaned_count st = length (sw_deleted st) ->
  sw_cleaned_count (fold_left (sweep_step unlink_ok n) l st)
  = length (sw_deleted (fold_left (sweep_step unlink_ok n) l st)).
Proof.
  revert st. induction l as [|fi l IHl]; intros st Hst; [done|].
  simpl. apply IHl. unfold sweep_step.
  destruct (should_delete n (sw_dir_size_mb st) fi); [|done].
  destruct (unlink_ok (fi_filename fi)); [|done]. simpl.
  rewrite length_app. simpl. lia.
Qed.

(** The sort only reorders. *)
Lemma insert_by_mtime_Permutation fi l : insert_by_mtime fi l ≡ₚ fi :: l.
Proof.
  induction l as [|y l IHl]; [done|]. simpl.
  destruct (Qle_bool (fi_mtime fi) (fi_mtime y)); [done|].
  rewrite IHl. apply Permutation_swap.
Qed.

Lemma sort_by_mtime_Permutation l : sort_by_mtime l ≡ₚ l.
Proof.
  induction l as [|fi l IHl]; [done|]. simpl.
  by rewrite insert_by_mtime_Permutation, IHl.
Qed.

(** The files the sweep looks at: the state files whose [stat] worked. *)
Lemma collect_info_loop current_time (listing : list dir_entry) acc :
  fold_left (collect_info current_time) listing acc
  = acc ++ omap (fun en =>
                   if is_state_file (de_filename en) then
                     match de_stat en with
                     | Some (mtime, size) =>
                         Some (FileInfo (de_filename en) mtime size
                                        (age_days current_time mtime))
                     | None => None
                     end
                   else None) listing.
Proof.
  revert acc. induction listing as [|en listing IH]; intros acc; simpl.
  { by rewrite app_nil_r. }
  rewrite IH. unfold collect_info.
  destruct (is_state_file (de_filename en)); [|done].
  destruct (de_stat en) as [[mtime size]|]; [|done].
  by rewrite <- app_assoc.
Qed.

Lemma collect_info_elem current_time (listing : list dir_entry) fi :
  fi ∈ fold_left (collect_info current_time) listing [] <->
  exists mtime size,
    DirEntry (fi_filename fi) (Some (mtime, size)) ∈ listing
    /\ is_state_file (fi_filename fi) = true
    /\ fi = FileInfo (fi_filename fi) mtime size (age_days current_time mtime).
Proof.
  rewrite collect_info_loop, app_nil_l, list_elem_of_omap. split.
  - intros ([name stat] & Hin & Hfi). simpl in Hfi.
    destruct (is_state_file name) eqn:Hname; [|done].
    destruct stat as [[mtime size]|]; [|done].
    injection Hfi as <-. simpl. by exists mtime, size.
  - intros (mtime & size & Hin & Hname & Hfi).
    exists (DirEntry (fi_filename fi) (Some (mtime, size))). split; [done|].
    simpl. rewrite Hname. by rewrite Hfi at 2.
Qed.

Lemma collect_info_length current_time (listing : list dir_entry) :
  length (fold_left (collect_info current_time) listing []) = length (watched listing).
Proof.
  rewrite collect_info_loop, app_nil_l. unfold watched.
  induction listing as [|[name stat] listing IH]; [done|].
  rewrite filter_cons.
  match goal with
  | |- length (omap ?f (?x :: ?l)) = _ =>
      assert (omap f (x :: l) = match f x with Some y => y :: omap f l | None => omap f l end)
        as -> by reflexivity
  end.
  simpl. destruct (is_state_file name) eqn:Hname.
  - destruct stat as [[mtime size]|].
    + rewrite decide_True by (split; [done|by eexists]). simpl. by rewrite IH.
    + rewrite decide_False by (intros [_ [? ?]]; done). done.
  - rewrite decide_False by (intros [? _]; done). done.
Qed.

End SweepFacts.

(** X7: the retention sweep only ever unlinks files named [state_*.pkl]
    whose [stat] worked and that are more than three days old; it unlinks
    every such file older than fourteen days whose [unlink] succeeds, and,
    when it looks at more than fifty files, every one older than three
    days, the count being taken once before any file goes; when it looks
    at no more than fifty files in a directory of no more than 100 MB it
    unlinks nothing that is not older than fourteen days; when the size it
    ends with still exceeds 100 MB, every file older than seven days whose
    [unlink] succeeds is gone; its count is the number of files unlinked
    and its running size never exceeds the initial one. *)
Theorem cleanup_old_state_files_retention (unlink_ok : pystr -> bool)
    (dir_size_mb current_time : Q) (listing : list dir_entry) :
  let swept := cleanup_old_state_files unlink_ok dir_size_mb current_time listing in
  (forall f,
      f ∈ sw_deleted swept ->
      is_state_file f = true /\ unlink_ok f = true
      /\ exists mtime size,
           DirEntry f (Some (mtime, size)) ∈ listing
           /\ (3 < age_days current_time mtime)%Q
           /\ (length (watched listing) <= 50 -> (dir_size_mb <= 100)%Q ->
               (14 < age_days current_time mtime)%Q))
  /\ (forall f mtime size,
      DirEntry f (Some (mtime, size)) ∈ listing ->
      is_state_file f = true -> unlink_ok f = true ->
      (14 < age_days current_time mtime)%Q
      \/ (50 < length (watched listing) /\ (3 < age_days current_time mtime)%Q)
      \/ ((100 < sw_dir_size_mb swept)%Q /\ (7 < age_days current_time mtime)%Q) ->
      f ∈ sw_deleted swept)
  /\ sw_cleaned_count swept = length (sw_deleted swept)
  /\ (sw_dir_size_mb swept <= dir_size_mb)%Q.
Proof.
  intros swept. unfold swept, cleanup_old_state_files. clear swept.
  set (collected := fold_left (collect_info current_time) listing []).
  assert (length (sort_by_mtime collected) = length (watched listing)) as Hlen.
  { rewrite (Permutation_length (sort_by_mtime_Permutation collected)).
    apply collect_info_length. }
  rewrite Hlen.
  set (n := length (watched listing)).
  set (st0 := SweepState [] 0 dir_size_mb).
  split; [|split; [|split]].
  - intros f Hf.
    apply sweep_fold_deleted in Hf as [Hf|(fi & d & Hin & Hname & Hok & Hd & Hdel)].
    { by apply elem_of_nil in Hf. }
    rewrite sort_by_mtime_Permutation in Hin.
    apply collect_info_elem in Hin as (mtime & size & Hen & Hstate & Hfi).
    rewrite Hname in Hen, Hstate.
    split; [done|]. split; [done|]. exists mtime, size. split; [done|].
    assert (fi_age_days fi = age_days current_time mtime) as Hage by (by rewrite Hfi).
    rewrite <- Hage. split; [by apply (should_delete_old n d)|].
    intros Hn Hsz. apply (should_delete_within n d); [done| |done].
    simpl in Hd. lra.
  - intros f mtime size Hen Hstate Hok Hrule.
    set (fi := FileInfo f mtime size (age_days current_time mtime)).
    assert (fi ∈ sort_by_mtime collected) as Hin.
    { rewrite sort_by_mtime_Permutation. apply collect_info_elem.
      exists mtime, size. done. }
    apply (sweep_fold_deletes unlink_ok n _ st0 fi Hin Hok).
    unfold should_delete. simpl.
    destruct Hrule as [H14|[[Hn H3]|[H100 H7]]].
    + apply Qgt_bool_true in H14. by rewrite H14.
    + destruct (Qgt_bool _ 14); [done|].
      destruct (_ && _); [done|].
      apply Nat.ltb_lt in Hn. apply Qgt_bool_true in H3. by rewrite Hn, H3.
    + destruct (Qgt_bool _ 14); [done|].
      apply Qgt_bool_true in H100, H7. by rewrite H100, H7.
  - by apply sweep_fold_count.
  - apply (sweep_fold_size unlink_ok n _ st0).
Qed.

Lemma cleanup_old_state_files_retention_witness :
  lit "state_aa.pkl"
  ∈ sw_deleted (cleanup_old_state_files (fun _ => true) 1 2000000 sample_listing)
  /\ (lit "state_cc.pkl"
      ∉ sw_deleted (cleanup_old_state_files (fun _ => true) 1 2000000 sample_listing)).
Proof.
  destruct (cleanup_old_state_files_retention (fun _ => true) 1 2000000 sample_listing)
    as (Honly & Hall & _).
  split.
  - apply (Hall (lit "state_aa.pkl") 272000%Q 1000%N).
    + unfold sample_listing. by left.
    + reflexivity.
    + reflexivity.
    + left. by vm_compute.
  - intros Hin. apply Honly in Hin as (_ & _ & mtime & size & Hen & Hage & _).
    assert (mtime = 1913600%Q) as ->.
    { clear Hage. unfold sample_listing in Hen.
      repeat (apply elem_of_cons in Hen as [Hen|Hen]; [by inversion Hen|]).
      by apply elem_of_nil in Hen. }
    by vm_compute in Hage.
Defined.

Lemma swept_store_lookup (deleted : list pystr) (fs : store) (h : pystr) :
  state_path h ∉ deleted -> swept_store deleted fs !! h = fs !! h.
Proof.
  intros Hh. unfold swept_store. apply option_eq. intros f.
  rewrite map_lookup_filter_Some. simpl. split; [by intros [? _]|done].
Qed.

Lemma save_other_hash sweep now fault fs h' df (ap cp : gset nat) h :
  h <> h' -> sweep fs !! h = fs !! h ->
  load_processing_state (fst (save_processing_state sweep now fault fs h' df ap cp)) h
  = load_processing_state fs h.
Proof.
  intros Hne Hsw. unfold load_processing_state, load_body, save_processing_state.
  destruct fault; simpl; rewrite ?lookup_insert_ne by done; by rewrite ?Hsw.
Qed.

(** X8: saving the progress of one file, sweep included, leaves the
    checkpoint of any other file readable as before, provided the file
    of that checkpoint is at most three days old at the time of the
    sweep. *)
Theorem save_keeps_young_checkpoints (unlink_ok : pystr -> bool)
    (dir_size_mb current_time : Q) (listing : list dir_entry) (now : pystr)
    (fault : io_fault) (fs : store) (file_hash : pystr) (df : list row)
    (answer_progress context_progress : gset nat) (other : pystr) :
  other <> file_hash ->
  (forall mtime size,
      DirEntry (state_path other) (Some (mtime, size)) ∈ listing ->
      (age_days current_time mtime <= 3)%Q) ->
  load_processing_state
    (fst (save_processing_state
            (swept_store
               (sw_deleted
                  (cleanup_old_state_files unlink_ok dir_size_mb current_time listing)))
            now fault fs file_hash df answer_progress context_progress))
    other
  = load_processing_state fs other.
Proof.
  intros Hne Hyoung. apply save_other_hash; [done|].
  apply swept_store_lookup. intros Hin.
  pose proof (sweep_fold_deleted unlink_ok
                (length (sort_by_mtime (fold_left (collect_info current_time) listing [])))
                (sort_by_mtime (fold_left (collect_info current_time) listing []))
                (SweepState [] 0 dir_size_mb) (state_path other) Hin) as Hdel.
  destruct Hdel as [Hnil|(fi & d & Hfi & Hname & _ & _ & Hrule)].
  { by apply elem_of_nil in Hnil. }
  rewrite sort_by_mtime_Permutation in Hfi.
  apply collect_info_elem in Hfi as (mtime & size & Hen & _ & Heq).
  rewrite Hname in Hen. apply Hyoung in Hen.
  apply should_delete_old in Hrule. rewrite Heq in Hrule. simpl in Hrule. lra.
Qed.

Lemma save_keeps_young_checkpoints_witness :
  load_processing_state
    (fst (save_processing_state
            (swept_store
               (sw_deleted
                  (cleanup_old_state_files (fun _ => true) 1 2000000 sample_listing)))
            (lit "2025-01-01T00:00:00") NoFault
            {[ lit "cc" := Pickled saved_state ]} (lit "aa") three_questions ∅ ∅))
    (lit "cc")
  = load_processing_state {[ lit "cc" := Pickled saved_state ]} (lit "cc").
Proof.
  apply (save_keeps_young_checkpoints (fun _ => true) 1 2000000 sample_listing).
  - by vm_compute.
  - intros mtime size Hen.
    assert (mtime = 1913600%Q) as ->.
    { unfold sample_listing in Hen.
      repeat (apply elem_of_cons in Hen as [Hen|Hen]; [by inversion Hen|]).
      by apply elem_of_nil in Hen. }
    by vm_compute.
Defined.

(** X9: the sleeps of [_evaluate_batch], in order: every attempt of a
    batch after the first is preceded by one jitter pause, every failed
    attempt but the last allowed one is followed by one wait computed from
    the text of its own error, and nothing is slept after a success or
    after the last failure; so there are never more than
    [max_retries - 1] waits, and with [max_retries] 0 nothing is tried. *)
Theorem evaluate_batch_pauses_in_order :
  (forall (Result : Type) (scoring : nat -> nat -> list sample -> outcome Result)
          draw ds b n k r (msg : nat -> pystr),
      k < n ->
      (forall a, a < k -> scoring b a ds = Raise (msg a)) ->
      scoring b k ds = Ok r ->
      _evaluate_batch scoring draw ds b n
      = (Some r,
         concat (map (failed_attempt draw b msg) (seq 0 k)) ++ jitter_before draw b k))
  /\ (forall (Result : Type) (scoring : nat -> nat -> list sample -> outcome Result)
             draw ds b n (msg : nat -> pystr),
      0 < n ->
      (forall a, a < n -> scoring b a ds = Raise (msg a)) ->
      _evaluate_batch scoring draw ds b n
      = (None,
         concat (map (failed_attempt draw b msg) (seq 0 (n - 1)))
         ++ jitter_before draw b (n - 1)))
  /\ (forall (Result : Type) (scoring : nat -> nat -> list sample -> outcome Result)
             draw ds b n,
      length (filter (fun p => is_backoff p = true)
                (snd (_evaluate_batch scoring draw ds b n))) <= n - 1)
  /\ (forall (Result : Type) (scoring : nat -> nat -> list sample -> outcome Result)
             draw ds b,
      _evaluate_batch scoring draw ds b 0 = (None, [])).
Proof.
  split.
  { intros Result scoring draw ds b n k r msg Hk Hfail Hok.
    apply (evaluate_batch_from_success_pauses scoring draw ds b n n 0 k r msg);
      [done|done| |done].
    intros a Ha. apply Hfail. lia. }
  split.
  { intros Result scoring draw ds b n msg Hn Hfail.
    apply (evaluate_batch_from_failure_pauses scoring draw ds b n n 0 msg); [done|done|].
    intros a Ha. apply Hfail. lia. }
  split; [|done].
  intros Result scoring draw ds b n.
  by apply evaluate_batch_from_backoffs.
Qed.

Lemma evaluate_batch_pauses_in_order_witness :
  _evaluate_batch times_out_once (fun _ _ _ => 1 # 2) one_sample 2 3
  = (Some 7,
     [Jitter (uniform (1 # 2) 2 (1 # 2));
      Backoff (wait_time 0 (lit "Request timeout") (1 # 2));
      Jitter (uniform (1 # 2) 2 (1 # 2))]).
Proof.
  destruct evaluate_batch_pauses_in_order as (Hok & _).
  apply (Hok nat times_out_once (fun _ _ _ => 1 # 2) one_sample 2 3 1 7
           (fun _ => lit "Request timeout")).
  - lia.
  - intros a Ha. destruct a as [|a]; [reflexivity|lia].
  - reflexivity.
Defined.

(* ===================================================================== *)
(** * The fallback of the extractor *)
(* ===================================================================== *)

Section FallbackFacts.

Variable isalnum : N -> bool.

Implicit Types (s cur : pystr).

(** A pattern that begins with a literal does not match where the text
    begins otherwise. *)
Lemma chunk_pattern_needs_bracket p s :
  head s <> Some 91%N -> Re.match_here (chunk_pattern isalnum) p s = None.
Proof.
  intros Hs. unfold Re.match_here, chunk_pattern, cat. cbn [foldr].
  cbn [Re.exec Re.rest]. destruct s as [|x xs]; [done|].
  destruct (x =? 91)%N eqn:Hx; [|done].
  apply N.eqb_eq in Hx. subst x. done.
Qed.

Lemma title_prefix_needs_bracket p s :
  head s <> Some 91%N -> Re.match_here title_prefix p s = None.
Proof.
  intros Hs. unfold Re.match_here, title_prefix, cat. cbn [foldr].
  cbn [Re.exec Re.rest Re.pos]. destruct (Nat.eqb p 0); [|done].
  destruct s as [|x xs]; [done|].
  destruct (x =? 91)%N eqn:Hx; [|done].
  apply N.eqb_eq in Hx. subst x. done.
Qed.

Lemma head_bracket_free s : 91%N ∉ s -> head s <> Some 91%N.
Proof. destruct s as [|x xs]; [done|]. intros H [= ->]. apply H. by left. Qed.

Lemma findall2_bracket_free fuel p s :
  91%N ∉ s -> Re.findall2_from fuel (chunk_pattern isalnum) p s = [].
Proof.
  revert p s. induction fuel as [|f IH]; intros p s Hs; [done|].
  cbn [Re.findall2_from].
  rewrite chunk_pattern_needs_bracket by (by apply head_bracket_free).
  destruct s as [|x xs]; [done|]. apply IH. intros H. apply Hs. by right.
Qed.

Lemma sub_bracket_free fuel p s :
  91%N ∉ s -> Re.sub_from fuel title_prefix [] p s = s.
Proof.
  revert p s. induction fuel as [|f IH]; intros p s Hs; [done|].
  cbn [Re.sub_from].
  rewrite title_prefix_needs_bracket by (by apply head_bracket_free).
  destruct s as [|x xs]; [done|]. f_equal. apply IH. intros H. apply Hs. by right.
Qed.

(** Stripping and splitting only take characters away. *)
Lemma lstrip_elem c s : c ∈ lstrip s -> c ∈ s.
Proof.
  induction s as [|x s IH]; [done|]. simpl.
  destruct (isspace x); [|done]. intros H. right. by apply IH.
Qed.

Lemma elem_of_rev c s : c ∈ rev s <-> c ∈ s.
Proof. rewrite !list_elem_of_In. symmetry. apply in_rev. Qed.

Lemma strip_elem c s : c ∈ strip s -> c ∈ s.
Proof.
  unfold strip, rstrip. intros H.
  apply (proj1 (elem_of_rev _ _)) in H. apply lstrip_elem in H.
  apply (proj1 (elem_of_rev _ _)) in H. by apply lstrip_elem.
Qed.

Lemma split_nn_from_elem (n : nat) s cur piece c :
  length s <= n ->
  piece ∈ split_nn_from cur s -> c ∈ piece -> c ∈ cur \/ c ∈ s.
Proof.
  revert s cur. induction n as [|n IH]; intros s cur Hlen Hp Hc.
  { destruct s; [|simpl in Hlen; lia]. simpl in Hp.
    apply list_elem_of_singleton in Hp. subst piece.
    left. by apply elem_of_rev. }
  destruct s as [|x s].
  { simpl in Hp. apply list_elem_of_singleton in Hp. subst piece.
    left. by apply elem_of_rev. }
  simpl in Hlen.
  assert (piece ∈ split_nn_from (x :: cur) s -> c ∈ cur \/ c ∈ x :: s) as Hstep.
  { intros Hp'. destruct (IH s (x :: cur) ltac:(lia) Hp' Hc) as [H|H].
    - apply elem_of_cons in H as [->|H]; [right; by left|by left].
    - right. by right. }
  destruct (decide (x = 10%N)) as [->|Hx].
  - destruct s as [|y s]; [by apply Hstep|].
    destruct (decide (y = 10%N)) as [->|Hy].
    + cbn [split_nn_from] in Hp. apply elem_of_cons in Hp as [->|Hp].
      * left. by apply elem_of_rev.
      * simpl in Hlen. destruct (IH s [] ltac:(lia) Hp Hc) as [H|H].
        -- by apply elem_of_nil in H.
        -- right. right. by right.
    + apply Hstep. cbn [split_nn_from] in Hp.
      destruct y as [|q]; [exact Hp|].
      repeat (destruct q as [q|q|]; try exact Hp); done.
  - apply Hstep. cbn [split_nn_from] in Hp.
    destruct x as [|q]; [exact Hp|].
    repeat (destruct q as [q|q|]; try exact Hp); done.
Qed.

Lemma split_nn_bracket_free s piece :
  91%N ∉ s -> piece ∈ split_nn s -> 91%N ∉ piece.
Proof.
  intros Hs Hp Hc.
  destruct (split_nn_from_elem (length s) s [] piece 91%N ltac:(lia) Hp Hc) as [H|H].
  - by apply elem_of_nil in H.
  - by apply Hs.
Qed.

(** Without brackets the fallback loop keeps the long pieces as they
    are. *)
Lemma add_chunk_loop (pieces : list pystr) (acc : list pystr) :
  (forall piece, piece ∈ pieces -> 91%N ∉ piece) ->
  fold_left add_chunk pieces acc
  = acc ++ filter (fun chunk => 10 < length chunk) (strip <$> pieces).
Proof.
  revert acc. induction pieces as [|piece pieces IH]; intros acc Hfree.
  { simpl. by rewrite app_nil_r. }
  cbn [fold_left]. rewrite IH by (intros q Hq; apply Hfree; by right).
  rewrite fmap_cons, filter_cons. unfold add_chunk.
  assert (Re.sub title_prefix [] (strip piece) = strip piece) as ->.
  { apply sub_bracket_free. intros H. apply strip_elem in H.
    by apply (Hfree piece); [left|]. }
  destruct (decide (10 < length (strip piece))) as [Hlong|Hshort].
  - assert ((10 <? length (strip piece)) = true) as -> by (by apply Nat.ltb_lt).
    destruct (strip piece); [simpl in Hlong; lia|].
    simpl. by rewrite <- app_assoc.
  - assert ((10 <? length (strip piece)) = false) as -> by (apply Nat.ltb_ge; lia).
    by rewrite andb_false_r.
Qed.

End FallbackFacts.

(** X10: on a text that holds no opening bracket the extractor takes its
    fallback: the passages are the parts between blank lines, stripped,
    that are longer than ten characters, in their order and unchanged,
    and the placeholder for an unclear reference when there is none. *)
Theorem extract_contexts_without_titles (isalnum : N -> bool) (s : pystr) :
  s <> [] -> 91%N ∉ s ->
  extract_contexts_from_contexts_column isalnum (Str s)
  = match long_pieces (strip s) with
    | [] => [unclear_reference]
    | piece :: pieces => piece :: pieces
    end.
Proof.
  intros Hne Hfree. unfold extract_contexts_from_contexts_column.
  destruct s as [|c s]; [done|]. cbn [isna cell_truthy truthy negb orb str_of].
  cbv zeta.
  assert (91%N ∉ strip (c :: s)) as Hfree'.
  { intros H. by apply strip_elem in H. }
  unfold Re.findall2. rewrite findall2_bracket_free by done.
  rewrite add_chunk_loop.
  - rewrite app_nil_l. fold (long_pieces (strip (c :: s))).
    by destruct (long_pieces (strip (c :: s))).
  - intros piece Hp. by apply (split_nn_bracket_free (strip (c :: s))).
Qed.

Lemma extract_contexts_without_titles_witness :
  extract_contexts_from_contexts_column ascii_isalnum (Str two_paragraphs)
  = [lit "C is the third letter."].
Proof.
  rewrite (extract_contexts_without_titles ascii_isalnum two_paragraphs).
  - reflexivity.
  - done.
  - intros H. apply (bool_decide_pack _) in H. by vm_compute in H.
Defined.

(* ===================================================================== *)
(** * Reading the reply of a remote service *)
(* ===================================================================== *)

Section ReplyFacts.

Implicit Types (s p needle pre post : pystr).

Lemma startswith_spec p s : startswith p s = true <-> exists post, s = p ++ post.
Proof.
  revert s. induction p as [|a p IH]; intros s; simpl.
  { split; [by exists s|done]. }
  destruct s as [|b s].
  { split; [done|]. by intros [post H]. }
  rewrite andb_true_iff, N.eqb_eq, IH. split.
  - intros [-> [post ->]]. by exists post.
  - intros [post [= -> ->]]. split; [done|]. by exists post.
Qed.

Lemma contains_spec needle s :
  contains needle s = true <-> exists pre post, s = pre ++ needle ++ post.
Proof.
  induction s as [|x s IH].
  - cbn [contains]. rewrite orb_false_r, startswith_spec. split.
    + intros [post H]. by exists [], post.
    + intros (pre & post & H). destruct pre; [by exists post|done].
  - cbn [contains]. rewrite orb_true_iff, startswith_spec, IH. split.
    + intros [[post H]|(pre & post & H)].
      * by exists [], post.
      * exists (x :: pre), post. by rewrite H.
    + intros (pre & post & H). destruct pre as [|y pre].
      * left. by exists post.
      * right. injection H as -> ->. by exists pre, post.
Qed.

(** A needle found in a part of a text is found in the text. *)
Lemma contains_infix needle s pre post :
  contains needle s = true -> contains needle (pre ++ s ++ post) = true.
Proof.
  rewrite !contains_spec. intros (a & b & ->).
  exists (pre ++ a), (b ++ post). by rewrite <- !app_assoc.
Qed.

Lemma contains_find needle s :
  contains needle s = true -> exists i, find needle s = Some i.
Proof.
  induction s as [|x s IH]; cbn [contains find].
  - rewrite orb_false_r. intros ->. by exists 0.
  - destruct (startswith needle (x :: s)); [by exists 0|]. simpl.
    intros H. destruct (IH H) as [i ->]. by exists (S i).
Qed.

(** What comes before the first occurrence holds no occurrence. *)
Lemma find_take c needle s i :
  find (c :: needle) s = Some i -> contains (c :: needle) (take i s) = false.
Proof.
  revert i. induction s as [|x s IH]; intros i.
  { cbn [find]. simpl. done. }
  cbn [find]. destruct (startswith (c :: needle) (x :: s)) eqn:Hsw.
  { intros [= <-]. done. }
  destruct (find (c :: needle) s) as [j|] eqn:Hf; [|done].
  intros [= <-]. cbn [take contains]. rewrite (IH j) by done.
  rewrite orb_false_r. apply not_true_is_false. intros H.
  apply startswith_spec in H as [post H].
  assert (startswith (c :: needle) (x :: s) = true) as Hsw'.
  { apply startswith_spec. exists (post ++ drop j s).
    rewrite app_assoc, <- H. simpl. by rewrite take_drop. }
  congruence.
Qed.

Lemma before_clean c needle s :
  contains (c :: needle) s = true -> contains (c :: needle) (before (c :: needle) s) = false.
Proof.
  intros H. unfold before. destruct (contains_find _ _ H) as [i Hi].
  rewrite Hi. by apply find_take.
Qed.

(** Stripping keeps a part of the text. *)
Lemma lstrip_suffix s : exists pre, s = pre ++ lstrip s.
Proof.
  induction s as [|x s [pre IH]]; [by exists []|]. simpl.
  destruct (isspace x); [|by exists []].
  exists (x :: pre). by rewrite IH at 1.
Qed.

Lemma strip_infix s : exists pre post, s = pre ++ strip s ++ post.
Proof.
  unfold strip, rstrip.
  destruct (lstrip_suffix s) as [pre Hpre].
  destruct (lstrip_suffix (rev (lstrip s))) as [post Hpost].
  exists pre, (rev post).
  rewrite <- rev_app_distr, <- Hpost, rev_involutive. exact Hpre.
Qed.

Lemma strip_keeps_clean needle s :
  contains needle s = false -> contains needle (strip s) = false.
Proof.
  intros H. apply not_true_is_false. intros Hc.
  destruct (strip_infix s) as (pre & post & Hs).
  apply (contains_infix _ _ pre post) in Hc. rewrite <- Hs in Hc. congruence.
Qed.

(** Stripping twice strips once. *)
Lemma lstrip_nonspace c s : isspace c = false -> lstrip (c :: s) = c :: s.
Proof. intros H. simpl. by rewrite H. Qed.

Lemma lstrip_idemp s : lstrip (lstrip s) = lstrip s.
Proof.
  destruct (lstrip s) as [|c t] eqn:H; [done|].
  apply lstrip_nonspace. by apply (lstrip_head s c t).
Qed.

Lemma strip_idemp s : strip (strip s) = strip s.
Proof.
  destruct (strip_cases s) as [->|(c & t & Hs & Hc)]; [done|].
  unfold strip at 1. rewrite Hs, (lstrip_nonspace c t Hc), <- Hs.
  unfold strip, rstrip. by rewrite rev_involutive, lstrip_idemp.
Qed.

(** The main part of an answer never holds the tag of the sources. *)
Lemma main_part_clean answer : contains reference_div (main_part answer) = false.
Proof.
  unfold main_part. destruct (contains reference_div answer) eqn:H; [|done].
  apply strip_keeps_clean. by apply before_clean.
Qed.

(** The marker is first found where nothing before it holds a quote. *)
Lemma find_after_quoteless pre c needle rest' :
  c ∉ pre ->
  find (c :: needle) (pre ++ (c :: needle) ++ rest') = Some (length pre).
Proof.
  intros Hpre. induction pre as [|x pre IH].
  { cbn [app length find].
    assert (startswith (c :: needle) (c :: needle ++ rest') = true) as ->; [|done].
    apply startswith_spec. by exists rest'. }
  apply not_elem_of_cons in Hpre as [Hx Hpre].
  rewrite <- app_comm_cons. cbn [length find startswith].
  assert ((c =? x)%N = false) as -> by (apply N.eqb_neq; congruence).
  cbn [andb]. by rewrite IH.
Qed.

(** The closing pair is first found where the text before it holds no
    closing brace. *)
Lemma find_close v rest' :
  125%N ∉ v -> find content_close (v ++ content_close ++ rest') = Some (length v).
Proof.
  intros Hv. induction v as [|x v IH]; [done|].
  apply not_elem_of_cons in Hv as [Hx Hv].
  rewrite <- app_comm_cons. cbn [length find]. rewrite (IH Hv).
  assert (startswith content_close (x :: v ++ content_close ++ rest') = false) as ->; [|done].
  unfold content_close. cbn [startswith].
  destruct (34 =? x)%N; [|done]. cbn [andb].
  destruct v as [|y v]; [done|].
  apply not_elem_of_cons in Hv as [Hy _]. rewrite <- app_comm_cons.
  assert ((125 =? y)%N = false) as -> by (apply N.eqb_neq; congruence). done.
Qed.

(** Nothing is replaced where the first character to replace is absent. *)
Lemma replace_absent c old new s : c ∉ s -> replace (c :: old) new s = s.
Proof.
  unfold replace. induction s as [|x s IH]; intros Hs; [done|].
  apply not_elem_of_cons in Hs as [Hx Hs].
  cbn [replace_skipping startswith].
  assert ((c =? x)%N = false) as -> by (apply N.eqb_neq; congruence).
  simpl. by rewrite IH.
Qed.

Lemma content_value_well_formed pre v post :
  34%N ∉ pre -> 125%N ∉ v -> 92%N ∉ v ->
  content_value (pre ++ content_marker ++ v ++ content_close ++ post) = Some v.
Proof.
  intros Hpre Hv Hesc. unfold content_value.
  assert (contains content_marker (pre ++ content_marker ++ v ++ content_close ++ post)
          = true) as ->.
  { apply contains_spec. by exists pre, (v ++ content_close ++ post). }
  change content_marker with (34%N :: tl content_marker) at 1 2.
  rewrite find_after_quoteless by done.
  change (34%N :: tl content_marker) with content_marker.
  cbv zeta. unfold find_at.
  rewrite (app_assoc pre), drop_app_length'
    by (by rewrite length_app).
  rewrite find_close by done. cbn [fmap option_fmap option_map].
  replace (length pre + length content_marker + length v
           - (length pre + length content_marker)) with (length v) by lia.
  rewrite take_app_length. unfold unescape.
  rewrite (replace_absent 92 [34%N] [34%N] v Hesc).
  by rewrite (replace_absent 92 [110%N] [10%N] v Hesc).
Qed.

End ReplyFacts.

(** X11: whatever the reply, the text that [clean_ai_response] returns
    never holds the opening tag of the list of sources and has no white
    space at either end; and on a non-empty reply it is the stripped
    ['ai_answer'] that [query_answer] computes from the same reply. *)
Theorem clean_ai_response_drops_sources :
  (forall response_text,
      contains reference_div (clean_ai_response response_text) = false)
  /\ (forall response_text,
      strip (clean_ai_response response_text) = clean_ai_response response_text)
  /\ (forall response_text,
      contains reference_div (query_answer_ai_answer response_text) = false)
  /\ (forall response_text,
      response_text <> [] ->
      clean_ai_response response_text = strip (query_answer_ai_answer response_text)).
Proof.
  split; [|split; [|split]].
  - intros t. unfold clean_ai_response.
    destruct (negb (truthy t)); [done|].
    destruct (content_value t) as [answer|]; [|done].
    apply strip_keeps_clean, main_part_clean.
  - intros t. unfold clean_ai_response.
    destruct (negb (truthy t)); [done|].
    destruct (content_value t) as [answer|]; [|done].
    apply strip_idemp.
  - intros t. unfold query_answer_ai_answer.
    destruct (content_value t) as [answer|]; [|done].
    apply main_part_clean.
  - intros t Ht. unfold clean_ai_response, query_answer_ai_answer.
    destruct t as [|c t]; [done|]. cbn [truthy negb].
    by destruct (content_value (c :: t)).
Qed.

Lemma clean_ai_response_drops_sources_witness :
  clean_ai_response sample_reply = strip (query_answer_ai_answer sample_reply)
  /\ clean_ai_response sample_reply = lit "C is a letter.".
Proof.
  destruct clean_ai_response_drops_sources as (_ & _ & _ & Hagree).
  split; [by apply Hagree|]. by vm_compute.
Defined.

(** X12: a reply that holds the marker after text without a double quote,
    then a value without closing brace and without backslash, then the
    closing pair, reads back as that value, whatever follows:
    [query_contexts] returns its conversion with the success flag, and
    [query_answer] and [clean_ai_response] return its main part. *)
Theorem reply_value_is_read_back (html_to_text : pystr -> pystr) (pre v post : pystr) :
  34%N ∉ pre -> 125%N ∉ v -> 92%N ∉ v ->
  let response_text := pre ++ content_marker ++ v ++ content_close ++ post in
  query_contexts_reply html_to_text response_text = (html_to_text v, true)
  /\ query_answer_ai_answer response_text = main_part v
  /\ clean_ai_response response_text = strip (main_part v).
Proof.
  intros Hpre Hv Hesc response_text.
  pose proof (content_value_well_formed pre v post Hpre Hv Hesc) as Hread.
  fold response_text in Hread.
  unfold query_contexts_reply, query_answer_ai_answer, clean_ai_response.
  rewrite Hread. split; [done|]. split; [done|].
  assert (truthy response_text = true) as ->; [|done].
  unfold response_text, content_marker. by destruct pre.
Qed.

Lemma reply_value_is_read_back_witness :
  query_contexts_reply (fun s => s)
    (lit "{" ++ content_marker ++ lit "[c.txt]: a passage" ++ content_close ++ lit "}")
  = (lit "[c.txt]: a passage", true).
Proof.
  destruct (reply_value_is_read_back (fun s => s) (lit "{") (lit "[c.txt]: a passage")
              (lit "}")) as (Hctx & _).
  - intros H. apply (bool_decide_pack _) in H. by vm_compute in H.
  - intros H. apply (bool_decide_pack _) in H. by vm_compute in H.
  - intros H. apply (bool_decide_pack _) in H. by vm_compute in H.
  - exact Hctx.
Defined.

(* ===================================================================== *)
(** * The command-line fetchers and the web application agree *)
(* ===================================================================== *)

Section FetcherFacts.

Variable fetch_ok : nat -> pystr -> bool.
Variable write_ok : nat -> nat -> bool.

Implicit Types (l : list (nat * row)) (results : tally) (ss : list status).

Lemma record_status_total results s : total (record_status results s) = S (total results).
Proof. unfold total. destruct s; simpl; lia. Qed.

Lemma record_loop_total ss results :
  total (fold_left record_status ss results) = total results + length ss.
Proof.
  revert results. induction ss as [|s ss IH]; intros results; simpl; [lia|].
  rewrite IH, record_status_total. lia.
Qed.

Lemma record_loop_skipped ss results :
  n_skipped (fold_left record_status ss results)
  = n_skipped results + length (filter (fun s => is_skipped s = true) ss).
Proof.
  revert results. induction ss as [|s ss IH]; intros results; simpl; [lia|].
  rewrite IH, filter_cons. destruct s; cbn [is_skipped].
  - rewrite decide_False by done. simpl. lia.
  - rewrite decide_True by done. simpl. lia.
  - rewrite decide_False by done. simpl. lia.
  - rewrite decide_False by done. simpl. lia.
Qed.

(** A task that is not skipped makes exactly one remote call, a skipped
    one none. *)
Lemma single_question_calls target index r :
  length (snd (single_question target fetch_ok write_ok index r))
  = if is_skipped (fst (single_question target fetch_ok write_ok index r))
    then 0 else 1.
Proof.
  unfold single_question.
  destruct (negb (isna (target r)) && _); [done|].
  destruct (fetch_ok _ _); [|done].
  by destruct (fst (safe_update_from _ _ _)).
Qed.

Lemma calls_and_skips target l :
  length (concat (map (fun ir => snd (single_question target fetch_ok write_ok ir.1 ir.2)) l))
  + length (filter (fun s => is_skipped s = true)
              (map (fun ir => fst (single_question target fetch_ok write_ok ir.1 ir.2)) l))
  = length l.
Proof.
  induction l as [|ir l IH]; [done|].
  cbn [map concat]. rewrite length_app, filter_cons, single_question_calls.
  destruct (is_skipped _).
  - rewrite decide_True by done. cbn [length]. lia.
  - rewrite decide_False by done. cbn [length]. lia.
Qed.

(** The remote calls are those of the rows that need the column filled. *)
Lemma answer_calls l :
  concat (map (fun ir => snd (single_question col_ai_answer fetch_ok write_ok ir.1 ir.2))
              (filter (fun ir => question_blank ir.2 = false) l))
  = omap (answer_task ∅) l.
Proof.
  induction l as [|ir l IH]; [done|].
  assert (omap (answer_task ∅) (ir :: l)
          = match answer_task ∅ ir with
            | Some t => t :: omap (answer_task ∅) l
            | None => omap (answer_task ∅) l
            end) as -> by reflexivity.
  rewrite filter_cons. unfold answer_task.
  destruct (question_blank ir.2) eqn:Hq.
  { rewrite decide_False by done. exact IH. }
  rewrite decide_True by done. cbn [map concat]. rewrite IH.
  unfold single_question, empty_cell.
  rewrite bool_decide_eq_false_2 by set_solver. cbn [negb andb].
  destruct (isna (col_ai_answer ir.2)); cbn [negb andb orb].
  { destruct (fetch_ok _ _); [|done]. by destruct (fst (safe_update_from _ _ _)). }
  destruct (pystr_eqb _ []); cbn [negb]; [|done].
  destruct (fetch_ok _ _); [|done]. by destruct (fst (safe_update_from _ _ _)).
Qed.

Lemma context_calls l :
  concat (map (fun ir => snd (single_question col_contexts fetch_ok write_ok ir.1 ir.2))
              (filter (fun ir => question_blank ir.2 = false) l))
  = omap (context_task ∅) l.
Proof.
  induction l as [|ir l IH]; [done|].
  assert (omap (context_task ∅) (ir :: l)
          = match context_task ∅ ir with
            | Some t => t :: omap (context_task ∅) l
            | None => omap (context_task ∅) l
            end) as -> by reflexivity.
  rewrite filter_cons. unfold context_task.
  destruct (question_blank ir.2) eqn:Hq.
  { rewrite decide_False by done. exact IH. }
  rewrite decide_True by done. cbn [map concat]. rewrite IH.
  unfold single_question, empty_cell.
  rewrite bool_decide_eq_false_2 by set_solver. cbn [negb andb].
  destruct (isna (col_contexts ir.2)); cbn [negb andb orb].
  { destruct (fetch_ok _ _); [|done]. by destruct (fst (safe_update_from _ _ _)). }
  destruct (pystr_eqb _ []); cbn [negb]; [|done].
  destruct (fetch_ok _ _); [|done]. by destruct (fst (safe_update_from _ _ _)).
Qed.

Lemma file_parallel_calls target completion df :
  snd (file_parallel target fetch_ok write_ok completion df)
  = concat (map (fun ir => snd (single_question target fetch_ok write_ok ir.1 ir.2))
              (filter (fun ir => question_blank ir.2 = false) (iterrows df))).
Proof.
  unfold file_parallel. destruct (filter _ (iterrows df)) as [|ir l]; [done|].
  cbn [snd]. by rewrite map_map.
Qed.

Lemma file_parallel_tally target completion df results :
  (forall ss, completion ss ≡ₚ ss) ->
  fst (file_parallel target fetch_ok write_ok completion df) = Some results ->
  total results
  = length (filter (fun ir => question_blank ir.2 = false) (iterrows df))
  /\ n_skipped results
     + length (snd (file_parallel target fetch_ok write_ok completion df))
     = total results.
Proof.
  intros Hperm. rewrite file_parallel_calls. unfold file_parallel.
  destruct (filter _ (iterrows df)) as [|ir l] eqn:Hf; [done|].
  generalize (ir :: l). clear Hf ir l. intros tasks.
  cbn [fst]. intros H. apply (inj Some) in H. subst results.
  rewrite record_loop_total, record_loop_skipped.
  rewrite !(Hperm _). rewrite !length_map, map_map.
  pose proof (calls_and_skips target tasks) as Hcs.
  change (total (Tally 0 0 0 0)) with 0.
  cbn [n_skipped]. split; lia.
Qed.

End FetcherFacts.

(** X14: [safe_update_excel], in both fetchers alike: the sheet is
    rewritten exactly when one of the three attempts goes through, the
    later attempts not being made; one second is slept after each failed
    attempt but the third, so never more than twice. *)
Theorem safe_update_excel_attempts (write_ok : nat -> bool) :
  fst (GetAnswer.safe_update_excel write_ok)
  = write_ok 0 || write_ok 1 || write_ok 2
  /\ snd (GetAnswer.safe_update_excel write_ok)
     = (if write_ok 0 then 0 else if write_ok 1 then 1 else 2)
  /\ GetContexts.safe_update_excel write_ok = GetAnswer.safe_update_excel write_ok.
Proof.
  unfold GetAnswer.safe_update_excel, GetContexts.safe_update_excel. simpl.
  destruct (write_ok 0), (write_ok 1), (write_ok 2); done.
Qed.

(** X13: the two command-line fetchers call their remote service for
    exactly the rows for which the web application, run on the same sheet
    without a checkpoint, builds an answer task and a context task, with
    the same questions and in the same order; each fetcher counts every
    row that has a question exactly once among its four statuses, and the
    rows it did not skip are those it called the service for. *)
Theorem fetchers_call_for_the_tasks_of_the_application
    (fetch_ok : nat -> pystr -> bool) (write_ok : nat -> nat -> bool)
    (completion : list status -> list status) (df : list row) :
  (forall ss, completion ss ≡ₚ ss) ->
  snd (GetAnswer.process_file_parallel fetch_ok write_ok completion df)
  = fst (collect_tasks (restore None df))
  /\ snd (GetContexts.process_file_parallel fetch_ok write_ok completion df)
     = snd (collect_tasks (restore None df))
  /\ (forall results,
         fst (GetAnswer.process_file_parallel fetch_ok write_ok completion df)
         = Some results ->
         n_completed results + n_skipped results + n_api_failed results
         + n_save_failed results
         = length (filter (fun r => question_blank r = false) df)
         /\ n_skipped results + length (fst (collect_tasks (restore None df)))
            = length (filter (fun r => question_blank r = false) df))
  /\ (forall results,
         fst (GetContexts.process_file_parallel fetch_ok write_ok completion df)
         = Some results ->
         n_completed results + n_skipped results + n_api_failed results
         + n_save_failed results
         = length (filter (fun r => question_blank r = false) df)
         /\ n_skipped results + length (snd (collect_tasks (restore None df)))
            = length (filter (fun r => question_blank r = false) df)).
Proof.
  intros Hperm.
  unfold GetAnswer.process_file_parallel, GetContexts.process_file_parallel.
  assert (length (filter (fun ir : nat * row => question_blank ir.2 = false) (iterrows df))
          = length (filter (fun r => question_blank r = false) df)) as Hrows.
  { unfold iterrows. generalize 0 as k.
    induction df as [|r df IH]; intros k; [done|].
    cbn [length seq zip zip_with]. rewrite !filter_cons. cbn [snd].
    destruct (decide (question_blank r = false)); cbn [length]; by rewrite IH. }
  assert (snd (file_parallel col_ai_answer fetch_ok write_ok completion df)
          = fst (collect_tasks (restore None df))) as Ha.
  { rewrite file_parallel_calls, answer_calls, collect_tasks_omap. done. }
  assert (snd (file_parallel col_contexts fetch_ok write_ok completion df)
          = snd (collect_tasks (restore None df))) as Hc.
  { rewrite file_parallel_calls, context_calls, collect_tasks_omap. done. }
  split; [exact Ha|]. split; [exact Hc|]. split.
  - intros results Hres.
    destruct (file_parallel_tally fetch_ok write_ok col_ai_answer completion df results
                Hperm Hres) as [Htot Hskip].
    unfold total in *. rewrite Ha in Hskip. rewrite <- Hrows. lia.
  - intros results Hres.
    destruct (file_parallel_tally fetch_ok write_ok col_contexts completion df results
                Hperm Hres) as [Htot Hskip].
    unfold total in *. rewrite Hc in Hskip. rewrite <- Hrows. lia.
Qed.

Lemma fetchers_call_for_the_tasks_of_the_application_witness :
  snd (GetAnswer.process_file_parallel (fun _ _ => true) (fun _ _ => true)
         (fun ss => rev ss) half_done_sheet)
  = fst (collect_tasks (restore None half_done_sheet))
  /\ fst (collect_tasks (restore None half_done_sheet)) = [(1, lit "What is B?")].
Proof.
  destruct (fetchers_call_for_the_tasks_of_the_application (fun _ _ => true)
              (fun _ _ => true) (fun ss => rev ss) half_done_sheet) as (Ha & _).
  - intros ss. symmetry. apply Permutation_rev.
  - split; [exact Ha|]. by vm_compute.
Defined.

(* ===================================================================== *)
(** * Names of the source documents *)
(* ===================================================================== *)

Section ReferenceFacts.

Implicit Types (acc names : list pystr) (f : pystr -> pystr).

Lemma add_unique_NoDup acc name : NoDup acc -> NoDup (add_unique acc name).
Proof.
  intros Hnd. unfold add_unique. case_bool_decide as Hin; [done|].
  apply NoDup_app. split; [done|]. split; [|apply NoDup_singleton].
  intros x Hx Hx'. apply list_elem_of_singleton in Hx'. by subst x.
Qed.

Lemma add_unique_elem acc name x : x ∈ add_unique acc name <-> x ∈ acc \/ x = name.
Proof.
  unfold add_unique. case_bool_decide as Hin.
  - split; [by left|]. intros [H| ->]; done.
  - rewrite elem_of_app, list_elem_of_singleton. done.
Qed.

Lemma add_unique_prefix acc name : acc `prefix_of` add_unique acc name.
Proof.
  unfold add_unique. case_bool_decide; [done|]. by apply prefix_app_r.
Qed.

Lemma add_loop f names acc :
  NoDup acc ->
  NoDup (fold_left (fun a m => add_unique a (f m)) names acc)
  /\ (forall x, x ∈ fold_left (fun a m => add_unique a (f m)) names acc
                <-> x ∈ acc \/ exists m, m ∈ names /\ x = f m)
  /\ acc `prefix_of` fold_left (fun a m => add_unique a (f m)) names acc.
Proof.
  revert acc. induction names as [|m names IH]; intros acc Hnd.
  { simpl. split; [done|]. split; [|done].
    intros x. split; [by left|]. intros [H|(m & Hm & _)]; [done|].
    by apply elem_of_nil in Hm. }
  cbn [fold_left].
  destruct (IH (add_unique acc (f m)) (add_unique_NoDup _ _ Hnd)) as (Hn & He & Hp).
  split; [done|]. split.
  - intros x. rewrite He, add_unique_elem. split.
    + intros [[H| ->]|(m' & Hm' & ->)].
      * by left.
      * right. exists m. split; [by left|done].
      * right. exists m'. split; [by right|done].
    + intros [H|(m' & Hm' & ->)].
      * left. by left.
      * apply elem_of_cons in Hm' as [->|Hm'].
        -- left. by right.
        -- right. by exists m'.
  - etrans; [apply add_unique_prefix|exact Hp].
Qed.

End ReferenceFacts.

(** X15: [parse_reference_names] never lists a name twice; the names it
    lists are the decoded matches of the URL-encoded [.doc] pattern (when
    the reply holds [docFileName]), the matches of the plain pattern and
    the decoded matches of the URL-encoded [.xlsx] pattern, all of them
    and nothing else; an empty reply gives no name. *)
Theorem parse_reference_names_lists_each_name_once (unquote : pystr -> pystr)
    (response_text : pystr) :
  NoDup (parse_reference_names unquote response_text)
  /\ (forall name,
         name ∈ parse_reference_names unquote response_text <->
         response_text <> []
         /\ ((contains (lit "docFileName") response_text = true
              /\ exists m, m ∈ findall1 (encoded_name (lit "doc")) response_text
                           /\ name = unquote m)
             \/ name ∈ findall1 plain_name response_text
             \/ exists m, m ∈ findall1 (encoded_name (lit "xlsx")) response_text
                          /\ name = unquote m))
  /\ parse_reference_names unquote [] = [].
Proof.
  split; [|split; [|done]].
  - unfold parse_reference_names. destruct (negb (truthy response_text)).
    { apply NoDup_nil_2. }
    cbv zeta. apply add_loop.
    apply (add_loop (fun m => m)).
    destruct (contains _ _); [|apply NoDup_nil_2].
    apply add_loop, NoDup_nil_2.
  - intros name. unfold parse_reference_names.
    destruct response_text as [|c t].
    { cbn [truthy negb]. split; [by intros H; apply elem_of_nil in H|by intros [? _]]. }
    cbn [truthy negb]. cbv zeta.
    set (s := c :: t).
    set (l1 := if contains (lit "docFileName") s
               then fold_left (fun acc m => add_unique acc (unquote m))
                              (findall1 (encoded_name (lit "doc")) s) []
               else []).
    assert (NoDup l1) as Hn1.
    { unfold l1. destruct (contains _ _); [|apply NoDup_nil_2].
      apply add_loop, NoDup_nil_2. }
    assert (forall x, x ∈ l1 <->
              contains (lit "docFileName") s = true
              /\ exists m, m ∈ findall1 (encoded_name (lit "doc")) s /\ x = unquote m)
      as He1.
    { intros x. unfold l1. destruct (contains _ _).
      - destruct (add_loop unquote (findall1 (encoded_name (lit "doc")) s) []
                    (NoDup_nil_2)) as (_ & He & _).
        rewrite He. split.
        + intros [H|H]; [by apply elem_of_nil in H|done].
        + intros [_ H]. by right.
      - split; [by intros H; apply elem_of_nil in H|by intros [? _]]. }
    destruct (add_loop (fun m => m) (findall1 plain_name s) l1 Hn1) as (Hn2 & He2 & _).
    destruct (add_loop unquote (findall1 (encoded_name (lit "xlsx")) s) _ Hn2)
      as (_ & He3 & _).
    rewrite He3, He2, He1. split.
    + intros [[H|(m & Hm & ->)]|H].
      * split; [done|]. by left.
      * split; [done|]. right. by left.
      * split; [done|]. right. by right.
    + intros [_ [H|[H|H]]].
      * left. by left.
      * left. right. by exists name.
      * by right.
Qed.

Lemma parse_reference_names_lists_each_name_once_witness :
  lit "handbook.doc" ∈ parse_reference_names (fun s => s) twice_named
  /\ parse_reference_names (fun s => s) twice_named = [lit "handbook.doc"].
Proof.
  destruct (parse_reference_names_lists_each_name_once (fun s => s) twice_named)
    as (_ & Hnames & _).
  split; [|by vm_compute].
  apply Hnames. split; [done|]. right. left.
  apply (bool_decide_unpack _). by vm_compute.
Defined.

(* ===================================================================== *)
(** * The periodic checkpoint *)
(* ===================================================================== *)

Section CheckpointFacts.

Variable e : env.
Variable file_hash : pystr.

Implicit Types (ls : loop_state) (ts : list (nat * pystr)).

Lemma answer_done_counter ls t :
  ls_save_counter (answer_done e file_hash ls t) = S (ls_save_counter ls).
Proof.
  unfold answer_done, tick.
  destruct (answer_call e t.1 t.2) as [res|]; [|done]. by destruct (success res).
Qed.

Lemma context_done_counter ls t :
  ls_save_counter (context_done e file_hash ls t) = S (ls_save_counter ls).
Proof.
  unfold context_done, tick.
  destruct (context_call e t.1 t.2) as [[c [|]]|]; done.
Qed.

(** Only every tenth completed task touches the state directory, and what
    it saves is the working state that includes the task. *)
Lemma answer_done_store ls t :
  ls_store (answer_done e file_hash ls t)
  = if Nat.eqb (S (ls_save_counter ls) mod 10) 0
    then checkpoint e (AnswerSave (S (ls_save_counter ls))) file_hash (ls_store ls)
           (answer_apply e (ls_work ls) t)
    else ls_store ls.
Proof.
  unfold answer_done, answer_apply, tick.
  destruct (answer_call e t.1 t.2) as [res|]; [|done]. by destruct (success res).
Qed.

Lemma context_done_store ls t :
  ls_store (context_done e file_hash ls t)
  = if Nat.eqb (S (ls_save_counter ls) mod 10) 0
    then checkpoint e (ContextSave (S (ls_save_counter ls))) file_hash (ls_store ls)
           (context_apply e (ls_work ls) t)
    else ls_store ls.
Proof.
  unfold context_done, context_apply, tick.
  destruct (context_call e t.1 t.2) as [[c [|]]|]; done.
Qed.

Lemma answer_loop_counter ts ls :
  ls_save_counter (fold_left (answer_done e file_hash) ts ls)
  = ls_save_counter ls + length ts.
Proof.
  revert ls. induction ts as [|t ts IH]; intros ls; simpl; [lia|].
  rewrite IH, answer_done_counter. lia.
Qed.

Lemma context_loop_counter ts ls :
  ls_save_counter (fold_left (context_done e file_hash) ts ls)
  = ls_save_counter ls + length ts.
Proof.
  revert ls. induction ts as [|t ts IH]; intros ls; simpl; [lia|].
  rewrite IH, context_done_counter. lia.
Qed.

(** A save that meets no fault leaves the state it was given under the
    hash. *)
Lemma checkpoint_lookup site fs (w : work) :
  fault_at e site = NoFault ->
  checkpoint e site file_hash fs w !! file_hash
  = Some (Pickled (StateData file_hash (w_df w) (elements (w_answer_progress w))
                     (elements (w_context_progress w)) (clock_at e site))).
Proof.
  intros Hf. unfold checkpoint, save_processing_state. rewrite Hf. simpl.
  by rewrite lookup_insert_eq.
Qed.

(** Between two multiples of ten the directory is left alone. *)
Lemma answer_loop_quiet ts ls :
  ls_save_counter ls mod 10 + length ts < 10 ->
  ls_store (fold_left (answer_done e file_hash) ts ls) = ls_store ls.
Proof.
  revert ls. induction ts as [|t ts IH]; intros ls Hlt; [done|].
  cbn [fold_left length] in *. rewrite IH.
  - rewrite answer_done_store.
    assert (S (ls_save_counter ls) mod 10 = S (ls_save_counter ls mod 10)) as ->.
    { pose proof (Nat.div_mod_eq (ls_save_counter ls) 10) as Hdm.
      symmetry. apply (Nat.mod_unique _ 10 (ls_save_counter ls / 10)); lia. }
    done.
  - rewrite answer_done_counter.
    assert (S (ls_save_counter ls) mod 10 = S (ls_save_counter ls mod 10)) as ->.
    { pose proof (Nat.div_mod_eq (ls_save_counter ls) 10) as Hdm.
      symmetry. apply (Nat.mod_unique _ 10 (ls_save_counter ls / 10)); lia. }
    lia.
Qed.

Lemma context_loop_quiet ts ls :
  ls_save_counter ls mod 10 + length ts < 10 ->
  ls_store (fold_left (context_done e file_hash) ts ls) = ls_store ls.
Proof.
  revert ls. induction ts as [|t ts IH]; intros ls Hlt; [done|].
  cbn [fold_left length] in *. rewrite IH.
  - rewrite context_done_store.
    assert (S (ls_save_counter ls) mod 10 = S (ls_save_counter ls mod 10)) as ->.
    { pose proof (Nat.div_mod_eq (ls_save_counter ls) 10) as Hdm.
      symmetry. apply (Nat.mod_unique _ 10 (ls_save_counter ls / 10)); lia. }
    done.
  - rewrite context_done_counter.
    assert (S (ls_save_counter ls) mod 10 = S (ls_save_counter ls mod 10)) as ->.
    { pose proof (Nat.div_mod_eq (ls_save_counter ls) 10) as Hdm.
      symmetry. apply (Nat.mod_unique _ 10 (ls_save_counter ls / 10)); lia. }
    lia.
Qed.

(** A list cut at a positive multiple of ten: what comes before the last
    task of the multiple, that task, and fewer than ten tasks after it. *)
Lemma take_at_tenth {A} (l : list A) (k : nat) :
  k <= length l -> 0 < 10 * (k / 10) ->
  exists t rest',
    take (10 * (k / 10)) l = take (10 * (k / 10) - 1) l ++ [t]
    /\ take k l = take (10 * (k / 10)) l ++ rest'
    /\ length rest' = k mod 10.
Proof.
  intros Hk Hm.
  pose proof (Nat.div_mod_eq k 10) as Hdm.
  pose proof (Nat.mod_upper_bound k 10 ltac:(lia)) as Hmod.
  set (m := 10 * (k / 10)) in *.
  destruct (lookup_lt_is_Some_2 l (m - 1) ltac:(lia)) as [t Ht].
  exists t, (take (k mod 10) (drop m l)). split; [|split].
  - replace m with (S (m - 1)) at 1 by lia. by apply take_S_r.
  - replace k with (m + k mod 10) at 1 by lia. by rewrite take_take_drop.
  - rewrite length_take, length_drop. lia.
Qed.

End CheckpointFacts.

(** X16: if either completion loop is cut after [k] tasks, ten or more,
    and the save made at the last multiple of ten met no fault, then the
    checkpoint on disk is the working state as it was after that multiple
    of ten: the rows and the progress of all but the last [k mod 10]
    completed tasks, fewer than ten, are there to be loaded. *)
Theorem checkpoint_loses_fewer_than_ten_tasks (e : env) (file_hash : pystr)
    (fs : store) (w0 : work) (ts : list (nat * pystr)) (k : nat) :
  k <= length ts -> 0 < 10 * (k / 10) ->
  (fault_at e (AnswerSave (10 * (k / 10))) = NoFault ->
   load_processing_state
     (ls_store (fold_left (answer_done e file_hash) (take k ts) (LoopState fs w0 0 0)))
     file_hash
   = Ok (Some
           (let w := fold_left (answer_apply e) (take (10 * (k / 10)) ts) w0 in
            StateData file_hash (w_df w) (elements (w_answer_progress w))
              (elements (w_context_progress w))
              (clock_at e (AnswerSave (10 * (k / 10)))))))
  /\ (fault_at e (ContextSave (10 * (k / 10))) = NoFault ->
      load_processing_state
        (ls_store (fold_left (context_done e file_hash) (take k ts) (LoopState fs w0 0 0)))
        file_hash
      = Ok (Some
              (let w := fold_left (context_apply e) (take (10 * (k / 10)) ts) w0 in
               StateData file_hash (w_df w) (elements (w_answer_progress w))
                 (elements (w_context_progress w))
                 (clock_at e (ContextSave (10 * (k / 10))))))).
Proof.
  intros Hk Hm.
  destruct (take_at_tenth ts k Hk Hm) as (t & rest' & Hlast & Hcut & Hrest).
  pose proof (Nat.mod_upper_bound k 10 ltac:(lia)) as Hmod.
  pose proof (Nat.div_mod_eq k 10) as Hdm.
  set (m := 10 * (k / 10)) in *.
  assert (length (take (m - 1) ts) = m - 1) as Hlen.
  { rewrite length_take. lia. }
  assert (S (m - 1) = m) as HS by lia.
  assert (m mod 10 = 0) as Hm0.
  { unfold m. rewrite Nat.mul_comm. apply Nat.Div0.mod_mul. }
  split; intros Hfault.
  - rewrite Hcut, fold_left_app, answer_loop_quiet.
    + rewrite Hlast, fold_left_app. cbn [fold_left].
      rewrite answer_done_store, answer_loop_counter, Hlen. cbn [ls_save_counter].
      rewrite Nat.add_0_l, HS, Hm0. cbn [Nat.eqb].
      unfold load_processing_state, load_body.
      rewrite checkpoint_lookup by done. cbn [pickle_load].
      by rewrite answer_loop_work, fold_left_app.
    + rewrite answer_loop_counter. cbn [ls_save_counter].
      rewrite Nat.add_0_l, length_take, Nat.min_l by lia.
      rewrite Hm0. lia.
  - rewrite Hcut, fold_left_app, context_loop_quiet.
    + rewrite Hlast, fold_left_app. cbn [fold_left].
      rewrite context_done_store, context_loop_counter, Hlen. cbn [ls_save_counter].
      rewrite Nat.add_0_l, HS, Hm0. cbn [Nat.eqb].
      unfold load_processing_state, load_body.
      rewrite checkpoint_lookup by done. cbn [pickle_load].
      by rewrite context_loop_work, fold_left_app.
    + rewrite context_loop_counter. cbn [ls_save_counter].
      rewrite Nat.add_0_l, length_take, Nat.min_l by lia.
      rewrite Hm0. lia.
Qed.

Lemma checkpoint_loses_fewer_than_ten_tasks_witness :
  load_processing_state
    (ls_store (fold_left (answer_done flaky_env (lit "0f")) (take 12 twelve_tasks)
                 (LoopState ∅ twelve_rows 0 0)))
    (lit "0f")
  = Ok (Some
          (let w := fold_left (answer_apply flaky_env) (take (10 * (12 / 10)) twelve_tasks)
                      twelve_rows in
           StateData (lit "0f") (w_df w) (elements (w_answer_progress w))
             (elements (w_context_progress w))
             (clock_at flaky_env (AnswerSave (10 * (12 / 10)))))).
Proof.
  destruct (checkpoint_loses_fewer_than_ten_tasks flaky_env (lit "0f") ∅ twelve_rows
              twelve_tasks 12) as [Hanswers _].
  - vm_compute. lia.
  - vm_compute. lia.
  - apply Hanswers. reflexivity.
Defined.
